(** * ptw_viz: the two-stage page table walker

    A shallow embedding of the translation core of [ptw_viz]
    ([models/granule.py], [models/descriptor.py], [models/registers.py],
    [simulator/faults.py], [simulator/stage2.py], [simulator/stage1.py] and
    [simulator/walker.py]) together with the properties of the walk.

    Python integers are unbounded, so addresses, descriptor words, levels
    and counters are [Z]; [&], [|] and [>>] are [Z.land], [Z.lor] and
    [Z.shiftr], which agree with Python on negative numbers as well.
    Dictionaries keyed by an address are [gmap Z Z].  The two event counters
    that the walkers keep as mutable attributes are threaded explicitly.
    Formatted strings (descriptions, purposes, fault messages) are kept as
    the template that produced them together with its arguments. *)

From Stdlib Require Import ZArith List Bool Lia.
From stdpp Require Import base option gmap.
Import ListNotations.

Local Open Scope Z_scope.

(** ** models/granule.py *)

Module Granule.

Inductive GranuleType := GRANULE_4KB | GRANULE_16KB | GRANULE_64KB.

Definition granule_type_eqb (a b : GranuleType) : bool :=
  match a, b with
  | GRANULE_4KB, GRANULE_4KB
  | GRANULE_16KB, GRANULE_16KB
  | GRANULE_64KB, GRANULE_64KB => true
  | _, _ => false
  end.

Record GranuleConfig := {
  granule_type : GranuleType;
  page_size : Z;
  offset_bits : Z;
  index_bits : Z;
  entries_per_table : Z;
  level_shifts : list Z;          (* L0, L1, L2, L3 start bits *)
  block_offsets : gmap Z Z;       (* level -> offset mask for blocks *)
  min_level : Z
}.

Definition GRANULE_4KB_CONFIG : GranuleConfig := {|
  granule_type := GRANULE_4KB;
  page_size := 4096;
  offset_bits := 12;
  index_bits := 9;
  entries_per_table := 512;
  level_shifts := [39; 30; 21; 12];
  block_offsets := <[1 := 0x3FFFFFFF]> (<[2 := 0x1FFFFF]> ∅);
  min_level := 0
|}.

Definition GRANULE_16KB_CONFIG : GranuleConfig := {|
  granule_type := GRANULE_16KB;
  page_size := 16384;
  offset_bits := 14;
  index_bits := 11;
  entries_per_table := 2048;
  level_shifts := [47; 36; 25; 14];
  block_offsets := <[2 := 0x1FFFFFF]> ∅;
  min_level := 0
|}.

Definition GRANULE_64KB_CONFIG : GranuleConfig := {|
  granule_type := GRANULE_64KB;
  page_size := 65536;
  offset_bits := 16;
  index_bits := 13;
  entries_per_table := 8192;
  level_shifts := [0; 42; 29; 16];
  block_offsets := <[2 := 0x1FFFFFFF]> ∅;
  min_level := 1
|}.

(** [get_granule_config] raises [ValueError] on any size other than 4, 16
    and 64. *)
Definition get_granule_config (granule_kb : Z) : option GranuleConfig :=
  if granule_kb =? 4 then Some GRANULE_4KB_CONFIG
  else if granule_kb =? 16 then Some GRANULE_16KB_CONFIG
  else if granule_kb =? 64 then Some GRANULE_64KB_CONFIG
  else None.

Definition get_index_mask (index_bits : Z) : Z := Z.shiftl 1 index_bits - 1.

Definition get_offset_mask (offset_bits : Z) : Z := Z.shiftl 1 offset_bits - 1.

Definition calculate_index (address level : Z) (config : GranuleConfig) : Z :=
  if (level <? min_level config) || (3 <? level) then 0
  else
    let shift := nth (Z.to_nat level) (level_shifts config) 0 in
    let mask := get_index_mask (index_bits config) in
    if granule_type_eqb (granule_type config) GRANULE_16KB && (level =? 0)
    then Z.land (Z.shiftr address shift) 1
    else Z.land (Z.shiftr address shift) mask.

Definition calculate_page_offset (address : Z) (config : GranuleConfig) : Z :=
  Z.land address (get_offset_mask (offset_bits config)).

Definition calculate_block_offset (address level : Z) (config : GranuleConfig) : Z :=
  match block_offsets config !! level with
  | Some mask => Z.land address mask
  | None => calculate_page_offset address config
  end.

End Granule.

(** ** models/address.py *)

Module Address.
Import Granule.

(** Modelled from the spec: [models/address.py] ([VirtualAddress],
    [IntermediatePhysicalAddress], [PhysicalAddress] and
    [calculate_descriptor_address]) is not part of the sources at hand.
    An address carries its value, its configured width and its granule
    (one of 4, 16 or 64 KB, which the scenario parser has validated); its
    accessors are the operations of the address model, computed by the
    functions of [models/granule.py].  One record serves the three address
    classes, which differ only in the name of the width field. *)
Record Addr := {
  value : Z;
  bits : Z;
  granule : GranuleType
}.

(** Modelled from the spec: the walkers build intermediate and physical
    addresses from a bare value; the omitted width and granule are taken to
    be the 48-bit, 4 KB configuration. *)
Definition IntermediatePhysicalAddress (v : Z) : Addr :=
  {| value := v; bits := 48; granule := GRANULE_4KB |}.

Definition PhysicalAddress (v : Z) : Addr :=
  {| value := v; bits := 48; granule := GRANULE_4KB |}.

Definition config_of (g : GranuleType) : GranuleConfig :=
  match g with
  | GRANULE_4KB => GRANULE_4KB_CONFIG
  | GRANULE_16KB => GRANULE_16KB_CONFIG
  | GRANULE_64KB => GRANULE_64KB_CONFIG
  end.

(** Modelled from the spec: [index(addr, level)]. *)
Definition get_index (a : Addr) (level : Z) : Z :=
  calculate_index (value a) level (config_of (granule a)).

(** Modelled from the spec: [page_offset(addr)]. *)
Definition page_offset (a : Addr) : Z :=
  calculate_page_offset (value a) (config_of (granule a)).

(** Modelled from the spec: [block_offset(addr, level)] at levels 1 and 2. *)
Definition l1_block_offset (a : Addr) : Z :=
  calculate_block_offset (value a) 1 (config_of (granule a)).

Definition l2_block_offset (a : Addr) : Z :=
  calculate_block_offset (value a) 2 (config_of (granule a)).

(** Modelled from the spec: [uses_ttbr1(va)], the top [64 - va_bits] bits
    of the 64-bit value are all set. *)
Definition uses_ttbr1 (a : Addr) : bool :=
  Z.shiftr (value a) (bits a) =? Z.shiftl 1 (64 - bits a) - 1.

(** Modelled from the spec: the descriptor address is
    [table_base + index * descriptor_size]. *)
Definition calculate_descriptor_address (table_base index descriptor_size : Z) : Z :=
  table_base + index * descriptor_size.

End Address.

(** ** models/descriptor.py *)

Module Descriptor.

Inductive DescriptorType := INVALID | TABLE | BLOCK | PAGE.

(** [bool((v >> n) & 1)] *)
Definition bit_at (v n : Z) : bool := negb (Z.land (Z.shiftr v n) 1 =? 0).

Record AccessPermissions := {
  read_el0 : bool;
  write_el0 : bool;
  read_el1 : bool;
  write_el1 : bool;
  execute_el0 : bool;
  execute_el1 : bool
}.

Definition from_ap_bits (ap : Z) (uxn pxn : bool) : AccessPermissions :=
  if ap =? 0 then
    {| read_el0 := false; write_el0 := false;
       read_el1 := true; write_el1 := true;
       execute_el0 := negb uxn; execute_el1 := negb pxn |}
  else if ap =? 1 then
    {| read_el0 := true; write_el0 := true;
       read_el1 := true; write_el1 := true;
       execute_el0 := negb uxn; execute_el1 := negb pxn |}
  else if ap =? 2 then
    {| read_el0 := false; write_el0 := false;
       read_el1 := true; write_el1 := false;
       execute_el0 := negb uxn; execute_el1 := negb pxn |}
  else
    {| read_el0 := true; write_el0 := false;
       read_el1 := true; write_el1 := false;
       execute_el0 := negb uxn; execute_el1 := negb pxn |}.

Record Stage2Permissions := {
  s2_read : bool;
  s2_write : bool;
  s2_execute : bool
}.

Definition from_s2ap_bits (s2ap : Z) (xn : bool) : Stage2Permissions :=
  {| s2_read := negb (Z.land s2ap 1 =? 0) || (s2ap =? 3);
     s2_write := negb (Z.land s2ap 2 =? 0);
     s2_execute := negb xn |}.

(** The base class; [TableDescriptor], [PageDescriptor] and
    [BlockDescriptor] add properties but no fields. *)
Record Descriptor := {
  value : Z;
  level : Z;
  is_stage2 : bool
}.

Definition is_valid (d : Descriptor) : bool := Z.land (value d) 1 =? 1.

Definition is_table (d : Descriptor) : bool :=
  (level d <? 3) && (Z.land (value d) 3 =? 3).

Definition is_block (d : Descriptor) : bool :=
  ((level d =? 1) || (level d =? 2)) && (Z.land (value d) 3 =? 1).

Definition is_page (d : Descriptor) : bool :=
  (level d =? 3) && (Z.land (value d) 3 =? 3).

Definition descriptor_type (d : Descriptor) : DescriptorType :=
  if negb (is_valid d) then INVALID
  else if is_table d then TABLE
  else if is_block d then BLOCK
  else if is_page d then PAGE
  else INVALID.

(** [TableDescriptor] *)
Definition next_table_address (d : Descriptor) : Z :=
  Z.land (value d) 0x0000FFFFFFFFF000.

Definition ns_table (d : Descriptor) : bool := bit_at (value d) 63.
Definition ap_table (d : Descriptor) : Z := Z.land (Z.shiftr (value d) 61) 3.
Definition uxn_table (d : Descriptor) : bool := bit_at (value d) 60.
Definition pxn_table (d : Descriptor) : bool := bit_at (value d) 59.

(** [PageDescriptor.output_address] *)
Definition page_output_address (d : Descriptor) : Z :=
  Z.land (value d) 0x0000FFFFFFFFF000.

(** [BlockDescriptor.output_address] *)
Definition block_output_address (d : Descriptor) : Z :=
  if level d =? 1 then Z.land (value d) 0x0000FFFFC0000000
  else if level d =? 2 then Z.land (value d) 0x0000FFFFFFE00000
  else Z.land (value d) 0x0000FFFFFFFFF000.

(** The leaf attributes, which [PageDescriptor] and [BlockDescriptor]
    define alike. *)
Definition ap (d : Descriptor) : Z := Z.land (Z.shiftr (value d) 6) 3.
Definition uxn (d : Descriptor) : bool := bit_at (value d) 54.
Definition pxn (d : Descriptor) : bool := bit_at (value d) 53.
Definition access_flag (d : Descriptor) : bool := bit_at (value d) 10.
Definition not_global (d : Descriptor) : bool := bit_at (value d) 11.
Definition non_secure (d : Descriptor) : bool := bit_at (value d) 5.
Definition attr_index (d : Descriptor) : Z := Z.land (Z.shiftr (value d) 2) 7.

(** [create_descriptor] picks the subclass; the instance it returns holds
    the same three fields whichever class it is. *)
Definition create_descriptor (v lvl : Z) (s2 : bool) : Descriptor :=
  {| value := v; level := lvl; is_stage2 := s2 |}.

(** The values of the [Shareability] enumeration. *)
Inductive Shareability := NON_SHAREABLE | OUTER_SHAREABLE | INNER_SHAREABLE.

Definition shareability_value (sh : Shareability) : Z :=
  match sh with
  | NON_SHAREABLE => 0
  | OUTER_SHAREABLE => 2
  | INNER_SHAREABLE => 3
  end.

Inductive MemoryType :=
  | DEVICE_nGnRnE | DEVICE_nGnRE | DEVICE_nGRE | DEVICE_GRE
  | NORMAL_NC | NORMAL_WT | NORMAL_WB.

Record MemoryAttributes := {
  shareability : Shareability;
  memory_type : MemoryType;
  attr_index_of : Z;
  access_flag_of : bool;
  not_global_of : bool;
  non_secure_of : bool
}.

(** [Shareability(sh)]: the enumeration has no member of value [0b01], for
    which the constructor raises [ValueError]. *)
Definition shareability_of (sh : Z) : option Shareability :=
  if sh =? 0 then Some NON_SHAREABLE
  else if sh =? 2 then Some OUTER_SHAREABLE
  else if sh =? 3 then Some INNER_SHAREABLE
  else None.

(** The [shareability] property of a page or block descriptor. *)
Definition shareability_bits (d : Descriptor) : option Shareability :=
  shareability_of (Z.land (Z.shiftr (value d) 8) 3).

(** [get_permissions] of a page or block descriptor. *)
Definition get_permissions (d : Descriptor) : AccessPermissions :=
  from_ap_bits (ap d) (uxn d) (pxn d).

(** [get_attributes] of a page or block descriptor; [None] when reading
    the shareability raises. *)
Definition get_attributes (d : Descriptor) : option MemoryAttributes :=
  match shareability_bits d with
  | Some sh =>
      Some {| shareability := sh;
              memory_type := NORMAL_WB;
              attr_index_of := attr_index d;
              access_flag_of := access_flag d;
              not_global_of := not_global d;
              non_secure_of := non_secure d |}
  | None => None
  end.

Definition build_table_descriptor (next_table_address : Z) : Z :=
  Z.lor (Z.land next_table_address 0x0000FFFFFFFFF000) 3.

Definition build_page_descriptor (output_address ap : Z) (uxn pxn af : bool)
    (sh : Shareability) (attr_index : Z) : Z :=
  let v := Z.land output_address 0x0000FFFFFFFFF000 in
  let v := Z.lor v (Z.shiftl (if uxn then 1 else 0) 54) in
  let v := Z.lor v (Z.shiftl (if pxn then 1 else 0) 53) in
  let v := Z.lor v (Z.shiftl (if af then 1 else 0) 10) in
  let v := Z.lor v (Z.shiftl (shareability_value sh) 8) in
  let v := Z.lor v (Z.shiftl (Z.land ap 3) 6) in
  let v := Z.lor v (Z.shiftl (Z.land attr_index 7) 2) in
  Z.lor v 3.

End Descriptor.

(** ** simulator/faults.py *)

Module Faults.

Inductive FaultType :=
  | TRANSLATION_FAULT
  | PERMISSION_FAULT
  | ADDRESS_SIZE_FAULT
  | ACCESS_FLAG_FAULT.

Inductive AccessType := READ | WRITE | EXECUTE.

Definition access_type_eqb (a b : AccessType) : bool :=
  match a, b with
  | READ, READ | WRITE, WRITE | EXECUTE, EXECUTE => true
  | _, _ => false
  end.

(** The texts of the fault messages, by the template that builds them. *)
Inductive Message :=
  | MsgInvalidDescriptor (stage level : Z)
      (* "Invalid descriptor at Stage {stage} Level {level}" *)
  | MsgNoPageDescriptor (stage : Z)
      (* "Stage {stage} walk completed without finding page descriptor" *)
  | MsgDenied (access : AccessType) (ap : Z) (uxn pxn : bool).
      (* "{access} denied by AP={ap:02b}, UXN={uxn}, PXN={pxn}" *)

Record FaultRecord := {
  fault_type : FaultType;
  stage : Z;
  level : Z;
  address : Z;
  access_type : option AccessType;
  message : Message;
  far_el1 : option Z;
  far_el2 : option Z
}.

(** The text [f"0x{v:016X}"], by its argument. *)
Inductive HexText := Hex16 (v : Z).

(** The dictionary that [FaultRecord.to_dict] returns, one field per key;
    the conditional entries test the truth of the attribute, which is false
    for [None] and for the integer [0]. *)
Record FaultDict := {
  dict_fault_type : FaultType;
  dict_stage : Z;
  dict_level : Z;
  dict_address : HexText;
  dict_access_type : option AccessType;
  dict_message : Message;
  dict_FAR_EL1 : option HexText;
  dict_FAR_EL2 : option HexText
}.

Definition truthy_address (a : option Z) : option Z :=
  match a with
  | Some v => if v =? 0 then None else Some v
  | None => None
  end.

Definition to_dict (f : FaultRecord) : FaultDict :=
  {| dict_fault_type := fault_type f;
     dict_stage := stage f;
     dict_level := level f;
     dict_address := Hex16 (address f);
     dict_access_type := access_type f;
     dict_message := message f;
     dict_FAR_EL1 := Hex16 <$> truthy_address (far_el1 f);
     dict_FAR_EL2 := Hex16 <$> truthy_address (far_el2 f) |}.

Definition check_permission (access : AccessType) (ap : Z) (uxn pxn is_el0 : bool) : bool :=
  if access_type_eqb access EXECUTE then
    if is_el0 then negb uxn else negb pxn
  else if is_el0 then
    if access_type_eqb access READ then (ap =? 1) || (ap =? 3)
    else ap =? 1
  else
    if access_type_eqb access READ then true
    else (ap =? 0) || (ap =? 1).

Definition check_stage2_permission (access : AccessType) (s2ap : Z) (xn : bool) : bool :=
  if access_type_eqb access EXECUTE then negb xn
  else if access_type_eqb access READ then (s2ap =? 1) || (s2ap =? 3)
  else (s2ap =? 2) || (s2ap =? 3).

End Faults.

(** ** models/registers.py *)

Module Registers.

Record TTBR := { ttbr_value : Z }.

Definition asid (r : TTBR) : Z := Z.land (Z.shiftr (ttbr_value r) 48) 0xFFFF.
Definition baddr (r : TTBR) : Z := Z.land (ttbr_value r) 0x0000FFFFFFFFFFFE.
Definition cnp (r : TTBR) : bool := negb (Z.land (ttbr_value r) 1 =? 0).

Inductive GranuleSize := GRANULE_4KB | GRANULE_16KB | GRANULE_64KB.

Definition granule_size_value (g : GranuleSize) : Z :=
  match g with
  | GRANULE_4KB => 4096
  | GRANULE_16KB => 16384
  | GRANULE_64KB => 65536
  end.

Inductive PhysicalAddressSize :=
  | PA_32_BITS | PA_36_BITS | PA_40_BITS | PA_42_BITS
  | PA_44_BITS | PA_48_BITS | PA_52_BITS | PA_56_BITS.

Definition to_bits (s : PhysicalAddressSize) : Z :=
  match s with
  | PA_32_BITS => 32 | PA_36_BITS => 36 | PA_40_BITS => 40 | PA_42_BITS => 42
  | PA_44_BITS => 44 | PA_48_BITS => 48 | PA_52_BITS => 52 | PA_56_BITS => 56
  end.

Record TCR := {
  t0sz : Z;
  t1sz : Z;
  tg0 : GranuleSize;
  tg1 : GranuleSize;
  ips : PhysicalAddressSize
}.

(** [TCR(t0sz=..., t1sz=...)], the other fields at their defaults. *)
Definition make_TCR (t0 t1 : Z) : TCR :=
  {| t0sz := t0; t1sz := t1;
     tg0 := GRANULE_4KB; tg1 := GRANULE_4KB; ips := PA_48_BITS |}.

Definition va_bits_t0 (t : TCR) : Z := 64 - t0sz t.
Definition va_bits_t1 (t : TCR) : Z := 64 - t1sz t.
Definition pa_bits (t : TCR) : Z := to_bits (ips t).

Definition starting_level (t : TCR) (for_ttbr1 : bool) : Z :=
  let va_bits := if for_ttbr1 then va_bits_t1 t else va_bits_t0 t in
  if 40 <=? va_bits then 0
  else if 31 <=? va_bits then 1
  else 2.

Record VTCR := { vtcr_t0sz : Z; sl0 : Z; ps : PhysicalAddressSize }.

(** [VTCR(t0sz=..., sl0=...)], the size field at its default. *)
Definition make_VTCR (t0 sl : Z) : VTCR :=
  {| vtcr_t0sz := t0; sl0 := sl; ps := PA_48_BITS |}.

Definition ipa_bits (v : VTCR) : Z := 64 - vtcr_t0sz v.
Definition vtcr_pa_bits (v : VTCR) : Z := to_bits (ps v).
Definition vtcr_starting_level (v : VTCR) : Z := sl0 v.

Record RegisterState := {
  ttbr0_el1 : TTBR;
  ttbr1_el1 : TTBR;
  vttbr_el2 : TTBR;
  tcr_el1 : TCR;
  vtcr_el2 : VTCR
}.

Definition default : RegisterState := {|
  ttbr0_el1 := {| ttbr_value := 0x0000000040000000 |};
  ttbr1_el1 := {| ttbr_value := 0x0000000080000000 |};
  vttbr_el2 := {| ttbr_value := 0x0000000100000000 |};
  tcr_el1 := make_TCR 16 16;
  vtcr_el2 := make_VTCR 16 0
|}.

Definition get_stage1_table_base (rs : RegisterState) (uses_ttbr1 : bool) : Z :=
  baddr (if uses_ttbr1 then ttbr1_el1 rs else ttbr0_el1 rs).

Definition get_stage2_table_base (rs : RegisterState) : Z :=
  baddr (vttbr_el2 rs).

End Registers.

(** ** Texts attached to events *)

Module Text.

Inductive LeafText := Block_1GB | Block_2MB | Page_4KB.

(** The [description] of a walker event, by template:
    "Stage {s} Level {l} lookup", "... - INVALID DESCRIPTOR",
    "... - Table → 0x{next:X}", "... - {leaf} → 0x{out:X}",
    "Stage 1 Level {l} - S2 FAULT translating table" and
    "Stage 1 Level {l} - PERMISSION FAULT". *)
Inductive Description :=
  | DescLookup (stage level : Z)
  | DescInvalidDescriptor (stage level : Z)
  | DescTable (stage level next : Z)
  | DescLeaf (stage level : Z) (leaf : LeafText) (out : Z)
  | DescS2FaultTranslatingTable (level : Z)
  | DescPermissionFault (level : Z).

(** The [purpose] of a flattened event:
    "S2 for S1 L{l} table @ IPA 0x{ipa:X}", "S1 L{l} lookup" and
    "Final S2 L{l} for IPA 0x{ipa:X}". *)
Inductive Purpose :=
  | PurposeS2ForS1 (s1_level table_base_ipa : Z)
  | PurposeS1Lookup (s1_level : Z)
  | PurposeFinalS2 (s2_level ipa : Z).

End Text.

(** ** simulator/stage2.py *)

Module Stage2.
Import Text.

Record Stage2WalkEvent := {
  event_id : Z;
  level : Z;
  table_base_pa : Z;
  index : Z;
  descriptor_address : Z;
  descriptor_value : Z;
  descriptor_type : Descriptor.DescriptorType;
  output_address : Z;
  description : Description
}.

Definition with_output (e : Stage2WalkEvent) (out : Z) (d : Description) : Stage2WalkEvent :=
  {| event_id := event_id e; level := level e;
     table_base_pa := table_base_pa e; index := index e;
     descriptor_address := descriptor_address e;
     descriptor_value := descriptor_value e;
     descriptor_type := descriptor_type e;
     output_address := out; description := d |}.

Record Stage2WalkResult := {
  success : bool;
  input_ipa : Address.Addr;
  output_pa : option Address.Addr;
  events : list Stage2WalkEvent;
  fault : option Faults.FaultRecord
}.

(** The walker object; its [event_counter] attribute is threaded through
    [walk] as an argument and a second result. *)
Record Stage2Walker := {
  vttbr_base : Z;
  starting_level : Z;
  translation_tables : gmap Z Z
}.

Definition _read_descriptor (w : Stage2Walker) (address : Z) : Z :=
  default 0 (translation_tables w !! address).

(** What the loop carries from one level to the next. *)
Record LoopState := {
  current_table_pa : Z;
  events_so_far : list Stage2WalkEvent;
  event_counter : Z
}.

Inductive Step :=
  | Continue (st : LoopState)
  | Return (r : Stage2WalkResult) (counter : Z).

(** One iteration of [for level in range(self.starting_level, 4)]. *)
Definition walk_level (w : Stage2Walker) (ipa : Address.Addr) (lvl : Z) (st : LoopState) : Step :=
  let idx := Address.get_index ipa lvl in
  let descriptor_addr :=
    Address.calculate_descriptor_address (current_table_pa st) idx 8 in
  let value := _read_descriptor w descriptor_addr in
  let descriptor := Descriptor.create_descriptor value lvl true in
  let counter := event_counter st + 1 in
  let event :=
    {| event_id := counter; level := lvl;
       table_base_pa := current_table_pa st; index := idx;
       descriptor_address := descriptor_addr;
       descriptor_value := value;
       descriptor_type := Descriptor.descriptor_type descriptor;
       output_address := 0;
       description := DescLookup 2 lvl |} in
  if negb (Descriptor.is_valid descriptor) then
    let event := with_output event 0 (DescInvalidDescriptor 2 lvl) in
    Return
      {| success := false; input_ipa := ipa; output_pa := None;
         events := events_so_far st ++ [event];
         fault := Some
           {| Faults.fault_type := Faults.TRANSLATION_FAULT;
              Faults.stage := 2;
              Faults.level := lvl;
              Faults.address := Address.value ipa;
              Faults.access_type := None;
              Faults.message := Faults.MsgInvalidDescriptor 2 lvl;
              Faults.far_el1 := None;
              Faults.far_el2 := Some (Address.value ipa) |} |}
      counter
  else if Descriptor.is_table descriptor then
    let next := Descriptor.next_table_address descriptor in
    let event := with_output event next (DescTable 2 lvl next) in
    Continue
      {| current_table_pa := next;
         events_so_far := events_so_far st ++ [event];
         event_counter := counter |}
  else if Descriptor.is_page descriptor || Descriptor.is_block descriptor then
    let output_base :=
      if Descriptor.is_block descriptor
      then Descriptor.block_output_address descriptor
      else Descriptor.page_output_address descriptor in
    let '(final_pa, desc_str) :=
      if Descriptor.level descriptor =? 1
      then (Z.lor output_base (Address.l1_block_offset ipa), Block_1GB)
      else if Descriptor.level descriptor =? 2
      then (Z.lor output_base (Address.l2_block_offset ipa), Block_2MB)
      else (Z.lor output_base (Address.page_offset ipa), Page_4KB) in
    let event := with_output event output_base (DescLeaf 2 lvl desc_str final_pa) in
    Return
      {| success := true; input_ipa := ipa;
         output_pa := Some (Address.PhysicalAddress final_pa);
         events := events_so_far st ++ [event];
         fault := None |}
      counter
  else
    (* a valid word that is neither table, block nor page at this level:
       no branch is taken, the event is not recorded *)
    Continue
      {| current_table_pa := current_table_pa st;
         events_so_far := events_so_far st;
         event_counter := counter |}.

(** The result after the loop, when no level returned. *)
Definition walk_exhausted (ipa : Address.Addr) (st : LoopState) : Stage2WalkResult :=
  {| success := false; input_ipa := ipa; output_pa := None;
     events := events_so_far st;
     fault := Some
       {| Faults.fault_type := Faults.TRANSLATION_FAULT;
          Faults.stage := 2;
          Faults.level := 3;
          Faults.address := Address.value ipa;
          Faults.access_type := None;
          Faults.message := Faults.MsgNoPageDescriptor 2;
          Faults.far_el1 := None;
          Faults.far_el2 := None |} |}.

(** The loop from [lvl] on, with [remaining] levels left in the range. *)
Fixpoint walk_from (w : Stage2Walker) (ipa : Address.Addr)
    (remaining : nat) (lvl : Z) (st : LoopState) : Stage2WalkResult * Z :=
  match remaining with
  | O => (walk_exhausted ipa st, event_counter st)
  | S n =>
      match walk_level w ipa lvl st with
      | Return r counter => (r, counter)
      | Continue st' => walk_from w ipa n (lvl + 1) st'
      end
  end.

(** [Stage2Walker.walk]; [access_type] is accepted and not looked at. *)
Definition walk (w : Stage2Walker) (counter : Z) (ipa : Address.Addr)
    (access_type : Faults.AccessType) : Stage2WalkResult * Z :=
  walk_from w ipa (Z.to_nat (4 - starting_level w)) (starting_level w)
    {| current_table_pa := vttbr_base w; events_so_far := []; event_counter := counter |}.

End Stage2.

(** ** simulator/stage1.py *)

Module Stage1.
Import Text.

Record Stage1WalkEvent := {
  event_id : Z;
  level : Z;
  table_base_ipa : Z;
  table_base_pa : Z;
  index : Z;
  descriptor_address_pa : Z;
  descriptor_value : Z;
  descriptor_type : Descriptor.DescriptorType;
  output_address : Z;
  s2_events : list Stage2.Stage2WalkEvent;
  description : Description
}.

Definition with_output (e : Stage1WalkEvent) (out : Z) (d : Description) : Stage1WalkEvent :=
  {| event_id := event_id e; level := level e;
     table_base_ipa := table_base_ipa e; table_base_pa := table_base_pa e;
     index := index e;
     descriptor_address_pa := descriptor_address_pa e;
     descriptor_value := descriptor_value e;
     descriptor_type := descriptor_type e;
     output_address := out;
     s2_events := s2_events e;
     description := d |}.

Record Stage1WalkResult := {
  success : bool;
  input_va : Address.Addr;
  output_ipa : option Address.Addr;
  events : list Stage1WalkEvent;
  fault : option Faults.FaultRecord;
  final_permissions : option Descriptor.AccessPermissions
}.

(** The walker object; its own [event_counter] and that of the stage-2
    walker it shares are threaded through [walk]. *)
Record Stage1Walker := {
  ttbr_base : Z;
  stage2_walker : Stage2.Stage2Walker;
  starting_level : Z;
  translation_tables : gmap Z Z
}.

Definition _read_descriptor (w : Stage1Walker) (address : Z) : Z :=
  default 0 (translation_tables w !! address).

(** What the loop carries from one level to the next. *)
Record LoopState := {
  current_table_ipa : Z;
  uxn_limit : bool;
  pxn_limit : bool;
  ap_limit : Z;
  events_so_far : list Stage1WalkEvent;
  event_counter : Z;
  s2_event_counter : Z
}.

(** A returned result comes with the two counters as the walk leaves
    them. *)
Inductive Step :=
  | Continue (st : LoopState)
  | Return (r : Stage1WalkResult) (counter s2_counter : Z).

(** One iteration of [for level in range(self.starting_level, 4)]. *)
Definition walk_level (w : Stage1Walker) (va : Address.Addr)
    (access : Faults.AccessType) (is_el0 : bool) (lvl : Z) (st : LoopState) : Step :=
  let idx := Address.get_index va lvl in
  let table_ipa := Address.IntermediatePhysicalAddress (current_table_ipa st) in
  let '(s2_result, s2_counter) :=
    Stage2.walk (stage2_walker w) (s2_event_counter st) table_ipa access in
  let counter := event_counter st + 1 in
  if negb (Stage2.success s2_result) then
    let event :=
      {| event_id := counter; level := lvl;
         table_base_ipa := current_table_ipa st; table_base_pa := 0;
         index := idx; descriptor_address_pa := 0; descriptor_value := 0;
         descriptor_type := Descriptor.INVALID; output_address := 0;
         s2_events := Stage2.events s2_result;
         description := DescS2FaultTranslatingTable lvl |} in
    Return
      {| success := false; input_va := va; output_ipa := None;
         events := events_so_far st ++ [event];
         fault := Stage2.fault s2_result;
         final_permissions := None |}
      counter s2_counter
  else
    (* [s2_result.output_pa.value]: a successful stage-2 result always
       carries its output, see [Stage2_walk_success_output] *)
    let table_pa := default 0 (Address.value <$> Stage2.output_pa s2_result) in
    let descriptor_pa := Address.calculate_descriptor_address table_pa idx 8 in
    let value := _read_descriptor w descriptor_pa in
    let descriptor := Descriptor.create_descriptor value lvl false in
    let event :=
      {| event_id := counter; level := lvl;
         table_base_ipa := current_table_ipa st; table_base_pa := table_pa;
         index := idx; descriptor_address_pa := descriptor_pa;
         descriptor_value := value;
         descriptor_type := Descriptor.descriptor_type descriptor;
         output_address := 0;
         s2_events := Stage2.events s2_result;
         description := DescLookup 1 lvl |} in
    if negb (Descriptor.is_valid descriptor) then
      let event := with_output event 0 (DescInvalidDescriptor 1 lvl) in
      Return
        {| success := false; input_va := va; output_ipa := None;
           events := events_so_far st ++ [event];
           fault := Some
             {| Faults.fault_type := Faults.TRANSLATION_FAULT;
                Faults.stage := 1;
                Faults.level := lvl;
                Faults.address := Address.value va;
                Faults.access_type := None;
                Faults.message := Faults.MsgInvalidDescriptor 1 lvl;
                Faults.far_el1 := Some (Address.value va);
                Faults.far_el2 := None |};
           final_permissions := None |}
        counter s2_counter
    else if Descriptor.is_table descriptor then
      let next := Descriptor.next_table_address descriptor in
      let event := with_output event next (DescTable 1 lvl next) in
      Continue
        {| current_table_ipa := next;
           uxn_limit := if Descriptor.uxn_table descriptor then true else uxn_limit st;
           pxn_limit := if Descriptor.pxn_table descriptor then true else pxn_limit st;
           ap_limit :=
             if negb (Descriptor.ap_table descriptor =? 0)
             then Z.max (ap_limit st) (Descriptor.ap_table descriptor)
             else ap_limit st;
           events_so_far := events_so_far st ++ [event];
           event_counter := counter;
           s2_event_counter := s2_counter |}
    else if Descriptor.is_page descriptor || Descriptor.is_block descriptor then
      let output_base :=
        if Descriptor.is_block descriptor
        then Descriptor.block_output_address descriptor
        else Descriptor.page_output_address descriptor in
      let '(final_ipa, desc_str) :=
        if Descriptor.level descriptor =? 1
        then (Z.lor output_base (Address.l1_block_offset va), Block_1GB)
        else if Descriptor.level descriptor =? 2
        then (Z.lor output_base (Address.l2_block_offset va), Block_2MB)
        else (Z.lor output_base (Address.page_offset va), Page_4KB) in
      let final_uxn := Descriptor.uxn descriptor || uxn_limit st in
      let final_pxn := Descriptor.pxn descriptor || pxn_limit st in
      let final_ap := Descriptor.ap descriptor in
      if negb (Faults.check_permission access final_ap final_uxn final_pxn is_el0) then
        let event := with_output event 0 (DescPermissionFault lvl) in
        Return
          {| success := false; input_va := va; output_ipa := None;
             events := events_so_far st ++ [event];
             fault := Some
               {| Faults.fault_type := Faults.PERMISSION_FAULT;
                  Faults.stage := 1;
                  Faults.level := lvl;
                  Faults.address := Address.value va;
                  Faults.access_type := Some access;
                  Faults.message := Faults.MsgDenied access final_ap final_uxn final_pxn;
                  Faults.far_el1 := Some (Address.value va);
                  Faults.far_el2 := None |};
             final_permissions := None |}
          counter s2_counter
      else
        let event := with_output event output_base (DescLeaf 1 lvl desc_str final_ipa) in
        Return
          {| success := true; input_va := va;
             output_ipa := Some (Address.IntermediatePhysicalAddress final_ipa);
             events := events_so_far st ++ [event];
             fault := None;
             final_permissions :=
               Some (Descriptor.from_ap_bits final_ap final_uxn final_pxn) |}
          counter s2_counter
    else
      (* a valid word that is neither table, block nor page at this level:
         no branch is taken, the event is not recorded *)
      Continue
        {| current_table_ipa := current_table_ipa st;
           uxn_limit := uxn_limit st;
           pxn_limit := pxn_limit st;
           ap_limit := ap_limit st;
           events_so_far := events_so_far st;
           event_counter := counter;
           s2_event_counter := s2_counter |}.

(** The result after the loop, when no level returned. *)
Definition walk_exhausted (va : Address.Addr) (st : LoopState) : Stage1WalkResult :=
  {| success := false; input_va := va; output_ipa := None;
     events := events_so_far st;
     fault := Some
       {| Faults.fault_type := Faults.TRANSLATION_FAULT;
          Faults.stage := 1;
          Faults.level := 3;
          Faults.address := Address.value va;
          Faults.access_type := None;
          Faults.message := Faults.MsgNoPageDescriptor 1;
          Faults.far_el1 := None;
          Faults.far_el2 := None |};
     final_permissions := None |}.

(** The loop from [lvl] on, with [remaining] levels left in the range. *)
Fixpoint walk_from (w : Stage1Walker) (va : Address.Addr)
    (access : Faults.AccessType) (is_el0 : bool)
    (remaining : nat) (lvl : Z) (st : LoopState) : Stage1WalkResult * Z * Z :=
  match remaining with
  | O => (walk_exhausted va st, event_counter st, s2_event_counter st)
  | S n =>
      match walk_level w va access is_el0 lvl st with
      | Return r counter s2_counter => (r, counter, s2_counter)
      | Continue st' => walk_from w va access is_el0 n (lvl + 1) st'
      end
  end.

Definition initial_state (w : Stage1Walker) (counter s2_counter : Z) : LoopState :=
  {| current_table_ipa := ttbr_base w;
     uxn_limit := false; pxn_limit := false; ap_limit := 0;
     events_so_far := [];
     event_counter := counter; s2_event_counter := s2_counter |}.

(** [Stage1Walker.walk] *)
Definition walk (w : Stage1Walker) (counter s2_counter : Z) (va : Address.Addr)
    (access : Faults.AccessType) (is_el0 : bool) : Stage1WalkResult * Z * Z :=
  walk_from w va access is_el0
    (Z.to_nat (4 - starting_level w)) (starting_level w)
    (initial_state w counter s2_counter).

End Stage1.

(** ** simulator/walker.py *)

Module Walker.
Import Text.

Inductive WalkStatus := SUCCESS | S1_FAULT | S2_FAULT | S2_FINAL_FAULT.

(** ['T'] for a translation read, ['M'] for a memory access. *)
Inductive EventType := T | M.

Record WalkEvent := {
  event_id : Z;
  event_type : EventType;
  stage : Z;
  level : Z;
  purpose : Purpose;
  address : Z;
  descriptor_value : Z;
  result : Descriptor.DescriptorType;
  output : Z
}.

(** The register snapshots, with the addresses as numbers where the source
    stores their hexadecimal text. *)
Inductive Snapshot :=
  | SnapStart (va ttbr0_el1 ttbr1_el1 vttbr_el2 : Z)
  | SnapAfterS1 (va : Z) (ipa : option Z)
  | SnapComplete (va ipa : Z) (pa : option Z).

Record WalkResult := {
  status : WalkStatus;
  input_va : Address.Addr;
  output_pa : option Address.Addr;
  ipa : option Address.Addr;
  events : list WalkEvent;
  s1_result : option Stage1.Stage1WalkResult;
  s2_final_result : option Stage2.Stage2WalkResult;
  total_memory_accesses : Z;
  fault : option Faults.FaultRecord;
  final_permissions : option Descriptor.AccessPermissions;
  final_attributes : option Descriptor.MemoryAttributes;
  register_snapshots : list Snapshot
}.

Record PageTableWalker := {
  register_state : Registers.RegisterState;
  s1_tables : gmap Z Z;
  s2_tables : gmap Z Z
}.

(** The stage-2 walker that [__init__] builds and keeps. *)
Definition stage2_walker (p : PageTableWalker) : Stage2.Stage2Walker :=
  {| Stage2.vttbr_base := Registers.get_stage2_table_base (register_state p);
     Stage2.starting_level :=
       Registers.vtcr_starting_level (Registers.vtcr_el2 (register_state p));
     Stage2.translation_tables := s2_tables p |}.

(** The flattening loops carry the global list and [event_counter]. *)
Definition add_nested_event (s1_event : Stage1.Stage1WalkEvent)
    (acc : list WalkEvent * Z) (s2_event : Stage2.Stage2WalkEvent) : list WalkEvent * Z :=
  let counter := snd acc + 1 in
  (fst acc ++
     [{| event_id := counter; event_type := T; stage := 2;
         level := Stage2.level s2_event;
         purpose := PurposeS2ForS1 (Stage1.level s1_event) (Stage1.table_base_ipa s1_event);
         address := Stage2.descriptor_address s2_event;
         descriptor_value := Stage2.descriptor_value s2_event;
         result := Stage2.descriptor_type s2_event;
         output := Stage2.output_address s2_event |}],
   counter).

Definition add_s1_event (acc : list WalkEvent * Z)
    (s1_event : Stage1.Stage1WalkEvent) : list WalkEvent * Z :=
  let acc := fold_left (add_nested_event s1_event) (Stage1.s2_events s1_event) acc in
  let counter := snd acc + 1 in
  (fst acc ++
     [{| event_id := counter; event_type := T; stage := 1;
         level := Stage1.level s1_event;
         purpose := PurposeS1Lookup (Stage1.level s1_event);
         address := Stage1.descriptor_address_pa s1_event;
         descriptor_value := Stage1.descriptor_value s1_event;
         result := Stage1.descriptor_type s1_event;
         output := Stage1.output_address s1_event |}],
   counter).

Definition add_final_event (ipa_value : Z)
    (acc : list WalkEvent * Z) (s2_event : Stage2.Stage2WalkEvent) : list WalkEvent * Z :=
  let counter := snd acc + 1 in
  (fst acc ++
     [{| event_id := counter; event_type := T; stage := 2;
         level := Stage2.level s2_event;
         purpose := PurposeFinalS2 (Stage2.level s2_event) ipa_value;
         address := Stage2.descriptor_address s2_event;
         descriptor_value := Stage2.descriptor_value s2_event;
         result := Stage2.descriptor_type s2_event;
         output := Stage2.output_address s2_event |}],
   counter).

(** The stage-1 walker that [walk] builds for the address at hand. *)
Definition stage1_walker (p : PageTableWalker) (va : Address.Addr) : Stage1.Stage1Walker :=
  let rs := register_state p in
  let uses_ttbr1 := Address.uses_ttbr1 va in
  let ttbr_base := Registers.get_stage1_table_base rs uses_ttbr1 in
  {| Stage1.ttbr_base := ttbr_base;
     Stage1.stage2_walker := stage2_walker p;
     Stage1.starting_level := Registers.starting_level (Registers.tcr_el1 rs) uses_ttbr1;
     Stage1.translation_tables := s1_tables p |}.

(** [PageTableWalker.walk] *)
Definition walk (p : PageTableWalker) (va : Address.Addr)
    (access : Faults.AccessType) (is_el0 : bool) : WalkResult :=
  let rs := register_state p in
  let snapshots :=
    [SnapStart (Address.value va)
       (Registers.ttbr_value (Registers.ttbr0_el1 rs))
       (Registers.ttbr_value (Registers.ttbr1_el1 rs))
       (Registers.ttbr_value (Registers.vttbr_el2 rs))] in
  let stage1_walker := stage1_walker p va in
  (* both event counters are reset to 0 *)
  let '(s1, _, _) := Stage1.walk stage1_walker 0 0 va access is_el0 in
  let '(events, event_counter) := fold_left add_s1_event (Stage1.events s1) ([], 0) in
  if negb (Stage1.success s1) then
    {| status := S1_FAULT; input_va := va;
       output_pa := None; ipa := None;
       events := events;
       s1_result := Some s1; s2_final_result := None;
       total_memory_accesses := event_counter;
       fault := Stage1.fault s1;
       final_permissions := None;
       final_attributes := None;
       register_snapshots := snapshots |}
  else
    match Stage1.output_ipa s1 with
    | None =>
        (* [self.stage2_walker.walk(None, ...)] raises; a successful stage-1
           result always carries its output, see [Stage1_walk_success_output] *)
        {| status := S1_FAULT; input_va := va;
           output_pa := None; ipa := None;
           events := events;
           s1_result := Some s1; s2_final_result := None;
           total_memory_accesses := event_counter;
           fault := Stage1.fault s1;
           final_permissions := None;
           final_attributes := None;
           register_snapshots := snapshots |}
    | Some ipa =>
        let snapshots :=
          snapshots ++ [SnapAfterS1 (Address.value va) (Some (Address.value ipa))] in
        (* [set_event_counter(event_counter)] *)
        let '(s2, _) := Stage2.walk (stage2_walker p) event_counter ipa access in
        let '(events, event_counter) :=
          fold_left (add_final_event (Address.value ipa)) (Stage2.events s2)
            (events, event_counter) in
        if negb (Stage2.success s2) then
          {| status := S2_FINAL_FAULT; input_va := va;
             output_pa := None; ipa := Some ipa;
             events := events;
             s1_result := Some s1; s2_final_result := Some s2;
             total_memory_accesses := event_counter;
             fault := Stage2.fault s2;
             final_permissions := Stage1.final_permissions s1;
             final_attributes := None;
             register_snapshots := snapshots |}
        else
          let pa := Stage2.output_pa s2 in
          let snapshots :=
            snapshots ++
              [SnapComplete (Address.value va) (Address.value ipa)
                 (Address.value <$> pa)] in
          {| status := SUCCESS; input_va := va;
             output_pa := pa; ipa := Some ipa;
             events := events;
             s1_result := Some s1; s2_final_result := Some s2;
             total_memory_accesses := event_counter;
             fault := None;
             final_permissions := Stage1.final_permissions s1;
             final_attributes := None;
             register_snapshots := snapshots |}
    end.

End Walker.

(** ** Scenarios

    The tables of the end-to-end scenarios: 4 KB granule, 48-bit VA and
    IPA, the default registers, stage-2 tables that map every intermediate
    address onto itself with level-3 pages. *)

Module Scenario.

Definition table := Descriptor.build_table_descriptor.

Definition page (out ap : Z) : Z :=
  Descriptor.build_page_descriptor out ap false false true
    Descriptor.INNER_SHAREABLE 0.

Definition walker_of (s1 s2 : gmap Z Z) : Walker.PageTableWalker :=
  {| Walker.register_state := Registers.default;
     Walker.s1_tables := s1;
     Walker.s2_tables := s2 |}.

Definition va_of (v : Z) : Address.Addr :=
  {| Address.value := v; Address.bits := 48;
     Address.granule := Granule.GRANULE_4KB |}.

(** Stage-2 tables rooted at [VTTBR_EL2 = 0x1_0000_0000]. *)
Definition stage2_identity : gmap Z Z :=
  list_to_map
    [ (0x100000000, table 0x100001000);            (* L0[0] *)
      (0x100001000, table 0x100002000);            (* L1[0] *)
      (0x100001008, table 0x100003000);            (* L1[1] *)
      (0x100002100, table 0x100004000);            (* L2[32] under L1[0] *)
      (0x100003000, table 0x100005000);            (* L2[0] under L1[1] *)
      (0x100003400, table 0x100006000);            (* L2[128] under L1[1] *)
      (0x100004008, page 0x4001000 3);             (* IPA 0x4001000 *)
      (0x100004010, page 0x4002000 3);             (* IPA 0x4002000 *)
      (0x100004018, page 0x4003000 3);             (* IPA 0x4003000 *)
      (0x100005000, page 0x40000000 3);            (* IPA 0x4000_0000 *)
      (0x100006000, page 0x50000000 3) ].          (* IPA 0x5000_0000 *)

(** Stage-2 tables without the page of the L1 stage-1 table at
    [IPA 0x4002000]. *)
Definition stage2_without_l1_table : gmap Z Z :=
  delete 0x100004010 stage2_identity.

(** Stage-2 tables without the page of the final address
    [IPA 0x5000_0000]. *)
Definition stage2_without_final : gmap Z Z :=
  delete 0x100006000 stage2_identity.

(** Stage-1 tables of the happy path, rooted at [TTBR0_EL1 = 0x4000_0000]:
    TABLE at L0, L1 and L2, PAGE at L3 with [AP = 0b01]. *)
Definition stage1_happy : gmap Z Z :=
  list_to_map
    [ (0x40000000, table 0x4001000);
      (0x4001008, table 0x4002000);
      (0x4002008, table 0x4003000);
      (0x4003008, page 0x50000000 1) ].

(** The same with [AP = 0b10] on the level-3 page. *)
Definition stage1_read_only : gmap Z Z :=
  <[0x4003008 := page 0x50000000 2]> stage1_happy.

(** The same without the L2 descriptor. *)
Definition stage1_without_l2 : gmap Z Z :=
  delete 0x4002008 stage1_happy.

(** A 2 MB block at L2 with output address [0x8000_0000], [AP = 0b01] and
    the access flag set. *)
Definition stage1_block : gmap Z Z :=
  list_to_map
    [ (0x40000000, table 0x4001000);
      (0x4001008, table 0x4002000);
      (0x4002008, 0x0000000080000441) ].

(** A table descriptor with hierarchical limits: APTable in bits [62:61],
    UXNTable in bit 60 and PXNTable in bit 59. *)
Definition limited_table (next ap_table : Z) (uxn_table pxn_table : bool) : Z :=
  Z.lor (table next)
    (Z.lor (Z.shiftl ap_table 61)
       (Z.lor (Z.shiftl (if uxn_table then 1 else 0) 60)
          (Z.shiftl (if pxn_table then 1 else 0) 59))).

(** The happy path with limits on its tables: UXNTable and [APTable = 0b11]
    on the L1 entry, PXNTable on the L2 entry; the page keeps [AP = 0b01]
    and clear UXN and PXN. *)
Definition stage1_limited : gmap Z Z :=
  <[0x4001008 := limited_table 0x4002000 3 true false]>
    (<[0x4002008 := limited_table 0x4003000 0 false true]> stage1_happy).

(** The identity stage-2 tables with the page of [IPA 0x5000_0000]
    rewritten to [S2AP = 0b00] (no access) and [XN = 1]. *)
Definition stage2_no_access : gmap Z Z :=
  <[0x100006000 := Z.lor (page 0x50000000 0) (Z.shiftl 1 54)]> stage2_identity.

Definition happy_walker : Walker.PageTableWalker :=
  walker_of stage1_happy stage2_identity.

Definition happy_va : Address.Addr := va_of 0x0000000040201030.

(** The state in which the stage-1 loop enters a level when the table of
    that level is at [table_ipa] and nothing was recorded before. *)
Definition entering (table_ipa : Z) : Stage1.LoopState :=
  {| Stage1.current_table_ipa := table_ipa;
     Stage1.uxn_limit := false; Stage1.pxn_limit := false; Stage1.ap_limit := 0;
     Stage1.events_so_far := [];
     Stage1.event_counter := 0; Stage1.s2_event_counter := 0 |}.

(** The same for the stage-2 loop and a table at [table_pa]. *)
Definition entering_stage2 (table_pa : Z) : Stage2.LoopState :=
  {| Stage2.current_table_pa := table_pa;
     Stage2.events_so_far := [];
     Stage2.event_counter := 0 |}.

(** The walkers of the scenarios. *)
Definition read_only_stage1 : Stage1.Stage1Walker :=
  Walker.stage1_walker (walker_of stage1_read_only stage2_identity) happy_va.

Definition without_l2_stage1 : Stage1.Stage1Walker :=
  Walker.stage1_walker (walker_of stage1_without_l2 stage2_identity) happy_va.

Definition without_l1_table_stage2 : Stage2.Stage2Walker :=
  Walker.stage2_walker (walker_of stage1_happy stage2_without_l1_table).

Definition limited_stage1 : Stage1.Stage1Walker :=
  Walker.stage1_walker (walker_of stage1_limited stage2_identity) happy_va.

Definition identity_stage2 : Stage2.Stage2Walker :=
  Walker.stage2_walker happy_walker.

Definition no_access_stage2 : Stage2.Stage2Walker :=
  Walker.stage2_walker (walker_of stage1_happy stage2_no_access).

End Scenario.

(** * Vocabulary of the properties *)

(** ** Results *)

(** The shape of a stage-2 result: success comes with an output and no
    fault, failure with a translation fault of stage 2 and no output. *)
Definition Stage2_result_ok (r : Stage2.Stage2WalkResult) : Prop :=
  if Stage2.success r
  then is_Some (Stage2.output_pa r) /\ Stage2.fault r = None
  else Stage2.output_pa r = None
       /\ exists f, Stage2.fault r = Some f
            /\ Faults.fault_type f = Faults.TRANSLATION_FAULT
            /\ Faults.stage f = 2.

(** The descriptor that a recorded stage-1 event stands for. *)
Definition Stage1_desc (e : Stage1.Stage1WalkEvent) : Descriptor.Descriptor :=
  Descriptor.create_descriptor (Stage1.descriptor_value e) (Stage1.level e) false.

Definition Stage1_is_table (e : Stage1.Stage1WalkEvent) : Prop :=
  Stage1.descriptor_type e = Descriptor.TABLE.

Definition Stage1_is_leaf (e : Stage1.Stage1WalkEvent) : Prop :=
  Stage1.descriptor_type e = Descriptor.BLOCK \/
  Stage1.descriptor_type e = Descriptor.PAGE.

(** The shape of a stage-1 result.  Success comes with an address,
    permissions and no fault.  Failure comes with neither and with a fault
    that is a translation fault, or a permission fault of stage 1 raised at
    the leaf that the last event records. *)
Definition Stage1_result_ok (r : Stage1.Stage1WalkResult) : Prop :=
  if Stage1.success r
  then is_Some (Stage1.output_ipa r)
       /\ is_Some (Stage1.final_permissions r)
       /\ Stage1.fault r = None
  else Stage1.output_ipa r = None
       /\ Stage1.final_permissions r = None
       /\ exists f, Stage1.fault r = Some f
            /\ (Faults.fault_type f = Faults.TRANSLATION_FAULT
                \/ (Faults.fault_type f = Faults.PERMISSION_FAULT
                    /\ Faults.stage f = 1
                    /\ exists e, last (Stage1.events r) = Some e
                         /\ Stage1.level e = Faults.level f
                         /\ Stage1_is_leaf e)).

(** ** The stage-1 loop *)

(** The nested stage-2 walk that the loop runs from state [st]. *)
Definition Stage1_nested (w : Stage1.Stage1Walker) (access : Faults.AccessType)
    (st : Stage1.LoopState) : Stage2.Stage2WalkResult :=
  (Stage2.walk (Stage1.stage2_walker w) (Stage1.s2_event_counter st)
     (Address.IntermediatePhysicalAddress (Stage1.current_table_ipa st)) access).1.

(** The address and the descriptor that the loop fetches at level [lvl]
    from state [st], when the nested stage-2 walk has translated the table
    address. *)
Definition Stage1_fetch (w : Stage1.Stage1Walker) (va : Address.Addr)
    (access : Faults.AccessType) (lvl : Z) (st : Stage1.LoopState)
    : option (Z * Descriptor.Descriptor) :=
  let s2 := Stage1_nested w access st in
  if Stage2.success s2 then
    let table_pa := default 0 (Address.value <$> Stage2.output_pa s2) in
    let pa := Address.calculate_descriptor_address table_pa (Address.get_index va lvl) 8 in
    Some (pa, Descriptor.create_descriptor (Stage1._read_descriptor w pa) lvl false)
  else None.

(** The number of nested stage-2 events of a stage-1 event is at most [k]. *)
Definition Stage1_nested_bound (k : nat) (e : Stage1.Stage1WalkEvent) : Prop :=
  (length (Stage1.s2_events e) <= k)%nat.

(** The address that a leaf descriptor and the input address give:
    the output base joined with the offset of the level. *)
Definition leaf_address (a : Address.Addr) (d : Descriptor.Descriptor) : Z :=
  Z.lor
    (if Descriptor.is_block d
     then Descriptor.block_output_address d
     else Descriptor.page_output_address d)
    (if Descriptor.level d =? 1 then Address.l1_block_offset a
     else if Descriptor.level d =? 2 then Address.l2_block_offset a
     else Address.page_offset a).

(** The limits that the table descriptors of a list of events impose. *)
Definition uxn_limit_of (tables : list Stage1.Stage1WalkEvent) : bool :=
  existsb (fun e => Descriptor.uxn_table (Stage1_desc e)) tables.

Definition pxn_limit_of (tables : list Stage1.Stage1WalkEvent) : bool :=
  existsb (fun e => Descriptor.pxn_table (Stage1_desc e)) tables.

(** What a successful stage-1 result [r] is made of, when the leaf was
    found at a level entered with the events [tables] and the limits
    [uxn_limit] and [pxn_limit]: the leaf is the last event, and the address
    and the permissions are computed from its descriptor and the limits. *)
Definition Stage1_leaf_result (va : Address.Addr) (access : Faults.AccessType)
    (is_el0 : bool) (tables : list Stage1.Stage1WalkEvent) (uxn_limit pxn_limit : bool)
    (r : Stage1.Stage1WalkResult) (leaf : Stage1.Stage1WalkEvent) : Prop :=
  let d := Stage1_desc leaf in
  let final_uxn := Descriptor.uxn d || uxn_limit in
  let final_pxn := Descriptor.pxn d || pxn_limit in
  Stage1.events r = tables ++ [leaf]
  /\ Stage1.descriptor_type leaf = Descriptor.descriptor_type d
  /\ Stage1_is_leaf leaf
  /\ Stage1.output_ipa r =
       Some (Address.IntermediatePhysicalAddress (leaf_address va d))
  /\ Stage1.final_permissions r =
       Some (Descriptor.from_ap_bits (Descriptor.ap d) final_uxn final_pxn)
  /\ Faults.check_permission access (Descriptor.ap d) final_uxn final_pxn is_el0 = true.

(** Between two levels the recorded events are table descriptors, and the
    execute-never limits are the disjunctions of their limit bits. *)
Definition Stage1_limits_inv (st : Stage1.LoopState) : Prop :=
  Forall Stage1_is_table (Stage1.events_so_far st)
  /\ Stage1.uxn_limit st = uxn_limit_of (Stage1.events_so_far st)
  /\ Stage1.pxn_limit st = pxn_limit_of (Stage1.events_so_far st).

(** Two loop states that differ in [ap_limit] at most. *)
Definition same_but_ap_limit (a b : Stage1.LoopState) : Prop :=
  Stage1.current_table_ipa a = Stage1.current_table_ipa b
  /\ Stage1.uxn_limit a = Stage1.uxn_limit b
  /\ Stage1.pxn_limit a = Stage1.pxn_limit b
  /\ Stage1.events_so_far a = Stage1.events_so_far b
  /\ Stage1.event_counter a = Stage1.event_counter b
  /\ Stage1.s2_event_counter a = Stage1.s2_event_counter b.

(** ** Fault records *)

(** The stage-2 fault record of an invalid descriptor at level [lvl]. *)
Definition Stage2_translation_fault (ipa : Address.Addr) (lvl : Z) : Faults.FaultRecord :=
  {| Faults.fault_type := Faults.TRANSLATION_FAULT;
     Faults.stage := 2;
     Faults.level := lvl;
     Faults.address := Address.value ipa;
     Faults.access_type := None;
     Faults.message := Faults.MsgInvalidDescriptor 2 lvl;
     Faults.far_el1 := None;
     Faults.far_el2 := Some (Address.value ipa) |}.

(** The stage-1 fault record of an invalid descriptor at level [lvl]. *)
Definition Stage1_translation_fault (va : Address.Addr) (lvl : Z) : Faults.FaultRecord :=
  {| Faults.fault_type := Faults.TRANSLATION_FAULT;
     Faults.stage := 1;
     Faults.level := lvl;
     Faults.address := Address.value va;
     Faults.access_type := None;
     Faults.message := Faults.MsgInvalidDescriptor 1 lvl;
     Faults.far_el1 := Some (Address.value va);
     Faults.far_el2 := None |}.

(** The stage-1 fault record of a denied access at level [lvl]. *)
Definition Stage1_permission_fault (va : Address.Addr) (lvl : Z)
    (access : Faults.AccessType) (ap : Z) (uxn pxn : bool) : Faults.FaultRecord :=
  {| Faults.fault_type := Faults.PERMISSION_FAULT;
     Faults.stage := 1;
     Faults.level := lvl;
     Faults.address := Address.value va;
     Faults.access_type := Some access;
     Faults.message := Faults.MsgDenied access ap uxn pxn;
     Faults.far_el1 := Some (Address.value va);
     Faults.far_el2 := None |}.

(** ** The flattened trace *)

(** A trace under construction is numbered when its events carry the
    identifiers 1, 2, ... in order and the counter is their number. *)
Definition numbered (acc : list Walker.WalkEvent * Z) : Prop :=
  map Walker.event_id acc.1 = map Z.of_nat (seq 1 (length acc.1))
  /\ acc.2 = Z.of_nat (length acc.1).

(** ** Stage-2 permission bits *)

(** The bits of a stage-2 descriptor word that hold its permissions: S2AP
    in bits [7:6] and XN in bit 54. *)
Definition s2_permission_bits : Z := Z.lor (Z.shiftl 3 6) (Z.shiftl 1 54).

(** Two words that differ in their stage-2 permission bits at most. *)
Definition same_but_s2_permissions (v v' : Z) : Prop :=
  Z.ldiff v s2_permission_bits = Z.ldiff v' s2_permission_bits.

(** Two stage-2 walkers with the same root and starting level whose tables
    hold, at every address, words that differ in the permission bits at
    most. *)
Definition Stage2_same_but_permissions (w w' : Stage2.Stage2Walker) : Prop :=
  Stage2.vttbr_base w = Stage2.vttbr_base w'
  /\ Stage2.starting_level w = Stage2.starting_level w'
  /\ forall a, same_but_s2_permissions
                 (Stage2._read_descriptor w a) (Stage2._read_descriptor w' a).

(** Two stage-2 events that differ in the permission bits of the recorded
    word at most. *)
Definition Stage2_event_same (e e' : Stage2.Stage2WalkEvent) : Prop :=
  Stage2.event_id e = Stage2.event_id e'
  /\ Stage2.level e = Stage2.level e'
  /\ Stage2.table_base_pa e = Stage2.table_base_pa e'
  /\ Stage2.index e = Stage2.index e'
  /\ Stage2.descriptor_address e = Stage2.descriptor_address e'
  /\ same_but_s2_permissions (Stage2.descriptor_value e) (Stage2.descriptor_value e')
  /\ Stage2.descriptor_type e = Stage2.descriptor_type e'
  /\ Stage2.output_address e = Stage2.output_address e'
  /\ Stage2.description e = Stage2.description e'.

Definition Stage2_result_same (r r' : Stage2.Stage2WalkResult) : Prop :=
  Stage2.success r = Stage2.success r'
  /\ Stage2.input_ipa r = Stage2.input_ipa r'
  /\ Stage2.output_pa r = Stage2.output_pa r'
  /\ Stage2.fault r = Stage2.fault r'
  /\ Forall2 Stage2_event_same (Stage2.events r) (Stage2.events r').

Definition Stage2_state_same (st st' : Stage2.LoopState) : Prop :=
  Stage2.current_table_pa st = Stage2.current_table_pa st'
  /\ Stage2.event_counter st = Stage2.event_counter st'
  /\ Forall2 Stage2_event_same (Stage2.events_so_far st) (Stage2.events_so_far st').

(** ** The chain of lookups *)

(** The descriptor that a recorded stage-2 event stands for. *)
Definition Stage2_desc (e : Stage2.Stage2WalkEvent) : Descriptor.Descriptor :=
  Descriptor.create_descriptor (Stage2.descriptor_value e) (Stage2.level e) true.

(** What a stage-2 event records of the lookup in the table at [base]: the
    table, the index that the address gives at the level, the address of the
    entry, the word that the tables hold there and its classification. *)
Definition Stage2_lookup (w : Stage2.Stage2Walker) (ipa : Address.Addr)
    (base : Z) (e : Stage2.Stage2WalkEvent) : Prop :=
  Stage2.table_base_pa e = base
  /\ Stage2.index e = Address.get_index ipa (Stage2.level e)
  /\ Stage2.descriptor_address e =
       Address.calculate_descriptor_address base (Stage2.index e) 8
  /\ Stage2.descriptor_value e = Stage2._read_descriptor w (Stage2.descriptor_address e)
  /\ Stage2.descriptor_type e = Descriptor.descriptor_type (Stage2_desc e).

(** An event that hands the walk over to the next table. *)
Definition Stage2_link (e : Stage2.Stage2WalkEvent) : Prop :=
  Stage2.descriptor_type e = Descriptor.TABLE
  /\ Stage2.output_address e = Descriptor.next_table_address (Stage2_desc e).

(** A list of events is a chain from the table at [base]: each event is
    a lookup in the table that its predecessor points to, at a deeper
    level, and every event but the last is a table descriptor. *)
Fixpoint Stage2_chain (w : Stage2.Stage2Walker) (ipa : Address.Addr)
    (base : Z) (evs : list Stage2.Stage2WalkEvent) : Prop :=
  match evs with
  | [] => True
  | e :: rest =>
      Stage2_lookup w ipa base e
      /\ match rest with
         | [] => True
         | e' :: _ => Stage2_link e /\ Stage2.level e < Stage2.level e'
         end
      /\ Stage2_chain w ipa (Stage2.output_address e) rest
  end.

(** The table that a chain from [base] has reached. *)
Definition Stage2_chain_end (base : Z) (evs : list Stage2.Stage2WalkEvent) : Z :=
  default base (Stage2.output_address <$> last evs).

(** Between two levels: the events so far are a chain of table
    descriptors above level [lvl] that has reached the current table. *)
Definition Stage2_chain_inv (w : Stage2.Stage2Walker) (ipa : Address.Addr)
    (lvl : Z) (st : Stage2.LoopState) : Prop :=
  Stage2_chain w ipa (Stage2.vttbr_base w) (Stage2.events_so_far st)
  /\ Forall (fun e => Stage2_link e
                      /\ Stage2.starting_level w <= Stage2.level e < lvl)
       (Stage2.events_so_far st)
  /\ Stage2.current_table_pa st =
       Stage2_chain_end (Stage2.vttbr_base w) (Stage2.events_so_far st).

(** What a stage-1 event records of the lookup in the table at the
    intermediate address [base]: the nested stage-2 walk for [base] and,
    when that walk succeeds, the entry read at the address it gives;
    otherwise an empty entry. *)
Definition Stage1_lookup (w : Stage1.Stage1Walker) (va : Address.Addr)
    (access : Faults.AccessType) (base : Z) (e : Stage1.Stage1WalkEvent) : Prop :=
  Stage1.table_base_ipa e = base
  /\ Stage1.index e = Address.get_index va (Stage1.level e)
  /\ exists counter,
       let s2 := (Stage2.walk (Stage1.stage2_walker w) counter
                    (Address.IntermediatePhysicalAddress base) access).1 in
       Stage1.s2_events e = Stage2.events s2
       /\ if Stage2.success s2
          then Stage2.output_pa s2 = Some (Address.PhysicalAddress (Stage1.table_base_pa e))
               /\ Stage1.descriptor_address_pa e =
                    Address.calculate_descriptor_address
                      (Stage1.table_base_pa e) (Stage1.index e) 8
               /\ Stage1.descriptor_value e =
                    Stage1._read_descriptor w (Stage1.descriptor_address_pa e)
               /\ Stage1.descriptor_type e = Descriptor.descriptor_type (Stage1_desc e)
          else Stage1.table_base_pa e = 0
               /\ Stage1.descriptor_address_pa e = 0
               /\ Stage1.descriptor_value e = 0
               /\ Stage1.descriptor_type e = Descriptor.INVALID.

Definition Stage1_link (e : Stage1.Stage1WalkEvent) : Prop :=
  Stage1.descriptor_type e = Descriptor.TABLE
  /\ Stage1.output_address e = Descriptor.next_table_address (Stage1_desc e).

Fixpoint Stage1_chain (w : Stage1.Stage1Walker) (va : Address.Addr)
    (access : Faults.AccessType) (base : Z) (evs : list Stage1.Stage1WalkEvent) : Prop :=
  match evs with
  | [] => True
  | e :: rest =>
      Stage1_lookup w va access base e
      /\ match rest with
         | [] => True
         | e' :: _ => Stage1_link e /\ Stage1.level e < Stage1.level e'
         end
      /\ Stage1_chain w va access (Stage1.output_address e) rest
  end.

Definition Stage1_chain_end (base : Z) (evs : list Stage1.Stage1WalkEvent) : Z :=
  default base (Stage1.output_address <$> last evs).

Definition Stage1_chain_inv (w : Stage1.Stage1Walker) (va : Address.Addr)
    (access : Faults.AccessType) (lvl : Z) (st : Stage1.LoopState) : Prop :=
  Stage1_chain w va access (Stage1.ttbr_base w) (Stage1.events_so_far st)
  /\ Forall (fun e => Stage1_link e
                      /\ Stage1.starting_level w <= Stage1.level e < lvl)
       (Stage1.events_so_far st)
  /\ Stage1.current_table_ipa st =
       Stage1_chain_end (Stage1.ttbr_base w) (Stage1.events_so_far st).

(** What a successful stage-2 result [r] is made of, when the leaf was
    found at a level entered with the events [tables]. *)
Definition Stage2_leaf_result (ipa : Address.Addr)
    (tables : list Stage2.Stage2WalkEvent)
    (r : Stage2.Stage2WalkResult) (leaf : Stage2.Stage2WalkEvent) : Prop :=
  let d := Stage2_desc leaf in
  Stage2.events r = tables ++ [leaf]
  /\ (Stage2.descriptor_type leaf = Descriptor.BLOCK
      \/ Stage2.descriptor_type leaf = Descriptor.PAGE)
  /\ Stage2.output_address leaf =
       (if Descriptor.is_block d
        then Descriptor.block_output_address d
        else Descriptor.page_output_address d)
  /\ Stage2.output_pa r = Some (Address.PhysicalAddress (leaf_address ipa d)).

(** ** Permissions *)

(** The field of the permissions that decides an access. *)
Definition permits (p : Descriptor.AccessPermissions)
    (access : Faults.AccessType) (is_el0 : bool) : bool :=
  match access, is_el0 with
  | Faults.READ, true => Descriptor.read_el0 p
  | Faults.READ, false => Descriptor.read_el1 p
  | Faults.WRITE, true => Descriptor.write_el0 p
  | Faults.WRITE, false => Descriptor.write_el1 p
  | Faults.EXECUTE, true => Descriptor.execute_el0 p
  | Faults.EXECUTE, false => Descriptor.execute_el1 p
  end.

(** ** The order of the trace *)

(** The global events that one stage-1 event contributes: its nested
    stage-2 events, then the event itself.  Identifiers are left at 0. *)
Definition nested_trace_event (s1_event : Stage1.Stage1WalkEvent)
    (s2_event : Stage2.Stage2WalkEvent) : Walker.WalkEvent :=
  {| Walker.event_id := 0; Walker.event_type := Walker.T; Walker.stage := 2;
     Walker.level := Stage2.level s2_event;
     Walker.purpose :=
       Text.PurposeS2ForS1 (Stage1.level s1_event) (Stage1.table_base_ipa s1_event);
     Walker.address := Stage2.descriptor_address s2_event;
     Walker.descriptor_value := Stage2.descriptor_value s2_event;
     Walker.result := Stage2.descriptor_type s2_event;
     Walker.output := Stage2.output_address s2_event |}.

Definition stage1_trace_event (s1_event : Stage1.Stage1WalkEvent) : Walker.WalkEvent :=
  {| Walker.event_id := 0; Walker.event_type := Walker.T; Walker.stage := 1;
     Walker.level := Stage1.level s1_event;
     Walker.purpose := Text.PurposeS1Lookup (Stage1.level s1_event);
     Walker.address := Stage1.descriptor_address_pa s1_event;
     Walker.descriptor_value := Stage1.descriptor_value s1_event;
     Walker.result := Stage1.descriptor_type s1_event;
     Walker.output := Stage1.output_address s1_event |}.

Definition final_trace_event (ipa_value : Z)
    (s2_event : Stage2.Stage2WalkEvent) : Walker.WalkEvent :=
  {| Walker.event_id := 0; Walker.event_type := Walker.T; Walker.stage := 2;
     Walker.level := Stage2.level s2_event;
     Walker.purpose := Text.PurposeFinalS2 (Stage2.level s2_event) ipa_value;
     Walker.address := Stage2.descriptor_address s2_event;
     Walker.descriptor_value := Stage2.descriptor_value s2_event;
     Walker.result := Stage2.descriptor_type s2_event;
     Walker.output := Stage2.output_address s2_event |}.

Definition stage1_trace (evs : list Stage1.Stage1WalkEvent) : list Walker.WalkEvent :=
  flat_map (fun e => map (nested_trace_event e) (Stage1.s2_events e)
                     ++ [stage1_trace_event e]) evs.

(** An event with its identifier cleared. *)
Definition without_id (e : Walker.WalkEvent) : Walker.WalkEvent :=
  {| Walker.event_id := 0; Walker.event_type := Walker.event_type e;
     Walker.stage := Walker.stage e; Walker.level := Walker.level e;
     Walker.purpose := Walker.purpose e; Walker.address := Walker.address e;
     Walker.descriptor_value := Walker.descriptor_value e;
     Walker.result := Walker.result e; Walker.output := Walker.output e |}.

(** ** Tactics *)

(** Case analysis on the tests of a loop body. *)
Ltac split_tests :=
  cbv beta iota zeta;
  repeat (match goal with
          | |- context [if ?b then _ else _] => destruct b eqn:?
          end; cbv beta iota).

Ltac clean_tests :=
  repeat match goal with
         | H : negb _ = true |- _ => apply negb_true_iff in H
         | H : negb _ = false |- _ => apply negb_false_iff in H
         end.

Ltac stage1_level w access st :=
  unfold Stage1.walk_level, Stage1_nested;
  destruct (Stage2.walk (Stage1.stage2_walker w) (Stage1.s2_event_counter st)
              (Address.IntermediatePhysicalAddress (Stage1.current_table_ipa st))
              access) as [?s2 ?c2].

Ltac stage1_projections :=
  unfold Stage1_is_leaf, Stage1_is_table, Stage1_desc in *;
  cbn [fst snd Stage1.events Stage1.events_so_far Stage1.success
       Stage1.output_ipa Stage1.fault Stage1.final_permissions
       Stage1.uxn_limit Stage1.pxn_limit Stage1.ap_limit
       Stage1.current_table_ipa Stage1.event_counter Stage1.s2_event_counter
       Stage1.with_output Stage1.level Stage1.descriptor_value
       Stage1.descriptor_type Stage1.s2_events Stage1.event_id
       Stage1.descriptor_address_pa Stage1.output_address
       Descriptor.level Descriptor.value Descriptor.create_descriptor] in *.
(** * Lemmas *)

(** ** Stage 2 *)

Section Stage2Facts.
Variable w : Stage2.Stage2Walker.
Variable ipa : Address.Addr.

(** A level that returns has recorded exactly one more event, and the
    counter has advanced by one; a level that continues has recorded at
    most one. *)
Lemma Stage2_walk_level_return lvl st r c :
  Stage2.walk_level w ipa lvl st = Stage2.Return r c ->
  (exists e, Stage2.events r = Stage2.events_so_far st ++ [e]
             /\ Stage2.level e = lvl
             /\ Stage2.event_id e = Stage2.event_counter st + 1)
  /\ c = Stage2.event_counter st + 1.
Proof.
  unfold Stage2.walk_level. intros H.
  repeat case_match; inversion H; subst; simpl; eauto 6.
Qed.

Lemma Stage2_walk_level_continue lvl st st' :
  Stage2.walk_level w ipa lvl st = Stage2.Continue st' ->
  (length (Stage2.events_so_far st') <= S (length (Stage2.events_so_far st)))%nat.
Proof.
  unfold Stage2.walk_level. intros H.
  repeat case_match; inversion H; subst; simpl; rewrite ?length_app; simpl; lia.
Qed.

Lemma Stage2_walk_from_length n : forall lvl st,
  (length (Stage2.events (Stage2.walk_from w ipa n lvl st).1)
   <= length (Stage2.events_so_far st) + n)%nat.
Proof.
  induction n as [|n IH]; intros lvl st; simpl.
  - lia.
  - destruct (Stage2.walk_level w ipa lvl st) as [st'|r c] eqn:E.
    + specialize (IH (lvl + 1) st').
      apply Stage2_walk_level_continue in E. lia.
    + apply Stage2_walk_level_return in E as [(e & E & _) _].
      simpl. rewrite E, length_app. simpl. lia.
Qed.

(** A stage-2 walk that starts at level [0] or later reads at most four
    descriptors. *)
Lemma Stage2_walk_length counter access :
  0 <= Stage2.starting_level w ->
  (length (Stage2.events (Stage2.walk w counter ipa access).1) <= 4)%nat.
Proof.
  intros H. unfold Stage2.walk.
  etransitivity; [apply Stage2_walk_from_length|]. simpl. lia.
Qed.

Lemma Stage2_walk_level_ok lvl st r c :
  Stage2.walk_level w ipa lvl st = Stage2.Return r c -> Stage2_result_ok r.
Proof.
  unfold Stage2.walk_level, Stage2_result_ok. intros H.
  repeat case_match; inversion H; subst; simpl in *; try discriminate;
    eauto 10.
Qed.

Lemma Stage2_walk_from_ok n : forall lvl st,
  Stage2_result_ok (Stage2.walk_from w ipa n lvl st).1.
Proof.
  induction n as [|n IH]; intros lvl st; simpl.
  - unfold Stage2_result_ok. simpl. eauto 10.
  - destruct (Stage2.walk_level w ipa lvl st) as [st'|r c] eqn:E.
    + apply IH.
    + simpl. eapply Stage2_walk_level_ok, E.
Qed.

Lemma Stage2_walk_ok counter access :
  Stage2_result_ok (Stage2.walk w counter ipa access).1.
Proof. apply Stage2_walk_from_ok. Qed.

Lemma Stage2_walk_success_output counter access :
  Stage2.success (Stage2.walk w counter ipa access).1 = true ->
  is_Some (Stage2.output_pa (Stage2.walk w counter ipa access).1).
Proof.
  pose proof (Stage2_walk_ok counter access) as H.
  unfold Stage2_result_ok in H. intros E. rewrite E in H. tauto.
Qed.

End Stage2Facts.

(** ** Stage 1 *)

Lemma descriptor_type_table d :
  Descriptor.is_valid d = true -> Descriptor.is_table d = true ->
  Descriptor.descriptor_type d = Descriptor.TABLE.
Proof. unfold Descriptor.descriptor_type. intros -> ->. reflexivity. Qed.

Lemma descriptor_type_leaf d :
  Descriptor.is_valid d = true -> Descriptor.is_table d = false ->
  Descriptor.is_page d || Descriptor.is_block d = true ->
  Descriptor.descriptor_type d = Descriptor.BLOCK \/
  Descriptor.descriptor_type d = Descriptor.PAGE.
Proof.
  unfold Descriptor.descriptor_type. intros -> -> H. simpl.
  destruct (Descriptor.is_block d); [left; reflexivity|].
  rewrite orb_false_r in H. rewrite H. right; reflexivity.
Qed.

(** A valid descriptor that is no table and passes the page-or-block test
    is classified as a block or as a page. *)
Ltac leaf_type :=
  apply descriptor_type_leaf;
  [ assumption | assumption
  | repeat match goal with
           | H : Descriptor.is_block _ = _ |- _ => rewrite H
           end;
    first [ assumption | apply orb_true_r ] ].

Section Stage1Facts.
Variable w : Stage1.Stage1Walker.
Variable va : Address.Addr.
Variable access : Faults.AccessType.
Variable is_el0 : bool.

Local Abbreviation walk_level := (Stage1.walk_level w va access is_el0).
Local Abbreviation walk_from := (Stage1.walk_from w va access is_el0).

(** A level that returns has recorded exactly one event, which carries the
    events of the nested walk; a level that continues has recorded at most
    one. *)
Lemma Stage1_walk_level_events lvl st :
  match walk_level lvl st with
  | Stage1.Return r c c2 =>
      exists e, Stage1.events r = Stage1.events_so_far st ++ [e]
            /\ Stage1.level e = lvl
            /\ Stage1.s2_events e = Stage2.events (Stage1_nested w access st)
  | Stage1.Continue st' =>
      Stage1.events_so_far st' = Stage1.events_so_far st \/
      exists e, Stage1.events_so_far st' = Stage1.events_so_far st ++ [e]
            /\ Stage1.level e = lvl
            /\ Stage1.s2_events e = Stage2.events (Stage1_nested w access st)
  end.
Proof.
  stage1_level w access st. split_tests; stage1_projections; eauto 8.
Qed.

Lemma Stage1_walk_from_events n : forall lvl st,
  0 <= Stage2.starting_level (Stage1.stage2_walker w) ->
  Forall (Stage1_nested_bound 4) (Stage1.events_so_far st) ->
  Forall (Stage1_nested_bound 4) (Stage1.events (walk_from n lvl st).1.1) /\
  (length (Stage1.events (walk_from n lvl st).1.1)
   <= length (Stage1.events_so_far st) + n)%nat.
Proof.
  induction n as [|n IH]; intros lvl st Hs2 Hst; simpl.
  - split; [assumption | lia].
  - assert (Hnew : forall e,
      Stage1.s2_events e = Stage2.events (Stage1_nested w access st) ->
      Forall (Stage1_nested_bound 4) (Stage1.events_so_far st ++ [e])).
    { intros e He. apply Forall_app; split; [assumption|].
      constructor; [|constructor]. unfold Stage1_nested_bound. rewrite He.
      apply Stage2_walk_length, Hs2. }
    pose proof (Stage1_walk_level_events lvl st) as E.
    destruct (walk_level lvl st) as [st'|r c c2].
    + destruct (IH (lvl + 1) st' Hs2) as [IH1 IH2].
      * destruct E as [-> | (e & -> & _ & He)]; auto.
      * split; [exact IH1|].
        destruct E as [E | (e & E & _)]; rewrite E in IH2;
          rewrite ?length_app in IH2; simpl in IH2; lia.
    + destruct E as (e & E & _ & He). simpl.
      rewrite E. split; [auto|]. rewrite length_app. simpl. lia.
Qed.

Lemma Stage1_walk_level_ok lvl st :
  match walk_level lvl st with
  | Stage1.Return r c c2 => Stage1_result_ok r
  | Stage1.Continue _ => True
  end.
Proof.
  pose proof (Stage2_walk_ok (Stage1.stage2_walker w)
                (Address.IntermediatePhysicalAddress (Stage1.current_table_ipa st))
                (Stage1.s2_event_counter st) access) as Hs2.
  stage1_level w access st. unfold Stage2_result_ok in Hs2. simpl in Hs2.
  unfold Stage1_result_ok.
  destruct (Stage2.success s2); cbn [negb].
  - split_tests; clean_tests; stage1_projections;
      try discriminate; try exact I; try solve [eauto 10].
    all: repeat split; try reflexivity; eexists; (split; [reflexivity|]); right;
      cbn [Faults.fault_type Faults.stage Faults.level];
      repeat split; try reflexivity;
      eexists; (split; [apply last_snoc|]); stage1_projections;
      (split; [reflexivity|]); leaf_type.
  - cbv beta iota zeta. stage1_projections.
    destruct Hs2 as (_ & f & -> & Hf & _). eauto 10.
Qed.

Lemma Stage1_walk_from_ok n : forall lvl st,
  Stage1_result_ok (walk_from n lvl st).1.1.
Proof.
  induction n as [|n IH]; intros lvl st; simpl.
  - unfold Stage1_result_ok. simpl. eauto 10.
  - pose proof (Stage1_walk_level_ok lvl st) as E.
    destruct (walk_level lvl st) as [st'|r c c2]; [apply IH | exact E].
Qed.

Lemma Stage1_walk_ok c c2 :
  Stage1_result_ok (Stage1.walk w c c2 va access is_el0).1.1.
Proof. apply Stage1_walk_from_ok. Qed.

Lemma Stage1_walk_success_output c c2 :
  Stage1.success (Stage1.walk w c c2 va access is_el0).1.1 = true ->
  is_Some (Stage1.output_ipa (Stage1.walk w c c2 va access is_el0).1.1).
Proof.
  pose proof (Stage1_walk_ok c c2) as H.
  unfold Stage1_result_ok in H. intros E. rewrite E in H. tauto.
Qed.

Lemma Stage1_walk_level_success lvl st :
  match walk_level lvl st with
  | Stage1.Return r c c2 =>
      Stage1.success r = true ->
      exists leaf,
        Stage1_leaf_result va access is_el0 (Stage1.events_so_far st)
          (Stage1.uxn_limit st) (Stage1.pxn_limit st) r leaf
        /\ Stage1.level leaf = lvl
  | Stage1.Continue _ => True
  end.
Proof.
  stage1_level w access st. unfold Stage1_leaf_result, leaf_address.
  split_tests; clean_tests; stage1_projections;
    try exact I; try (intros; discriminate).
  all: intros _; eexists; cbv zeta; (split; [split; [reflexivity|]|]);
    stage1_projections;
    repeat match goal with
           | H : Descriptor.is_block _ = _ |- _ => rewrite H
           | H : (_ =? _) = _ |- _ => rewrite H
           end;
    repeat split; try reflexivity; try assumption; try leaf_type.
Qed.

Lemma Stage1_walk_level_limits lvl st :
  match walk_level lvl st with
  | Stage1.Return _ _ _ => True
  | Stage1.Continue st' => Stage1_limits_inv st -> Stage1_limits_inv st'
  end.
Proof.
  stage1_level w access st. unfold Stage1_limits_inv, uxn_limit_of, pxn_limit_of.
  split_tests; clean_tests; stage1_projections; try exact I; try tauto.
  all: intros (Ht & Hu & Hp); rewrite ?Hu, ?Hp, !existsb_app; cbn [existsb];
    stage1_projections;
    repeat match goal with
           | H : Descriptor.uxn_table _ = _ |- _ => rewrite H
           | H : Descriptor.pxn_table _ = _ |- _ => rewrite H
           end;
    rewrite ?orb_false_r, ?orb_true_r;
    (split; [|split; reflexivity]);
    (apply Forall_app; split; [assumption|]);
    constructor; [|constructor]; stage1_projections;
    apply descriptor_type_table; assumption.
Qed.

Lemma Stage1_walk_from_success n : forall lvl st,
  Stage1_limits_inv st ->
  Stage1.success (walk_from n lvl st).1.1 = true ->
  exists tables leaf,
    Forall Stage1_is_table tables
    /\ Stage1_leaf_result va access is_el0 tables
         (uxn_limit_of tables) (pxn_limit_of tables)
         (walk_from n lvl st).1.1 leaf.
Proof.
  induction n as [|n IH]; intros lvl st Hinv; simpl.
  - discriminate.
  - pose proof (Stage1_walk_level_success lvl st) as Hs.
    pose proof (Stage1_walk_level_limits lvl st) as Hl.
    destruct (walk_level lvl st) as [st'|r c c2].
    + apply IH, Hl, Hinv.
    + simpl. intros Hok. destruct (Hs Hok) as (leaf & Hleaf & _).
      destruct Hinv as (Ht & Hu & Hp).
      exists (Stage1.events_so_far st), leaf. split; [assumption|].
      rewrite <- Hu, <- Hp. exact Hleaf.
Qed.

Lemma Stage1_walk_level_ap_limit lvl a b :
  same_but_ap_limit a b ->
  match walk_level lvl a, walk_level lvl b with
  | Stage1.Return r1 c1 d1, Stage1.Return r2 c2 d2 => r1 = r2 /\ c1 = c2 /\ d1 = d2
  | Stage1.Continue a', Stage1.Continue b' => same_but_ap_limit a' b'
  | _, _ => False
  end.
Proof.
  destruct a, b. unfold same_but_ap_limit. cbn.
  intros (-> & -> & -> & -> & -> & ->).
  unfold Stage1.walk_level. cbn [Stage1.current_table_ipa Stage1.uxn_limit
    Stage1.pxn_limit Stage1.ap_limit Stage1.events_so_far Stage1.event_counter
    Stage1.s2_event_counter].
  destruct (Stage2.walk _ _ _ _) as [s2 c2].
  split_tests; cbn; auto 10.
Qed.

Lemma Stage1_walk_from_ap_limit n : forall lvl a b,
  same_but_ap_limit a b -> walk_from n lvl a = walk_from n lvl b.
Proof.
  induction n as [|n IH]; intros lvl a b Hab; simpl.
  - destruct Hab as (_ & _ & _ & He & Hc & Hd).
    unfold Stage1.walk_exhausted. rewrite He, Hc, Hd. reflexivity.
  - pose proof (Stage1_walk_level_ap_limit lvl a b Hab) as H.
    destruct (walk_level lvl a), (walk_level lvl b); try contradiction.
    + apply IH, H.
    + destruct H as (-> & -> & ->). reflexivity.
Qed.

End Stage1Facts.

(** ** Faulting levels *)


Lemma is_valid_zero lvl s2 :
  Descriptor.is_valid (Descriptor.create_descriptor 0 lvl s2) = false.
Proof. reflexivity. Qed.

Lemma descriptor_type_zero lvl s2 :
  Descriptor.descriptor_type (Descriptor.create_descriptor 0 lvl s2) = Descriptor.INVALID.
Proof. reflexivity. Qed.

(** Stage 2: a descriptor address that the tables do not hold ends the
    walk at that level. *)
Lemma Stage2_walk_level_absent w ipa lvl st :
  Stage2.translation_tables w !!
    Address.calculate_descriptor_address
      (Stage2.current_table_pa st) (Address.get_index ipa lvl) 8 = None ->
  exists r e,
    Stage2.walk_level w ipa lvl st = Stage2.Return r (Stage2.event_counter st + 1)
    /\ Stage2.success r = false
    /\ Stage2.output_pa r = None
    /\ Stage2.fault r = Some (Stage2_translation_fault ipa lvl)
    /\ Stage2.events r = Stage2.events_so_far st ++ [e]
    /\ Stage2.level e = lvl
    /\ Stage2.descriptor_address e =
         Address.calculate_descriptor_address
           (Stage2.current_table_pa st) (Address.get_index ipa lvl) 8
    /\ Stage2.descriptor_value e = 0
    /\ Stage2.descriptor_type e = Descriptor.INVALID.
Proof.
  intros H. unfold Stage2.walk_level, Stage2._read_descriptor. rewrite H.
  cbn [default from_option id]. cbv zeta.
  rewrite is_valid_zero, descriptor_type_zero. cbn [negb].
  do 2 eexists. repeat split.
Qed.

(** Stage 1: the same for the descriptor that the loop fetches once the
    table address is translated. *)
Lemma Stage1_walk_level_absent w va access is_el0 lvl st :
  match Stage1_fetch w va access lvl st with
  | Some (pa, d) =>
      Stage1.translation_tables w !! pa = None ->
      exists r c2 e,
        Stage1.walk_level w va access is_el0 lvl st
          = Stage1.Return r (Stage1.event_counter st + 1) c2
        /\ Stage1.success r = false
        /\ Stage1.output_ipa r = None
        /\ Stage1.final_permissions r = None
        /\ Stage1.fault r = Some (Stage1_translation_fault va lvl)
        /\ Stage1.events r = Stage1.events_so_far st ++ [e]
        /\ Stage1.level e = lvl
        /\ Stage1.descriptor_address_pa e = pa
        /\ Stage1.descriptor_value e = 0
        /\ Stage1.descriptor_type e = Descriptor.INVALID
  | None => True
  end.
Proof.
  unfold Stage1_fetch. stage1_level w access st. cbn [fst].
  destruct (Stage2.success s2); [|exact I]. cbn [negb]. cbv beta iota zeta.
  intros H. unfold Stage1._read_descriptor. rewrite H.
  cbn [default from_option id].
  rewrite is_valid_zero, descriptor_type_zero. cbn [negb].
  do 3 eexists. repeat split.
Qed.

(** Stage 1: a leaf whose permissions deny the access ends the walk with a
    permission fault. *)
Lemma Stage1_walk_level_denied w va access is_el0 lvl st :
  match Stage1_fetch w va access lvl st with
  | Some (pa, d) =>
      let final_uxn := Descriptor.uxn d || Stage1.uxn_limit st in
      let final_pxn := Descriptor.pxn d || Stage1.pxn_limit st in
      Descriptor.is_valid d = true ->
      Descriptor.is_table d = false ->
      Descriptor.is_page d || Descriptor.is_block d = true ->
      Faults.check_permission access (Descriptor.ap d) final_uxn final_pxn is_el0 = false ->
      exists r c2 e,
        Stage1.walk_level w va access is_el0 lvl st
          = Stage1.Return r (Stage1.event_counter st + 1) c2
        /\ Stage1.success r = false
        /\ Stage1.output_ipa r = None
        /\ Stage1.final_permissions r = None
        /\ Stage1.fault r =
             Some (Stage1_permission_fault va lvl access
                     (Descriptor.ap d) final_uxn final_pxn)
        /\ Stage1.events r = Stage1.events_so_far st ++ [e]
        /\ Stage1.level e = lvl
        /\ Stage1.descriptor_address_pa e = pa
        /\ Stage1.descriptor_value e = Descriptor.value d
  | None => True
  end.
Proof.
  unfold Stage1_fetch. stage1_level w access st. cbn [fst].
  destruct (Stage2.success s2); [|exact I]. cbn [negb]. cbv beta iota zeta.
  intros Hv Ht Hl Hp. rewrite Hv, Ht, Hl, Hp. cbn [negb].
  split_tests; do 3 eexists; repeat split.
Qed.

(** Stage 1: a leaf whose permissions allow the access ends the walk with
    the address that the leaf gives. *)
Lemma Stage1_walk_level_allowed w va access is_el0 lvl st :
  match Stage1_fetch w va access lvl st with
  | Some (pa, d) =>
      let final_uxn := Descriptor.uxn d || Stage1.uxn_limit st in
      let final_pxn := Descriptor.pxn d || Stage1.pxn_limit st in
      Descriptor.is_valid d = true ->
      Descriptor.is_table d = false ->
      Descriptor.is_page d || Descriptor.is_block d = true ->
      Faults.check_permission access (Descriptor.ap d) final_uxn final_pxn is_el0 = true ->
      exists r c2 e,
        Stage1.walk_level w va access is_el0 lvl st
          = Stage1.Return r (Stage1.event_counter st + 1) c2
        /\ Stage1.success r = true
        /\ Stage1.output_ipa r =
             Some (Address.IntermediatePhysicalAddress (leaf_address va d))
        /\ Stage1.final_permissions r =
             Some (Descriptor.from_ap_bits (Descriptor.ap d) final_uxn final_pxn)
        /\ Stage1.fault r = None
        /\ Stage1.events r = Stage1.events_so_far st ++ [e]
        /\ Stage1.level e = lvl
        /\ Stage1.descriptor_address_pa e = pa
        /\ Stage1.descriptor_value e = Descriptor.value d
  | None => True
  end.
Proof.
  unfold Stage1_fetch, leaf_address. stage1_level w access st. cbn [fst].
  destruct (Stage2.success s2); [|exact I]. cbn [negb]. cbv beta iota zeta.
  intros Hv Ht Hl Hp. rewrite Hv, Ht, Hl, Hp. cbn [negb].
  split_tests; do 3 eexists; repeat split.
Qed.

(** ** The flattened trace *)

Lemma numbered_nil : numbered ([], 0).
Proof. split; reflexivity. Qed.

Lemma numbered_snoc acc e :
  numbered acc -> Walker.event_id e = acc.2 + 1 ->
  numbered (acc.1 ++ [e], acc.2 + 1).
Proof.
  unfold numbered. intros [Hids Hn] He. cbn [fst snd].
  rewrite map_app, length_app, Hids. cbn [length map].
  rewrite Nat.add_1_r, seq_S, map_app. cbn [map].
  split; [|lia]. do 2 f_equal. lia.
Qed.

(** A loop that appends numbered events keeps the trace numbered, and the
    trace grows by what each step appends. *)
Lemma fold_numbered {A} (f : list Walker.WalkEvent * Z -> A -> list Walker.WalkEvent * Z)
    (k : A -> nat) :
  (forall acc x, numbered acc ->
     numbered (f acc x) /\ length (f acc x).1 = (length acc.1 + k x)%nat) ->
  forall l acc, numbered acc ->
    numbered (fold_left f l acc)
    /\ length (fold_left f l acc).1 = (length acc.1 + list_sum (map k l))%nat.
Proof.
  intros Hf. unfold list_sum. induction l as [|x l IH]; intros acc Hacc; simpl.
  - split; [assumption | lia].
  - destruct (Hf acc x Hacc) as [H1 H2].
    destruct (IH (f acc x) H1) as [H3 H4]. split; [assumption | lia].
Qed.

Lemma add_nested_event_numbered s1_event acc s2_event :
  numbered acc ->
  numbered (Walker.add_nested_event s1_event acc s2_event)
  /\ length (Walker.add_nested_event s1_event acc s2_event).1 = (length acc.1 + 1)%nat.
Proof.
  intros H. unfold Walker.add_nested_event. split.
  - apply numbered_snoc; [assumption | reflexivity].
  - cbn [fst]. rewrite length_app. reflexivity.
Qed.

Lemma add_final_event_numbered ipa_value acc s2_event :
  numbered acc ->
  numbered (Walker.add_final_event ipa_value acc s2_event)
  /\ length (Walker.add_final_event ipa_value acc s2_event).1 = (length acc.1 + 1)%nat.
Proof.
  intros H. unfold Walker.add_final_event. split.
  - apply numbered_snoc; [assumption | reflexivity].
  - cbn [fst]. rewrite length_app. reflexivity.
Qed.

Lemma list_sum_ones {A} (l : list A) : list_sum (map (fun _ => 1%nat) l) = length l.
Proof.
  unfold list_sum. induction l as [|x l IH]; simpl; [reflexivity | f_equal; exact IH].
Qed.

Lemma add_s1_event_numbered acc s1_event :
  numbered acc ->
  numbered (Walker.add_s1_event acc s1_event)
  /\ length (Walker.add_s1_event acc s1_event).1
     = (length acc.1 + S (length (Stage1.s2_events s1_event)))%nat.
Proof.
  intros H. unfold Walker.add_s1_event.
  destruct (fold_numbered (Walker.add_nested_event s1_event) (fun _ => 1%nat)
              (add_nested_event_numbered s1_event)
              (Stage1.s2_events s1_event) acc H) as [H1 H2].
  rewrite list_sum_ones in H2. cbv zeta. split.
  - apply numbered_snoc; [assumption | reflexivity].
  - cbn [fst]. rewrite length_app, H2. cbn [length]. lia.
Qed.

Lemma flatten_stage1_numbered evs :
  numbered (fold_left Walker.add_s1_event evs ([], 0))
  /\ length (fold_left Walker.add_s1_event evs ([], 0)).1
     = list_sum (map (fun e => S (length (Stage1.s2_events e))) evs).
Proof.
  destruct (fold_numbered Walker.add_s1_event
              (fun e => S (length (Stage1.s2_events e)))
              add_s1_event_numbered evs ([], 0) numbered_nil) as [H1 H2].
  split; assumption.
Qed.

Lemma flatten_final_numbered ipa_value evs acc :
  numbered acc ->
  numbered (fold_left (Walker.add_final_event ipa_value) evs acc)
  /\ length (fold_left (Walker.add_final_event ipa_value) evs acc).1
     = (length acc.1 + length evs)%nat.
Proof.
  intros H.
  destruct (fold_numbered (Walker.add_final_event ipa_value) (fun _ => 1%nat)
              (add_final_event_numbered ipa_value) evs acc H) as [H1 H2].
  rewrite list_sum_ones in H2. split; assumption.
Qed.

Lemma nested_sum_bound k evs :
  Forall (Stage1_nested_bound k) evs ->
  (list_sum (map (fun e => S (length (Stage1.s2_events e))) evs)
   <= S k * length evs)%nat.
Proof.
  unfold list_sum. induction 1 as [|e evs He _ IH]; simpl; [lia|].
  unfold Stage1_nested_bound in He. lia.
Qed.

(** The identifiers of a numbered trace increase along the list. *)
Lemma numbered_increasing acc i j ei ej :
  numbered acc -> (i < j)%nat ->
  acc.1 !! i = Some ei -> acc.1 !! j = Some ej ->
  Walker.event_id ei < Walker.event_id ej.
Proof.
  intros [Hids _] Hij Hi Hj.
  assert (Hid : forall n e, acc.1 !! n = Some e -> Walker.event_id e = Z.of_nat (S n)).
  { intros n e Hn.
    assert (H : map Walker.event_id acc.1 !! n = Some (Walker.event_id e))
      by (rewrite list_lookup_fmap, Hn; reflexivity).
    rewrite Hids, list_lookup_fmap in H.
    apply lookup_lt_Some in Hn.
    rewrite lookup_seq_lt in H by assumption. cbn in H.
    injection H as H. rewrite <- H. reflexivity. }
  rewrite (Hid i ei Hi), (Hid j ej Hj). lia.
Qed.

(** The stage-1 walk of the orchestrator starts at level 0, 1 or 2. *)
Lemma starting_level_range t for_ttbr1 :
  0 <= Registers.starting_level t for_ttbr1 <= 2.
Proof. unfold Registers.starting_level. repeat case_match; lia. Qed.

(** * The properties of the walk *)

(** ** Descriptor classification *)

Lemma land_3_cases v :
  (Z.land v 3 = 0 \/ Z.land v 3 = 1 \/ Z.land v 3 = 2 \/ Z.land v 3 = 3)
  /\ Z.land v 1 = Z.land (Z.land v 3) 1.
Proof.
  split.
  - assert (H : Z.land v 3 = v mod 4)
      by (change 3 with (Z.ones 2); rewrite Z.land_ones by lia; reflexivity).
    rewrite H. pose proof (Z.mod_pos_bound v 4 ltac:(lia)). lia.
  - rewrite <- Z.land_assoc. reflexivity.
Qed.

(** C8. For every descriptor word and level the classification is
    INVALID when bit 0 is clear, BLOCK exactly for bits[1:0] = 01 at levels
    1 and 2, TABLE exactly for bits[1:0] = 11 below level 3, PAGE exactly
    for bits[1:0] = 11 at level 3, and INVALID in every other case. *)
Theorem descriptor_classification (v lvl : Z) (s2 : bool) :
  let t := Descriptor.descriptor_type (Descriptor.create_descriptor v lvl s2) in
  (Z.land v 1 = 0 -> t = Descriptor.INVALID)
  /\ (t = Descriptor.BLOCK <-> Z.land v 3 = 1 /\ (lvl = 1 \/ lvl = 2))
  /\ (t = Descriptor.TABLE <-> Z.land v 3 = 3 /\ lvl < 3)
  /\ (t = Descriptor.PAGE <-> Z.land v 3 = 3 /\ lvl = 3)
  /\ (t = Descriptor.INVALID <->
        ~ (Z.land v 3 = 1 /\ (lvl = 1 \/ lvl = 2))
        /\ ~ (Z.land v 3 = 3 /\ lvl <= 3)).
Proof.
  unfold Descriptor.descriptor_type, Descriptor.is_valid, Descriptor.is_table,
    Descriptor.is_block, Descriptor.is_page, Descriptor.create_descriptor.
  cbn [Descriptor.value Descriptor.level].
  destruct (land_3_cases v) as [Hx ->].
  destruct (Z.ltb_spec lvl 3), (Z.eqb_spec lvl 1), (Z.eqb_spec lvl 2),
    (Z.eqb_spec lvl 3); try lia;
    destruct Hx as [-> | [-> | [-> | ->]]]; cbn;
    intuition (try discriminate; try lia).
Qed.

(** The classification of a 2 MB block word at level 2. *)
Lemma descriptor_classification_witness :
  Z.land 0x80000441 3 = 1 /\ (2 = 1 \/ 2 = 2)
  /\ Descriptor.descriptor_type (Descriptor.create_descriptor 0x80000441 2 false)
     = Descriptor.BLOCK.
Proof.
  split; [reflexivity|]. split; [right; reflexivity|].
  apply (proj1 (proj2 (descriptor_classification 0x80000441 2 false))).
  split; [reflexivity | right; reflexivity].
Defined.

Lemma descriptor_type_block d :
  Descriptor.descriptor_type d = Descriptor.BLOCK ->
  Descriptor.is_valid d = true /\ Descriptor.is_table d = false
  /\ Descriptor.is_block d = true.
Proof.
  unfold Descriptor.descriptor_type.
  destruct (Descriptor.is_valid d), (Descriptor.is_table d),
    (Descriptor.is_block d), (Descriptor.is_page d); cbn; intros; try discriminate; auto.
Qed.

Lemma descriptor_type_leaf_inv d :
  Descriptor.descriptor_type d = Descriptor.BLOCK \/
  Descriptor.descriptor_type d = Descriptor.PAGE ->
  Descriptor.is_valid d = true /\ Descriptor.is_table d = false
  /\ Descriptor.is_page d || Descriptor.is_block d = true.
Proof.
  unfold Descriptor.descriptor_type.
  destruct (Descriptor.is_valid d), (Descriptor.is_table d),
    (Descriptor.is_block d), (Descriptor.is_page d); cbn;
    intros [H|H]; try discriminate; auto.
Qed.

(** ** The stage-1 leaf *)

Lemma Stage1_initial_limits w c c2 : Stage1_limits_inv (Stage1.initial_state w c c2).
Proof. repeat split. constructor. Qed.

Lemma l2_block_offset_4KB (a : Address.Addr) :
  Address.granule a = Granule.GRANULE_4KB ->
  Address.l2_block_offset a = Z.land (Address.value a) 0x1FFFFF.
Proof.
  intros H. unfold Address.l2_block_offset. rewrite H. reflexivity.
Qed.

(** A successful stage-1 walk ends in a leaf that follows table
    descriptors only. *)
Lemma Stage1_walk_success w c c2 va access is_el0 :
  Stage1.success (Stage1.walk w c c2 va access is_el0).1.1 = true ->
  exists tables leaf,
    Forall Stage1_is_table tables
    /\ Stage1_leaf_result va access is_el0 tables
         (uxn_limit_of tables) (pxn_limit_of tables)
         (Stage1.walk w c c2 va access is_el0).1.1 leaf.
Proof.
  unfold Stage1.walk. apply Stage1_walk_from_success, Stage1_initial_limits.
Qed.

(** C3 (as amended). Under the 4 KB granule, a stage-1 walk that ends in a
    BLOCK descriptor at level 2 returns the descriptor's output address
    (value & 0x0000FFFFFFE00000) joined with va & 0x1F_FFFF; for the block
    with output 0x8000_0000 and the address with block offset 0x1_5030 this
    is 0x8001_5030. *)
Theorem stage1_l2_block_ipa :
  (forall w c c2 va access is_el0 leaf,
     Address.granule va = Granule.GRANULE_4KB ->
     Stage1.success (Stage1.walk w c c2 va access is_el0).1.1 = true ->
     last (Stage1.events (Stage1.walk w c c2 va access is_el0).1.1) = Some leaf ->
     Stage1.level leaf = 2 ->
     Stage1.descriptor_type leaf = Descriptor.BLOCK ->
     Stage1.output_ipa (Stage1.walk w c c2 va access is_el0).1.1 =
       Some (Address.IntermediatePhysicalAddress
               (Z.lor (Z.land (Stage1.descriptor_value leaf) 0x0000FFFFFFE00000)
                      (Z.land (Address.value va) 0x1FFFFF))))
  /\ (let w := Walker.stage1_walker
                 (Scenario.walker_of Scenario.stage1_block Scenario.stage2_identity)
                 (Scenario.va_of 0x40215030) in
      Address.l2_block_offset (Scenario.va_of 0x40215030) = 0x15030
      /\ Stage1.output_ipa
           (Stage1.walk w 0 0 (Scenario.va_of 0x40215030) Faults.READ true).1.1
         = Some (Address.IntermediatePhysicalAddress 0x0000000080015030)).
Proof.
  split.
  - intros w c c2 va access is_el0 leaf Hg Hok Hlast Hlvl Hblock.
    destruct (Stage1_walk_success w c c2 va access is_el0 Hok)
      as (tables & leaf' & _ & Hev & Htype & _ & Hipa & _).
    rewrite Hev, last_snoc in Hlast. injection Hlast as ->.
    rewrite Hipa. do 2 f_equal. rewrite Hblock in Htype. symmetry in Htype.
    apply descriptor_type_block in Htype as (_ & _ & Hb).
    unfold leaf_address, Descriptor.block_output_address. rewrite Hb.
    unfold Stage1_desc. cbn [Descriptor.level Descriptor.value Descriptor.create_descriptor].
    rewrite Hlvl. cbn [Z.eqb Pos.eqb]. rewrite l2_block_offset_4KB by assumption.
    reflexivity.
  - vm_compute. split; reflexivity.
Qed.

(** The walk over the tables with a 2 MB block at L2. *)
Lemma stage1_l2_block_ipa_witness :
  let va := Scenario.va_of 0x40215030 in
  let w := Walker.stage1_walker
             (Scenario.walker_of Scenario.stage1_block Scenario.stage2_identity) va in
  let r := (Stage1.walk w 0 0 va Faults.READ true).1.1 in
  exists leaf,
    Address.granule va = Granule.GRANULE_4KB
    /\ Stage1.success r = true
    /\ last (Stage1.events r) = Some leaf
    /\ Stage1.level leaf = 2
    /\ Stage1.descriptor_type leaf = Descriptor.BLOCK
    /\ Stage1.descriptor_value leaf = 0x80000441
    /\ Stage1.output_ipa r =
         Some (Address.IntermediatePhysicalAddress
                 (Z.lor (Z.land (Stage1.descriptor_value leaf) 0x0000FFFFFFE00000)
                        (Z.land (Address.value va) 0x1FFFFF))).
Proof.
  intros va w r.
  destruct (last (Stage1.events r)) as [leaf|] eqn:E; [|vm_compute in E; discriminate].
  exists leaf.
  assert (Hl : Some leaf = last (Stage1.events r)) by (symmetry; exact E).
  vm_compute in Hl. injection Hl as Hl.
  split; [reflexivity|]. split; [vm_compute; reflexivity|].
  split; [reflexivity|]. split; [rewrite Hl; reflexivity|].
  split; [rewrite Hl; reflexivity|]. split; [rewrite Hl; reflexivity|].
  apply (proj1 stage1_l2_block_ipa w 0 0 va Faults.READ true leaf).
  - reflexivity.
  - vm_compute; reflexivity.
  - exact E.
  - rewrite Hl; reflexivity.
  - rewrite Hl; reflexivity.
Defined.

(** C3, the instance as stated: the walk ends in the level-2
    block with output 0x8000_0000, the block offset of the address is
    0x1_5030, and the address returned is not 0x8015_5030. *)
Lemma stage1_l2_block_ipa_counterexample :
  let va := Scenario.va_of 0x40215030 in
  let w := Walker.stage1_walker
             (Scenario.walker_of Scenario.stage1_block Scenario.stage2_identity) va in
  let r := (Stage1.walk w 0 0 va Faults.READ true).1.1 in
  Address.granule va = Granule.GRANULE_4KB
  /\ Address.l2_block_offset va = 0x15030
  /\ Stage1.success r = true
  /\ Stage1.level <$> last (Stage1.events r) = Some 2
  /\ Stage1.descriptor_type <$> last (Stage1.events r) = Some Descriptor.BLOCK
  /\ (fun leaf => Descriptor.block_output_address (Stage1_desc leaf))
       <$> last (Stage1.events r) = Some 0x0000000080000000
  /\ Stage1.output_ipa r <> Some (Address.IntermediatePhysicalAddress 0x0000000080155030).
Proof.
  cbv zeta. repeat split; try (vm_compute; reflexivity).
  vm_compute. discriminate.
Qed.

(** C4. On reaching a leaf the stage-1 walker joins the execute-never bits
    of the leaf with the table limits of every traversed table descriptor,
    and takes the access permissions of the leaf as they are: the
    accumulated [ap_limit] changes neither the permission check nor the
    result. *)
Theorem stage1_permission_combination :
  (forall w c c2 va access is_el0,
     Stage1.success (Stage1.walk w c c2 va access is_el0).1.1 = true ->
     exists tables leaf,
       let d := Stage1_desc leaf in
       let final_uxn := Descriptor.uxn d || uxn_limit_of tables in
       let final_pxn := Descriptor.pxn d || pxn_limit_of tables in
       let final_ap := Descriptor.ap d in
       Stage1.events (Stage1.walk w c c2 va access is_el0).1.1 = tables ++ [leaf]
       /\ Forall Stage1_is_table tables
       /\ Stage1_is_leaf leaf
       /\ final_ap = Z.land (Z.shiftr (Stage1.descriptor_value leaf) 6) 3
       /\ Faults.check_permission access final_ap final_uxn final_pxn is_el0 = true
       /\ Stage1.final_permissions (Stage1.walk w c c2 va access is_el0).1.1 =
            Some (Descriptor.from_ap_bits final_ap final_uxn final_pxn))
  /\ (forall w va access is_el0 n lvl a b,
        same_but_ap_limit a b ->
        Stage1.walk_from w va access is_el0 n lvl a
        = Stage1.walk_from w va access is_el0 n lvl b).
Proof.
  split.
  - intros w c c2 va access is_el0 Hok.
    destruct (Stage1_walk_success w c c2 va access is_el0 Hok)
      as (tables & leaf & Ht & Hev & _ & Hleaf & _ & Hperm & Hchk).
    exists tables, leaf. cbv zeta. repeat split; assumption || reflexivity.
  - intros w va access is_el0 n lvl a b Hab.
    apply Stage1_walk_from_ap_limit, Hab.
Qed.

(** An EL0 write along tables with limits: UXNTable and APTable = 0b11 on
    the L1 entry, PXNTable on the L2 entry, and a page with AP = 0b01 and
    clear UXN and PXN.  The execute-never limits reach the final
    permissions; APTable does not, and the write goes through.  The walk
    is the same from a state whose [ap_limit] is already 3. *)
Lemma stage1_permission_combination_witness :
  let w := Scenario.limited_stage1 in
  let r := (Stage1.walk w 0 0 Scenario.happy_va Faults.WRITE true).1.1 in
  let a := Stage1.initial_state w 0 0 in
  let b := {| Stage1.current_table_ipa := Stage1.ttbr_base w;
              Stage1.uxn_limit := false; Stage1.pxn_limit := false;
              Stage1.ap_limit := 3;
              Stage1.events_so_far := [];
              Stage1.event_counter := 0; Stage1.s2_event_counter := 0 |} in
  (Stage1.success r = true
   /\ exists tables leaf,
        Stage1.events r = tables ++ [leaf]
        /\ Forall Stage1_is_table tables
        /\ Stage1_is_leaf leaf
        /\ map (fun e => Descriptor.ap_table (Stage1_desc e)) tables = [0; 3; 0]
        /\ map (fun e => Descriptor.uxn_table (Stage1_desc e)) tables = [false; true; false]
        /\ map (fun e => Descriptor.pxn_table (Stage1_desc e)) tables = [false; false; true]
        /\ uxn_limit_of tables = true
        /\ pxn_limit_of tables = true
        /\ Descriptor.uxn (Stage1_desc leaf) = false
        /\ Descriptor.pxn (Stage1_desc leaf) = false
        /\ Descriptor.ap (Stage1_desc leaf) = 1
        /\ Stage1.final_permissions r = Some (Descriptor.from_ap_bits 1 true true)
        /\ Faults.check_permission Faults.WRITE 1 true true true = true)
  /\ (same_but_ap_limit a b
      /\ Stage1.ap_limit a <> Stage1.ap_limit b
      /\ Stage1.walk_from w Scenario.happy_va Faults.WRITE true 4 0 a
         = Stage1.walk_from w Scenario.happy_va Faults.WRITE true 4 0 b).
Proof.
  intros w r a b. split.
  - assert (Hok : Stage1.success r = true) by (vm_compute; reflexivity).
    split; [exact Hok|].
    destruct (proj1 stage1_permission_combination w 0 0 Scenario.happy_va Faults.WRITE
                true Hok)
      as (tables & leaf & Hev & Ht & Hl & _ & Hchk & Hp).
    fold r in Hev, Hchk, Hp.
    assert (Etables : tables = removelast (Stage1.events r))
      by (rewrite Hev, removelast_last; reflexivity).
    assert (Eleaf : last (Stage1.events r) = Some leaf)
      by (rewrite Hev; apply last_snoc).
    assert (Hat : map (fun e => Descriptor.ap_table (Stage1_desc e)) tables = [0; 3; 0])
      by (rewrite Etables; vm_compute; reflexivity).
    assert (Hut : map (fun e => Descriptor.uxn_table (Stage1_desc e)) tables
                  = [false; true; false])
      by (rewrite Etables; vm_compute; reflexivity).
    assert (Hpt : map (fun e => Descriptor.pxn_table (Stage1_desc e)) tables
                  = [false; false; true])
      by (rewrite Etables; vm_compute; reflexivity).
    assert (Hul : uxn_limit_of tables = true)
      by (rewrite Etables; vm_compute; reflexivity).
    assert (Hpl : pxn_limit_of tables = true)
      by (rewrite Etables; vm_compute; reflexivity).
    assert (Hu : (fun e => Descriptor.uxn (Stage1_desc e)) <$> last (Stage1.events r)
                 = Some false) by (vm_compute; reflexivity).
    assert (Hx : (fun e => Descriptor.pxn (Stage1_desc e)) <$> last (Stage1.events r)
                 = Some false) by (vm_compute; reflexivity).
    assert (Ha : (fun e => Descriptor.ap (Stage1_desc e)) <$> last (Stage1.events r)
                 = Some 1) by (vm_compute; reflexivity).
    rewrite Eleaf in Hu, Hx, Ha.
    apply (inj Some) in Hu. apply (inj Some) in Hx. apply (inj Some) in Ha.
    cbv beta in Hu, Hx, Ha.
    rewrite Hu, Hx, Ha, Hul, Hpl in Hp, Hchk. cbn [orb] in Hp, Hchk.
    exists tables, leaf. repeat split; assumption.
  - assert (Hab : same_but_ap_limit a b) by (repeat split).
    split; [exact Hab|]. split; [cbn; lia|].
    exact (proj2 stage1_permission_combination w Scenario.happy_va Faults.WRITE true
             4%nat 0 a b Hab).
Defined.

(** ** Denied and missing descriptors *)

(** C5. The stage-1 permission gate follows the AP table: EL1 may always
    read; EL1 may write iff AP is 00 or 01; EL0 may read iff AP is 01 or
    11; EL0 may write iff AP is 01; EL0 may execute iff UXN is clear and EL1
    iff PXN is clear.  A leaf that denies the access ends the walk with the
    fault (PERMISSION, stage 1, the level of the leaf, the access type,
    far_el1 = va) and without an address; a leaf that allows it ends the
    walk with the address of the leaf, its permissions and no fault. *)
Theorem stage1_permission_gate :
  (forall ap uxn pxn, Faults.check_permission Faults.READ ap uxn pxn false = true)
  /\ (forall ap uxn pxn,
        Faults.check_permission Faults.WRITE ap uxn pxn false = true <-> ap = 0 \/ ap = 1)
  /\ (forall ap uxn pxn,
        Faults.check_permission Faults.READ ap uxn pxn true = true <-> ap = 1 \/ ap = 3)
  /\ (forall ap uxn pxn,
        Faults.check_permission Faults.WRITE ap uxn pxn true = true <-> ap = 1)
  /\ (forall ap uxn pxn,
        Faults.check_permission Faults.EXECUTE ap uxn pxn true = true <-> uxn = false)
  /\ (forall ap uxn pxn,
        Faults.check_permission Faults.EXECUTE ap uxn pxn false = true <-> pxn = false)
  /\ (forall w va access is_el0 n lvl st pa d,
        Stage1_fetch w va access lvl st = Some (pa, d) ->
        Descriptor.descriptor_type d = Descriptor.BLOCK
          \/ Descriptor.descriptor_type d = Descriptor.PAGE ->
        Faults.check_permission access (Descriptor.ap d)
          (Descriptor.uxn d || Stage1.uxn_limit st)
          (Descriptor.pxn d || Stage1.pxn_limit st) is_el0 = false ->
        exists r c c2 f,
          Stage1.walk_from w va access is_el0 (S n) lvl st = (r, c, c2)
          /\ Stage1.success r = false
          /\ Stage1.output_ipa r = None
          /\ Stage1.final_permissions r = None
          /\ Stage1.fault r = Some f
          /\ Faults.fault_type f = Faults.PERMISSION_FAULT
          /\ Faults.stage f = 1
          /\ Faults.level f = lvl
          /\ Faults.access_type f = Some access
          /\ Faults.address f = Address.value va
          /\ Faults.far_el1 f = Some (Address.value va)
          /\ Faults.far_el2 f = None)
  /\ (forall w va access is_el0 n lvl st pa d,
        Stage1_fetch w va access lvl st = Some (pa, d) ->
        Descriptor.descriptor_type d = Descriptor.BLOCK
          \/ Descriptor.descriptor_type d = Descriptor.PAGE ->
        Faults.check_permission access (Descriptor.ap d)
          (Descriptor.uxn d || Stage1.uxn_limit st)
          (Descriptor.pxn d || Stage1.pxn_limit st) is_el0 = true ->
        exists r c c2,
          Stage1.walk_from w va access is_el0 (S n) lvl st = (r, c, c2)
          /\ Stage1.success r = true
          /\ Stage1.output_ipa r =
               Some (Address.IntermediatePhysicalAddress (leaf_address va d))
          /\ Stage1.final_permissions r =
               Some (Descriptor.from_ap_bits (Descriptor.ap d)
                       (Descriptor.uxn d || Stage1.uxn_limit st)
                       (Descriptor.pxn d || Stage1.pxn_limit st))
          /\ Stage1.fault r = None).
Proof.
  split; [reflexivity|].
  split. { intros ap uxn pxn. unfold Faults.check_permission. cbn.
           destruct (Z.eqb_spec ap 0), (Z.eqb_spec ap 1); cbn;
             intuition (discriminate || lia). }
  split. { intros ap uxn pxn. unfold Faults.check_permission. cbn.
           destruct (Z.eqb_spec ap 1), (Z.eqb_spec ap 3); cbn;
             intuition (discriminate || lia). }
  split. { intros ap uxn pxn. unfold Faults.check_permission. cbn.
           destruct (Z.eqb_spec ap 1); intuition (discriminate || lia). }
  split. { intros ap uxn pxn. unfold Faults.check_permission. cbn.
           destruct uxn; cbn; intuition discriminate. }
  split. { intros ap uxn pxn. unfold Faults.check_permission. cbn.
           destruct pxn; cbn; intuition discriminate. }
  split.
  { intros w va access is_el0 n lvl st pa d Hfetch Hleaf Hdenied.
    apply descriptor_type_leaf_inv in Hleaf as (Hv & Ht & Hl).
    pose proof (Stage1_walk_level_denied w va access is_el0 lvl st) as H.
    rewrite Hfetch in H.
    destruct (H Hv Ht Hl Hdenied) as (r & c2 & e & Hstep & Hs & Hi & Hp & Hf & _).
    exists r, (Stage1.event_counter st + 1), c2. eexists.
    cbn [Stage1.walk_from]. rewrite Hstep.
    repeat split; try eassumption; reflexivity. }
  intros w va access is_el0 n lvl st pa d Hfetch Hleaf Hallowed.
  apply descriptor_type_leaf_inv in Hleaf as (Hv & Ht & Hl).
  pose proof (Stage1_walk_level_allowed w va access is_el0 lvl st) as H.
  rewrite Hfetch in H.
  destruct (H Hv Ht Hl Hallowed) as (r & c2 & e & Hstep & Hs & Hi & Hp & Hf & _).
  exists r, (Stage1.event_counter st + 1), c2.
  cbn [Stage1.walk_from]. rewrite Hstep.
  repeat split; assumption.
Qed.

(** The page with AP = 0b10 at level 3: a write from EL0 is denied, a
    read from EL1 is allowed and gives the address of the page. *)
Lemma stage1_permission_gate_witness :
  let d := Descriptor.create_descriptor (Scenario.page 0x50000000 2) 3 false in
  let st := Scenario.entering 0x4003000 in
  (Stage1_fetch Scenario.read_only_stage1 Scenario.happy_va Faults.WRITE 3 st
     = Some (0x4003008, d)
   /\ (Descriptor.descriptor_type d = Descriptor.BLOCK
       \/ Descriptor.descriptor_type d = Descriptor.PAGE)
   /\ Faults.check_permission Faults.WRITE (Descriptor.ap d)
        (Descriptor.uxn d || Stage1.uxn_limit st)
        (Descriptor.pxn d || Stage1.pxn_limit st) true = false
   /\ exists r c c2 f,
        Stage1.walk_from Scenario.read_only_stage1 Scenario.happy_va Faults.WRITE true
          1 3 st = (r, c, c2)
        /\ Stage1.success r = false
        /\ Stage1.output_ipa r = None
        /\ Stage1.fault r = Some f
        /\ Faults.fault_type f = Faults.PERMISSION_FAULT
        /\ Faults.stage f = 1
        /\ Faults.level f = 3
        /\ Faults.access_type f = Some Faults.WRITE
        /\ Faults.far_el1 f = Some 0x0000000040201030)
  /\ (Stage1_fetch Scenario.read_only_stage1 Scenario.happy_va Faults.READ 3 st
        = Some (0x4003008, d)
      /\ Faults.check_permission Faults.READ (Descriptor.ap d)
           (Descriptor.uxn d || Stage1.uxn_limit st)
           (Descriptor.pxn d || Stage1.pxn_limit st) false = true
      /\ exists r c c2,
           Stage1.walk_from Scenario.read_only_stage1 Scenario.happy_va Faults.READ false
             1 3 st = (r, c, c2)
           /\ Stage1.success r = true
           /\ Stage1.output_ipa r = Some (Address.IntermediatePhysicalAddress 0x50000030)
           /\ Stage1.final_permissions r = Some (Descriptor.from_ap_bits 2 false false)
           /\ Stage1.fault r = None).
Proof.
  intros d st.
  assert (Hleaf : Descriptor.descriptor_type d = Descriptor.BLOCK
                  \/ Descriptor.descriptor_type d = Descriptor.PAGE)
    by (right; vm_compute; reflexivity).
  split.
  - assert (Hfetch : Stage1_fetch Scenario.read_only_stage1 Scenario.happy_va
                       Faults.WRITE 3 st = Some (0x4003008, d))
      by (vm_compute; reflexivity).
    assert (Hdenied : Faults.check_permission Faults.WRITE (Descriptor.ap d)
              (Descriptor.uxn d || Stage1.uxn_limit st)
              (Descriptor.pxn d || Stage1.pxn_limit st) true = false)
      by (vm_compute; reflexivity).
    split; [exact Hfetch|]. split; [exact Hleaf|]. split; [exact Hdenied|].
    destruct stage1_permission_gate as (_ & _ & _ & _ & _ & _ & H & _).
    destruct (H Scenario.read_only_stage1 Scenario.happy_va Faults.WRITE true 0%nat 3
                st 0x4003008 d Hfetch Hleaf Hdenied)
      as (r & c & c2 & f & Hw & Hs & Hi & _ & Hf & Ht & Hst & Hl & Ha & _ & Hfar & _).
    exists r, c, c2, f. repeat split; assumption.
  - assert (Hfetch : Stage1_fetch Scenario.read_only_stage1 Scenario.happy_va
                       Faults.READ 3 st = Some (0x4003008, d))
      by (vm_compute; reflexivity).
    assert (Hallowed : Faults.check_permission Faults.READ (Descriptor.ap d)
              (Descriptor.uxn d || Stage1.uxn_limit st)
              (Descriptor.pxn d || Stage1.pxn_limit st) false = true)
      by (vm_compute; reflexivity).
    split; [exact Hfetch|]. split; [exact Hallowed|].
    destruct stage1_permission_gate as (_ & _ & _ & _ & _ & _ & _ & H).
    destruct (H Scenario.read_only_stage1 Scenario.happy_va Faults.READ false 0%nat 3
                st 0x4003008 d Hfetch Hleaf Hallowed)
      as (r & c & c2 & Hw & Hs & Hi & Hp & Hf).
    exists r, c, c2.
    split; [exact Hw|]. split; [exact Hs|].
    split; [rewrite Hi; vm_compute; reflexivity|].
    split; [rewrite Hp; vm_compute; reflexivity|].
    exact Hf.
Defined.

(** C6. A descriptor address that the table mapping does not hold reads as
    0, which is INVALID, and ends the walk at that level: the result is a
    TRANSLATION fault with the stage and the level of the fetch and the input
    address as the faulting address (far_el2 = ipa at stage 2, far_el1 = va
    at stage 1), and the event of the level is the last of the list. *)
Theorem absent_descriptor_faults :
  (forall w ipa n lvl st,
     let a := Address.calculate_descriptor_address
                (Stage2.current_table_pa st) (Address.get_index ipa lvl) 8 in
     Stage2.translation_tables w !! a = None ->
     Stage2._read_descriptor w a = 0
     /\ exists r c e f,
          Stage2.walk_from w ipa (S n) lvl st = (r, c)
          /\ Stage2.success r = false
          /\ Stage2.output_pa r = None
          /\ Stage2.fault r = Some f
          /\ Faults.fault_type f = Faults.TRANSLATION_FAULT
          /\ Faults.stage f = 2
          /\ Faults.level f = lvl
          /\ Faults.address f = Address.value ipa
          /\ Faults.far_el2 f = Some (Address.value ipa)
          /\ Stage2.events r = Stage2.events_so_far st ++ [e]
          /\ last (Stage2.events r) = Some e
          /\ Stage2.level e = lvl
          /\ Stage2.descriptor_address e = a
          /\ Stage2.descriptor_value e = 0
          /\ Stage2.descriptor_type e = Descriptor.INVALID)
  /\ (forall w va access is_el0 n lvl st pa d,
        Stage1_fetch w va access lvl st = Some (pa, d) ->
        Stage1.translation_tables w !! pa = None ->
        Stage1._read_descriptor w pa = 0
        /\ exists r c c2 e f,
             Stage1.walk_from w va access is_el0 (S n) lvl st = (r, c, c2)
             /\ Stage1.success r = false
             /\ Stage1.output_ipa r = None
             /\ Stage1.fault r = Some f
             /\ Faults.fault_type f = Faults.TRANSLATION_FAULT
             /\ Faults.stage f = 1
             /\ Faults.level f = lvl
             /\ Faults.address f = Address.value va
             /\ Faults.far_el1 f = Some (Address.value va)
             /\ Stage1.events r = Stage1.events_so_far st ++ [e]
             /\ last (Stage1.events r) = Some e
             /\ Stage1.level e = lvl
             /\ Stage1.descriptor_address_pa e = pa
             /\ Stage1.descriptor_value e = 0
             /\ Stage1.descriptor_type e = Descriptor.INVALID).
Proof.
  split.
  - intros w ipa n lvl st a Ha.
    split; [unfold Stage2._read_descriptor; rewrite Ha; reflexivity|].
    destruct (Stage2_walk_level_absent w ipa lvl st Ha)
      as (r & e & Hstep & Hs & Ho & Hf & He & Hl & Hda & Hdv & Hdt).
    exists r, (Stage2.event_counter st + 1), e, (Stage2_translation_fault ipa lvl).
    cbn [Stage2.walk_from]. rewrite Hstep, He, last_snoc.
    repeat split; assumption || reflexivity.
  - intros w va access is_el0 n lvl st pa d Hfetch Ha.
    split; [unfold Stage1._read_descriptor; rewrite Ha; reflexivity|].
    pose proof (Stage1_walk_level_absent w va access is_el0 lvl st) as H.
    rewrite Hfetch in H.
    destruct (H Ha) as (r & c2 & e & Hstep & Hs & Ho & _ & Hf & He & Hl & Hda & Hdv & Hdt).
    exists r, (Stage1.event_counter st + 1), c2, e, (Stage1_translation_fault va lvl).
    cbn [Stage1.walk_from]. rewrite Hstep, He, last_snoc.
    repeat split; assumption || reflexivity.
Qed.

(** The stage-2 tables without the page of IPA 0x4002000, and the stage-1
    tables without the L2 descriptor. *)
Lemma absent_descriptor_faults_witness :
  (Stage2.translation_tables Scenario.without_l1_table_stage2 !!
     Address.calculate_descriptor_address
       (Stage2.current_table_pa (Scenario.entering_stage2 0x100004000))
       (Address.get_index (Address.IntermediatePhysicalAddress 0x4002000) 3) 8 = None
   /\ exists r c f,
        Stage2.walk_from Scenario.without_l1_table_stage2
          (Address.IntermediatePhysicalAddress 0x4002000) 1 3
          (Scenario.entering_stage2 0x100004000) = (r, c)
        /\ Stage2.fault r = Some f
        /\ Faults.fault_type f = Faults.TRANSLATION_FAULT
        /\ Faults.stage f = 2
        /\ Faults.level f = 3
        /\ Faults.far_el2 f = Some 0x4002000)
  /\ (exists d,
        Stage1_fetch Scenario.without_l2_stage1 Scenario.happy_va Faults.READ 2
          (Scenario.entering 0x4002000) = Some (0x4002008, d)
        /\ Stage1.translation_tables Scenario.without_l2_stage1 !! 0x4002008 = None
        /\ exists r c c2 f,
             Stage1.walk_from Scenario.without_l2_stage1 Scenario.happy_va
               Faults.READ true 2 2 (Scenario.entering 0x4002000) = (r, c, c2)
             /\ Stage1.fault r = Some f
             /\ Faults.fault_type f = Faults.TRANSLATION_FAULT
             /\ Faults.stage f = 1
             /\ Faults.level f = 2
             /\ Faults.far_el1 f = Some 0x0000000040201030).
Proof.
  split.
  - assert (Ha : Stage2.translation_tables Scenario.without_l1_table_stage2 !!
       Address.calculate_descriptor_address
         (Stage2.current_table_pa (Scenario.entering_stage2 0x100004000))
         (Address.get_index (Address.IntermediatePhysicalAddress 0x4002000) 3) 8 = None)
      by (vm_compute; reflexivity).
    split; [exact Ha|].
    destruct (proj1 absent_descriptor_faults Scenario.without_l1_table_stage2
                (Address.IntermediatePhysicalAddress 0x4002000) 0%nat 3
                (Scenario.entering_stage2 0x100004000) Ha)
      as (_ & r & c & e & f & Hw & _ & _ & Hf & Ht & Hs & Hl & _ & Hfar & _).
    exists r, c, f. repeat split; assumption.
  - exists (Descriptor.create_descriptor 0 2 false).
    assert (Hfetch : Stage1_fetch Scenario.without_l2_stage1 Scenario.happy_va
                       Faults.READ 2 (Scenario.entering 0x4002000)
                     = Some (0x4002008, Descriptor.create_descriptor 0 2 false))
      by (vm_compute; reflexivity).
    assert (Ha : Stage1.translation_tables Scenario.without_l2_stage1 !! 0x4002008 = None)
      by (vm_compute; reflexivity).
    split; [exact Hfetch|]. split; [exact Ha|].
    destruct (proj2 absent_descriptor_faults Scenario.without_l2_stage1
                Scenario.happy_va Faults.READ true 1%nat 2
                (Scenario.entering 0x4002000) 0x4002008 _ Hfetch Ha)
      as (_ & r & c & c2 & e & f & Hw & _ & _ & Hf & Ht & Hs & Hl & _ & Hfar & _).
    exists r, c, c2, f. repeat split; assumption.
Defined.

(** ** The orchestrator *)

(** The result of [PageTableWalker.walk], by the outcome of the two
    stages. *)
Lemma Walker_walk_cases p va access is_el0 :
  let s1 := (Stage1.walk (Walker.stage1_walker p va) 0 0 va access is_el0).1.1 in
  let flat := fold_left Walker.add_s1_event (Stage1.events s1) ([], 0) in
  let r := Walker.walk p va access is_el0 in
  Walker.s1_result r = Some s1
  /\ ((Stage1.success s1 = false
       /\ Walker.status r = Walker.S1_FAULT
       /\ Walker.events r = flat.1
       /\ Walker.total_memory_accesses r = flat.2
       /\ Walker.fault r = Stage1.fault s1
       /\ Walker.ipa r = None
       /\ Walker.output_pa r = None
       /\ Walker.final_permissions r = None)
      \/ (Stage1.success s1 = true
          /\ exists ipa,
               Stage1.output_ipa s1 = Some ipa
               /\ let s2 := (Stage2.walk (Walker.stage2_walker p) flat.2 ipa access).1 in
                  let all := fold_left (Walker.add_final_event (Address.value ipa))
                               (Stage2.events s2) flat in
                  Walker.events r = all.1
                  /\ Walker.total_memory_accesses r = all.2
                  /\ Walker.ipa r = Some ipa
                  /\ Walker.final_permissions r = Stage1.final_permissions s1
                  /\ Walker.s2_final_result r = Some s2
                  /\ ((Stage2.success s2 = false
                       /\ Walker.status r = Walker.S2_FINAL_FAULT
                       /\ Walker.fault r = Stage2.fault s2
                       /\ Walker.output_pa r = None)
                      \/ (Stage2.success s2 = true
                          /\ Walker.status r = Walker.SUCCESS
                          /\ Walker.fault r = None
                          /\ Walker.output_pa r = Stage2.output_pa s2)))).
Proof.
  cbv zeta. unfold Walker.walk. cbv zeta.
  pose proof (Stage1_walk_ok (Walker.stage1_walker p va) va access is_el0 0 0) as Hok.
  destruct (Stage1.walk (Walker.stage1_walker p va) 0 0 va access is_el0)
    as [[s1 c] c2].
  cbn [fst] in *. unfold Stage1_result_ok in Hok.
  destruct (fold_left Walker.add_s1_event (Stage1.events s1) ([], 0)) as [evs k].
  cbn [fst snd].
  destruct (Stage1.success s1); cbn [negb].
  - destruct Hok as ([ipa Hipa] & _ & _). rewrite Hipa.
    destruct (Stage2.walk (Walker.stage2_walker p) k ipa access) as [s2 c'] eqn:E2.
    destruct (fold_left (Walker.add_final_event (Address.value ipa))
                (Stage2.events s2) (evs, k)) as [evs' k'] eqn:Ef.
    destruct (Stage2.success s2) eqn:Es2; cbn [negb]; cbn [Walker.s1_result];
      (split; [reflexivity|]); right; (split; [reflexivity|]);
      exists ipa; (split; [reflexivity|]);
      rewrite E2; cbn [fst]; rewrite Ef, Es2; cbn; auto 10.
  - cbn. auto 10.
Qed.

Lemma Walker_walk_numbered p va access is_el0 :
  let r := Walker.walk p va access is_el0 in
  numbered (Walker.events r, Walker.total_memory_accesses r).
Proof.
  destruct (Walker_walk_cases p va access is_el0) as [_ H]. cbv zeta in *.
  pose proof (flatten_stage1_numbered
    (Stage1.events (Stage1.walk (Walker.stage1_walker p va) 0 0 va access is_el0).1.1))
    as [Hflat _].
  destruct H as [(_ & _ & -> & -> & _) | (_ & ipa & _ & -> & -> & _)].
  - destruct (fold_left _ _ _); exact Hflat.
  - destruct (flatten_final_numbered (Address.value ipa)
                (Stage2.events (Stage2.walk (Walker.stage2_walker p)
                   (fold_left Walker.add_s1_event
                      (Stage1.events (Stage1.walk (Walker.stage1_walker p va) 0 0 va
                                        access is_el0).1.1) ([], 0)).2 ipa access).1)
                _ Hflat) as [H _].
    destruct (fold_left (Walker.add_final_event _) _ _); exact H.
Qed.

(** C7. Within one walk the event identifiers of the flattened list are
    1, 2, ..., N in list order, where N is the reported number of memory
    accesses; in particular they increase strictly along the list. *)
Theorem walk_event_ids p va access is_el0 :
  let r := Walker.walk p va access is_el0 in
  map Walker.event_id (Walker.events r)
    = map Z.of_nat (seq 1 (length (Walker.events r)))
  /\ Walker.total_memory_accesses r = Z.of_nat (length (Walker.events r))
  /\ (forall i j ei ej,
        (i < j)%nat ->
        Walker.events r !! i = Some ei ->
        Walker.events r !! j = Some ej ->
        Walker.event_id ei < Walker.event_id ej).
Proof.
  pose proof (Walker_walk_numbered p va access is_el0) as H. cbv zeta in *.
  destruct H as [Hids Hn]. cbn [fst snd] in *.
  split; [exact Hids|]. split; [exact Hn|].
  intros i j ei ej Hij Hi Hj.
  apply (numbered_increasing
           (Walker.events (Walker.walk p va access is_el0),
            Walker.total_memory_accesses (Walker.walk p va access is_el0))
           i j ei ej); [split|..]; assumption.
Qed.

(** The first two events of the happy path. *)
Lemma walk_event_ids_witness :
  exists ei ej,
    (0 < 1)%nat
    /\ Walker.events (Walker.walk Scenario.happy_walker Scenario.happy_va Faults.READ true)
         !! 0%nat = Some ei
    /\ Walker.events (Walker.walk Scenario.happy_walker Scenario.happy_va Faults.READ true)
         !! 1%nat = Some ej
    /\ Walker.event_id ei < Walker.event_id ej.
Proof.
  destruct (Walker.events (Walker.walk Scenario.happy_walker Scenario.happy_va
                             Faults.READ true) !! 0%nat) as [ei|] eqn:Ei;
    [|vm_compute in Ei; discriminate].
  destruct (Walker.events (Walker.walk Scenario.happy_walker Scenario.happy_va
                             Faults.READ true) !! 1%nat) as [ej|] eqn:Ej;
    [|vm_compute in Ej; discriminate].
  exists ei, ej. split; [lia|]. split; [reflexivity|]. split; [reflexivity|].
  exact (proj2 (proj2 (walk_event_ids Scenario.happy_walker Scenario.happy_va
                         Faults.READ true)) 0%nat 1%nat ei ej ltac:(lia) Ei Ej).
Defined.

Lemma Walker_walk_length p va access is_el0 :
  0 <= Registers.sl0 (Registers.vtcr_el2 (Walker.register_state p)) ->
  (length (Walker.events (Walker.walk p va access is_el0)) <= 24)%nat.
Proof.
  intros Hsl0.
  assert (Hs2 : 0 <= Stage2.starting_level
                       (Stage1.stage2_walker (Walker.stage1_walker p va)))
    by exact Hsl0.
  destruct (Walker_walk_cases p va access is_el0) as [_ H]. cbv zeta in *.
  pose proof (flatten_stage1_numbered
    (Stage1.events (Stage1.walk (Walker.stage1_walker p va) 0 0 va access is_el0).1.1))
    as [Hflat Hlen].
  destruct (Stage1_walk_from_events (Walker.stage1_walker p va) va access is_el0
              (Z.to_nat (4 - Stage1.starting_level (Walker.stage1_walker p va)))
              (Stage1.starting_level (Walker.stage1_walker p va))
              (Stage1.initial_state (Walker.stage1_walker p va) 0 0)
              Hs2 ltac:(constructor)) as [Hnested Hcount].
  fold (Stage1.walk (Walker.stage1_walker p va) 0 0 va access is_el0) in Hnested, Hcount.
  apply (nested_sum_bound 4) in Hnested.
  pose proof (starting_level_range
                (Registers.tcr_el1 (Walker.register_state p)) (Address.uses_ttbr1 va))
    as Hs1.
  change (Registers.starting_level _ _)
    with (Stage1.starting_level (Walker.stage1_walker p va)) in Hs1.
  cbn [length Stage1.initial_state Stage1.events_so_far] in Hcount.
  destruct H as [(_ & _ & -> & _) | (_ & ipa & _ & -> & _)].
  - lia.
  - destruct (flatten_final_numbered (Address.value ipa)
                (Stage2.events (Stage2.walk (Walker.stage2_walker p)
                   (fold_left Walker.add_s1_event
                      (Stage1.events (Stage1.walk (Walker.stage1_walker p va) 0 0 va
                                        access is_el0).1.1) ([], 0)).2 ipa access).1)
                _ Hflat) as [_ Hfinal].
    rewrite Hfinal.
    pose proof (Stage2_walk_length (Walker.stage2_walker p) ipa
                  (fold_left Walker.add_s1_event
                     (Stage1.events (Stage1.walk (Walker.stage1_walker p va) 0 0 va
                                       access is_el0).1.1) ([], 0)).2 access Hsl0).
    lia.
Qed.

(** C1 (as amended). When the stage-2 walks start at level 0 or later, as
    they do for the 4 KB granule with 48-bit VA and IPA, one walk emits at
    most 4 * (4 + 1) + 4 = 24 events, whether it succeeds or fails, and
    reports their number; the happy path reports 24. *)
Theorem walk_event_bound :
  (forall p va access is_el0,
     0 <= Registers.sl0 (Registers.vtcr_el2 (Walker.register_state p)) ->
     Walker.total_memory_accesses (Walker.walk p va access is_el0)
       = Z.of_nat (length (Walker.events (Walker.walk p va access is_el0)))
     /\ Walker.total_memory_accesses (Walker.walk p va access is_el0) <= 24)
  /\ Walker.status (Walker.walk Scenario.happy_walker Scenario.happy_va Faults.READ true)
     = Walker.SUCCESS
  /\ Walker.total_memory_accesses
       (Walker.walk Scenario.happy_walker Scenario.happy_va Faults.READ true) = 24.
Proof.
  split; [|split; vm_compute; reflexivity].
  intros p va access is_el0 Hsl0.
  pose proof (Walker_walk_numbered p va access is_el0) as [_ Hn].
  pose proof (Walker_walk_length p va access is_el0 Hsl0) as Hlen.
  cbn [fst snd] in Hn. split; [exact Hn | lia].
Qed.

(** The bound on the happy path. *)
Lemma walk_event_bound_witness :
  0 <= Registers.sl0 (Registers.vtcr_el2 (Walker.register_state Scenario.happy_walker))
  /\ Walker.total_memory_accesses
       (Walker.walk Scenario.happy_walker Scenario.happy_va Faults.READ true) <= 24.
Proof.
  assert (H : 0 <= Registers.sl0
                     (Registers.vtcr_el2 (Walker.register_state Scenario.happy_walker)))
    by (vm_compute; discriminate).
  split; [exact H|].
  exact (proj2 (proj1 walk_event_bound Scenario.happy_walker Scenario.happy_va
                  Faults.READ true H)).
Defined.

(** C1, as stated: the happy path, with the 4 KB granule, 48-bit
    VA and IPA, TABLE at L0, L1 and L2 and PAGE at L3, succeeds with more
    than 20 events. *)
Lemma walk_event_bound_counterexample :
  let r := Walker.walk Scenario.happy_walker Scenario.happy_va Faults.READ true in
  Address.granule Scenario.happy_va = Granule.GRANULE_4KB
  /\ Registers.va_bits_t0 (Registers.tcr_el1 (Walker.register_state Scenario.happy_walker)) = 48
  /\ Registers.ipa_bits (Registers.vtcr_el2 (Walker.register_state Scenario.happy_walker)) = 48
  /\ Walker.status r = Walker.SUCCESS
  /\ map Walker.result (filter (fun e => Walker.stage e =? 1) (Walker.events r))
     = [Descriptor.TABLE; Descriptor.TABLE; Descriptor.TABLE; Descriptor.PAGE]
  /\ length (Walker.events r) = 24%nat
  /\ Walker.total_memory_accesses r = 24
  /\ ~ (Walker.total_memory_accesses r <= 20).
Proof.
  cbv zeta. repeat split; try (vm_compute; reflexivity).
  vm_compute. intros H. apply H. reflexivity.
Qed.

(** ** Faults and status *)

(** The stage-2 walk looks at bits [1:0] and [47:12] of a word only. *)
Lemma land_without_bits v b m :
  Z.land m b = 0 -> Z.land v m = Z.land (Z.ldiff v b) m.
Proof.
  intros H. apply Z.bits_inj'. intros n Hn.
  rewrite !Z.land_spec, Z.ldiff_spec.
  assert (Hb : Z.testbit m n && Z.testbit b n = false)
    by (rewrite <- Z.land_spec, H; apply Z.bits_0).
  destruct (Z.testbit v n), (Z.testbit m n), (Z.testbit b n);
    try reflexivity; discriminate.
Qed.

Lemma same_but_s2_permissions_land v v' m :
  Z.land m s2_permission_bits = 0 ->
  same_but_s2_permissions v v' -> Z.land v m = Z.land v' m.
Proof.
  intros Hm H. rewrite (land_without_bits v _ m Hm), (land_without_bits v' _ m Hm).
  unfold same_but_s2_permissions in H. rewrite H. reflexivity.
Qed.

Lemma Stage2_walk_level_permissions w w' ipa lvl st st' :
  Stage2_same_but_permissions w w' ->
  Stage2_state_same st st' ->
  match Stage2.walk_level w ipa lvl st, Stage2.walk_level w' ipa lvl st' with
  | Stage2.Return r c, Stage2.Return r' c' => Stage2_result_same r r' /\ c = c'
  | Stage2.Continue s, Stage2.Continue s' => Stage2_state_same s s'
  | _, _ => False
  end.
Proof.
  intros (_ & _ & Hw) (Hpa & Hc & Hev).
  unfold Stage2.walk_level. rewrite <- Hpa, <- Hc.
  specialize (Hw (Address.calculate_descriptor_address (Stage2.current_table_pa st)
                    (Address.get_index ipa lvl) 8)).
  generalize dependent (Stage2._read_descriptor w'
    (Address.calculate_descriptor_address (Stage2.current_table_pa st)
       (Address.get_index ipa lvl) 8)).
  generalize dependent (Stage2._read_descriptor w
    (Address.calculate_descriptor_address (Stage2.current_table_pa st)
       (Address.get_index ipa lvl) 8)).
  intros v v' Hv.
  pose proof (same_but_s2_permissions_land v v' 1 eq_refl Hv) as E1.
  pose proof (same_but_s2_permissions_land v v' 3 eq_refl Hv) as E3.
  pose proof (same_but_s2_permissions_land v v' 0x0000FFFFFFFFF000 eq_refl Hv) as Ea.
  pose proof (same_but_s2_permissions_land v v' 0x0000FFFFC0000000 eq_refl Hv) as Eb.
  pose proof (same_but_s2_permissions_land v v' 0x0000FFFFFFE00000 eq_refl Hv) as Ec.
  unfold Descriptor.descriptor_type, Descriptor.is_valid, Descriptor.is_table,
    Descriptor.is_page, Descriptor.is_block, Descriptor.next_table_address,
    Descriptor.block_output_address, Descriptor.page_output_address.
  cbv zeta.
  cbn [Descriptor.value Descriptor.level Descriptor.create_descriptor].
  rewrite E1, E3, Ea, Eb, Ec.
  unfold Stage2_result_same, Stage2_state_same, Stage2_event_same.
  split_tests;
    cbn [Stage2.success Stage2.input_ipa Stage2.output_pa Stage2.fault Stage2.events
         Stage2.current_table_pa Stage2.event_counter Stage2.events_so_far
         Stage2.with_output];
    repeat match goal with
           | |- _ /\ _ => split
           end;
    try reflexivity; try exact Hev;
    (apply Forall2_app; [exact Hev|]);
    (constructor; [|constructor]);
    cbn [Stage2.event_id Stage2.level Stage2.table_base_pa Stage2.index
         Stage2.descriptor_address Stage2.descriptor_value Stage2.descriptor_type
         Stage2.output_address Stage2.description];
    repeat split; exact Hv.
Qed.

Lemma Stage2_walk_from_permissions w w' ipa n : forall lvl st st',
  Stage2_same_but_permissions w w' ->
  Stage2_state_same st st' ->
  Stage2_result_same (Stage2.walk_from w ipa n lvl st).1
                     (Stage2.walk_from w' ipa n lvl st').1
  /\ (Stage2.walk_from w ipa n lvl st).2 = (Stage2.walk_from w' ipa n lvl st').2.
Proof.
  induction n as [|n IH]; intros lvl st st' Hw Hst.
  - destruct Hst as (Hpa & Hc & Hev). cbn. unfold Stage2_result_same. cbn.
    repeat split; assumption.
  - cbn [Stage2.walk_from].
    pose proof (Stage2_walk_level_permissions w w' ipa lvl st st' Hw Hst) as H.
    destruct (Stage2.walk_level w ipa lvl st) as [s|r c],
             (Stage2.walk_level w' ipa lvl st') as [s'|r' c']; try contradiction.
    + apply IH; assumption.
    + exact H.
Qed.

(** C9. A stage-2 walk, nested or final, only ever returns TRANSLATION
    faults.  A walk returns no ACCESS_FLAG and no ADDRESS_SIZE fault, and a
    PERMISSION fault only from stage 1, at the leaf that the last stage-1
    event records.  The stage-2 walk consults neither S2AP nor XN nor the
    access type: on tables whose words differ in those bits at most, and
    for any two access types, it returns the same success, output, fault
    and events, up to those bits of the recorded words. *)
Theorem fault_kinds :
  (forall w counter ipa access f,
     Stage2.fault (Stage2.walk w counter ipa access).1 = Some f ->
     Faults.fault_type f = Faults.TRANSLATION_FAULT)
  /\ (forall w c c2 va access is_el0 f,
        Stage1.fault (Stage1.walk w c c2 va access is_el0).1.1 = Some f ->
        Faults.fault_type f = Faults.TRANSLATION_FAULT
        \/ (Faults.fault_type f = Faults.PERMISSION_FAULT /\ Faults.stage f = 1))
  /\ (forall p va access is_el0 f,
        Walker.fault (Walker.walk p va access is_el0) = Some f ->
        Faults.fault_type f <> Faults.ACCESS_FLAG_FAULT
        /\ Faults.fault_type f <> Faults.ADDRESS_SIZE_FAULT
        /\ (Faults.fault_type f = Faults.TRANSLATION_FAULT
            \/ (Faults.fault_type f = Faults.PERMISSION_FAULT
                /\ Faults.stage f = 1
                /\ Walker.status (Walker.walk p va access is_el0) = Walker.S1_FAULT
                /\ exists s1 leaf,
                     Walker.s1_result (Walker.walk p va access is_el0) = Some s1
                     /\ last (Stage1.events s1) = Some leaf
                     /\ Stage1.level leaf = Faults.level f
                     /\ Stage1_is_leaf leaf)))
  /\ (forall w w' counter ipa access access',
        Stage2_same_but_permissions w w' ->
        Stage2_result_same (Stage2.walk w counter ipa access).1
                           (Stage2.walk w' counter ipa access').1).
Proof.
  assert (Hs2 : forall w counter ipa access f,
            Stage2.fault (Stage2.walk w counter ipa access).1 = Some f ->
            Faults.fault_type f = Faults.TRANSLATION_FAULT).
  { intros w counter ipa access f Hf.
    pose proof (Stage2_walk_ok w ipa counter access) as H.
    unfold Stage2_result_ok in H.
    destruct (Stage2.success _).
    - destruct H as [_ H]. congruence.
    - destruct H as (_ & f' & Hf' & Ht & _). congruence. }
  split; [exact Hs2|].
  split.
  { intros w c c2 va access is_el0 f Hf.
    pose proof (Stage1_walk_ok w va access is_el0 c c2) as H.
    unfold Stage1_result_ok in H.
    destruct (Stage1.success _).
    - destruct H as (_ & _ & H). congruence.
    - destruct H as (_ & _ & f' & Hf' & Hkind).
      assert (f' = f) as -> by congruence.
      destruct Hkind as [Ht | (Hp & Hstage & _)]; auto. }
  split.
  2: { intros w w' counter ipa access access' Hw. unfold Stage2.walk.
       destruct Hw as (Hb & Hl & Hr). rewrite <- Hb, <- Hl.
       apply Stage2_walk_from_permissions.
       - repeat split; assumption.
       - repeat split. constructor. }
  intros p va access is_el0 f Hf.
  assert (H : Faults.fault_type f = Faults.TRANSLATION_FAULT
              \/ (Faults.fault_type f = Faults.PERMISSION_FAULT
                  /\ Faults.stage f = 1
                  /\ Walker.status (Walker.walk p va access is_el0) = Walker.S1_FAULT
                  /\ exists s1 leaf,
                       Walker.s1_result (Walker.walk p va access is_el0) = Some s1
                       /\ last (Stage1.events s1) = Some leaf
                       /\ Stage1.level leaf = Faults.level f
                       /\ Stage1_is_leaf leaf)).
  { destruct (Walker_walk_cases p va access is_el0) as [Hs1 H]. cbv zeta in *.
    pose proof (Stage1_walk_ok (Walker.stage1_walker p va) va access is_el0 0 0) as Hok.
    unfold Stage1_result_ok in Hok.
    destruct H as [(Hfail & Hst & _ & _ & Hfault & _)
                  | (_ & ipa & _ & _ & _ & _ & _ & _
                     & [(_ & _ & Hfault & _) | (_ & _ & Hfault & _)])].
    - rewrite Hfail in Hok. destruct Hok as (_ & _ & f' & Hf' & Hkind).
      assert (f' = f) as -> by congruence.
      destruct Hkind as [Ht | (Hp & Hstage & leaf & Hlast & Hlvl & Hleaf)];
        [left; exact Ht | right].
      repeat split; try assumption. eauto 10.
    - left. rewrite Hfault in Hf. eapply Hs2, Hf.
    - congruence. }
  split; [|split; [|exact H]];
    destruct H as [H | (H & _)]; rewrite H; discriminate.
Qed.

(** The fault of the final stage-2 walk without the page of the address,
    the fault of the denied EL0 write, and the final stage-2 walk over a
    page with S2AP = 0b00 and XN = 1, which translates a write like the
    page with S2AP = 0b11 does. *)
Lemma fault_kinds_witness :
  (exists f,
     Stage2.fault
       (Stage2.walk Scenario.without_l1_table_stage2 0
          (Address.IntermediatePhysicalAddress 0x4002000) Faults.READ).1 = Some f
     /\ Faults.fault_type f = Faults.TRANSLATION_FAULT)
  /\ (exists f,
        Walker.fault
          (Walker.walk (Scenario.walker_of Scenario.stage1_read_only Scenario.stage2_identity)
             Scenario.happy_va Faults.WRITE true) = Some f
        /\ Faults.fault_type f <> Faults.ACCESS_FLAG_FAULT
        /\ Faults.fault_type f <> Faults.ADDRESS_SIZE_FAULT
        /\ Faults.fault_type f = Faults.PERMISSION_FAULT
        /\ Faults.stage f = 1)
  /\ (let ipa := Address.IntermediatePhysicalAddress 0x50000030 in
      let r := (Stage2.walk Scenario.identity_stage2 0 ipa Faults.READ).1 in
      let r' := (Stage2.walk Scenario.no_access_stage2 0 ipa Faults.WRITE).1 in
      Stage2_same_but_permissions Scenario.identity_stage2 Scenario.no_access_stage2
      /\ (fun e => Descriptor.ap (Stage2_desc e)) <$> last (Stage2.events r') = Some 0
      /\ (fun e => Descriptor.uxn (Stage2_desc e)) <$> last (Stage2.events r') = Some true
      /\ Faults.check_stage2_permission Faults.WRITE 0 true = false
      /\ Stage2.success r' = true
      /\ Stage2.output_pa r' = Some (Address.PhysicalAddress 0x50000030)
      /\ Stage2.fault r' = None
      /\ Stage2_result_same r r').
Proof.
  split; [|split].
  - destruct (Stage2.fault
                (Stage2.walk Scenario.without_l1_table_stage2 0
                   (Address.IntermediatePhysicalAddress 0x4002000) Faults.READ).1)
      as [f|] eqn:E; [|vm_compute in E; discriminate].
    exists f. split; [reflexivity|].
    exact (proj1 fault_kinds Scenario.without_l1_table_stage2 0
             (Address.IntermediatePhysicalAddress 0x4002000) Faults.READ f E).
  - destruct (Walker.fault
                (Walker.walk
                   (Scenario.walker_of Scenario.stage1_read_only Scenario.stage2_identity)
                   Scenario.happy_va Faults.WRITE true)) as [f|] eqn:E;
      [|vm_compute in E; discriminate].
    exists f. split; [reflexivity|].
    destruct (proj1 (proj2 (proj2 fault_kinds))
                (Scenario.walker_of Scenario.stage1_read_only Scenario.stage2_identity)
                Scenario.happy_va Faults.WRITE true f E) as (Ha & Hb & _).
    assert (Hf : Some f = Walker.fault
                   (Walker.walk
                      (Scenario.walker_of Scenario.stage1_read_only Scenario.stage2_identity)
                      Scenario.happy_va Faults.WRITE true)) by (symmetry; exact E).
    vm_compute in Hf. injection Hf as ->.
    repeat split; assumption || reflexivity.
  - cbv zeta.
    assert (Hw : Stage2_same_but_permissions
                   Scenario.identity_stage2 Scenario.no_access_stage2).
    { split; [reflexivity|]. split; [reflexivity|].
      intros a. unfold same_but_s2_permissions, Stage2._read_descriptor.
      change (Stage2.translation_tables Scenario.identity_stage2)
        with Scenario.stage2_identity.
      change (Stage2.translation_tables Scenario.no_access_stage2)
        with Scenario.stage2_no_access.
      unfold Scenario.stage2_no_access.
      destruct (decide (a = 0x100006000)) as [-> | Hne].
      - vm_compute. reflexivity.
      - rewrite lookup_insert_ne by congruence. reflexivity. }
    pose proof (proj2 (proj2 (proj2 fault_kinds))
                  Scenario.identity_stage2 Scenario.no_access_stage2 0
                  (Address.IntermediatePhysicalAddress 0x50000030)
                  Faults.READ Faults.WRITE Hw) as Hsame.
    destruct Hsame as (Hs & Hi & Ho & Hf & He).
    assert (Hok : Stage2.success
                    (Stage2.walk Scenario.identity_stage2 0
                       (Address.IntermediatePhysicalAddress 0x50000030) Faults.READ).1
                  = true) by (vm_compute; reflexivity).
    assert (Hout : Stage2.output_pa
                     (Stage2.walk Scenario.identity_stage2 0
                        (Address.IntermediatePhysicalAddress 0x50000030) Faults.READ).1
                   = Some (Address.PhysicalAddress 0x50000030))
      by (vm_compute; reflexivity).
    assert (Hnone : Stage2.fault
                      (Stage2.walk Scenario.identity_stage2 0
                         (Address.IntermediatePhysicalAddress 0x50000030) Faults.READ).1
                    = None) by (vm_compute; reflexivity).
    split; [exact Hw|].
    split; [vm_compute; reflexivity|].
    split; [vm_compute; reflexivity|].
    split; [reflexivity|].
    split; [rewrite <- Hs; exact Hok|].
    split; [rewrite <- Ho; exact Hout|].
    split; [rewrite <- Hf; exact Hnone|].
    repeat split; assumption.
Defined.

(** C10. When the final stage-2 walk faults, the result carries the
    address and the combined permissions of stage 1 and no physical
    address; when the stage-1 walk fails, the result carries neither an
    intermediate address, a physical address nor permissions. *)
Theorem faulted_result_fields p va access is_el0 :
  let s1 := (Stage1.walk (Walker.stage1_walker p va) 0 0 va access is_el0).1.1 in
  let r := Walker.walk p va access is_el0 in
  Walker.s1_result r = Some s1
  /\ (Walker.status r = Walker.S2_FINAL_FAULT ->
      Stage1.success s1 = true
      /\ is_Some (Walker.ipa r)
      /\ Walker.ipa r = Stage1.output_ipa s1
      /\ is_Some (Walker.final_permissions r)
      /\ Walker.final_permissions r = Stage1.final_permissions s1
      /\ Walker.output_pa r = None)
  /\ (Stage1.success s1 = false ->
      Walker.status r = Walker.S1_FAULT
      /\ Walker.ipa r = None
      /\ Walker.output_pa r = None
      /\ Walker.final_permissions r = None).
Proof.
  destruct (Walker_walk_cases p va access is_el0) as [Hs1 H]. cbv zeta in *.
  pose proof (Stage1_walk_ok (Walker.stage1_walker p va) va access is_el0 0 0) as Hok.
  unfold Stage1_result_ok in Hok.
  split; [exact Hs1|].
  destruct H as [(Hfail & Hst & _ & _ & _ & Hipa & Hpa & Hperm)
                | (Hsucc & ipa & Hout & _ & _ & Hipa & Hperm & _
                   & [(_ & Hst & _ & Hpa) | (_ & Hst & _ & Hpa)])].
  - split; [rewrite Hst; discriminate|]. intros _. auto.
  - rewrite Hsucc in Hok. destruct Hok as (_ & Hp & _).
    split; [|rewrite Hsucc; discriminate]. intros _.
    rewrite Hipa, Hperm, Hout. repeat split; try assumption; eauto.
  - split; [rewrite Hst; discriminate | rewrite Hsucc; discriminate].
Qed.

(** The walk whose final stage-2 walk faults, and the walk whose stage-1
    walk meets the missing L2 descriptor. *)
Lemma faulted_result_fields_witness :
  (let r := Walker.walk (Scenario.walker_of Scenario.stage1_happy Scenario.stage2_without_final)
              Scenario.happy_va Faults.READ true in
   Walker.status r = Walker.S2_FINAL_FAULT
   /\ is_Some (Walker.ipa r)
   /\ is_Some (Walker.final_permissions r)
   /\ Walker.output_pa r = None)
  /\ (let p := Scenario.walker_of Scenario.stage1_without_l2 Scenario.stage2_identity in
      let r := Walker.walk p Scenario.happy_va Faults.READ true in
      Stage1.success
        (Stage1.walk (Walker.stage1_walker p Scenario.happy_va) 0 0
           Scenario.happy_va Faults.READ true).1.1 = false
      /\ Walker.status r = Walker.S1_FAULT
      /\ Walker.ipa r = None
      /\ Walker.output_pa r = None
      /\ Walker.final_permissions r = None).
Proof.
  cbv zeta. split.
  - assert (H : Walker.status
                  (Walker.walk
                     (Scenario.walker_of Scenario.stage1_happy Scenario.stage2_without_final)
                     Scenario.happy_va Faults.READ true) = Walker.S2_FINAL_FAULT)
      by (vm_compute; reflexivity).
    split; [exact H|].
    destruct (proj1 (proj2 (faulted_result_fields
                (Scenario.walker_of Scenario.stage1_happy Scenario.stage2_without_final)
                Scenario.happy_va Faults.READ true)) H)
      as (_ & Hi & _ & Hp & _ & Ho).
    repeat split; assumption.
  - assert (H : Stage1.success
                  (Stage1.walk
                     (Walker.stage1_walker
                        (Scenario.walker_of Scenario.stage1_without_l2 Scenario.stage2_identity)
                        Scenario.happy_va) 0 0 Scenario.happy_va Faults.READ true).1.1
                = false) by (vm_compute; reflexivity).
    split; [exact H|].
    exact (proj2 (proj2 (faulted_result_fields
                (Scenario.walker_of Scenario.stage1_without_l2 Scenario.stage2_identity)
                Scenario.happy_va Faults.READ true)) H).
Defined.

(** C2. With the stage-2 page of the L1 stage-1 table missing, the
    stage-1 walk fails on a nested stage-2 fault (fault.stage = 2), and the
    aggregate status is S1_FAULT; no walk has the status S2_FAULT. *)
Theorem nested_stage2_fault_status :
  (let r := Walker.walk
              (Scenario.walker_of Scenario.stage1_happy Scenario.stage2_without_l1_table)
              Scenario.happy_va Faults.READ true in
   Walker.fault r =
     Some {| Faults.fault_type := Faults.TRANSLATION_FAULT;
             Faults.stage := 2;
             Faults.level := 3;
             Faults.address := 0x4002000;
             Faults.access_type := None;
             Faults.message := Faults.MsgInvalidDescriptor 2 3;
             Faults.far_el1 := None;
             Faults.far_el2 := Some 0x4002000 |}
   /\ Walker.status r = Walker.S1_FAULT)
  /\ (forall p va access is_el0,
        Walker.status (Walker.walk p va access is_el0) <> Walker.S2_FAULT).
Proof.
  split; [cbv zeta; split; vm_compute; reflexivity|].
  intros p va access is_el0.
  destruct (Walker_walk_cases p va access is_el0) as [_ H]. cbv zeta in *.
  destruct H as [(_ & -> & _)
                | (_ & ipa & _ & _ & _ & _ & _ & _
                   & [(_ & -> & _) | (_ & -> & _)])]; discriminate.
Qed.

(** * Further properties of the code *)

(** ** Slicing an address (models/granule.py) *)

(** The bits of a field cut out of an address and shifted back in place. *)
Lemma testbit_field a k w n :
  0 <= k -> 0 <= w -> 0 <= n ->
  Z.testbit (Z.shiftl (Z.land (Z.shiftr a k) (Z.ones w)) k) n
  = Z.testbit a n && (k <=? n) && (n <? k + w).
Proof.
  intros Hk Hw Hn. rewrite Z.shiftl_spec by lia.
  destruct (Z.leb_spec k n).
  - rewrite Z.land_spec, Z.shiftr_spec, Z.testbit_ones_nonneg by lia.
    replace (n - k + k) with n by lia.
    destruct (Z.ltb_spec (n - k) w), (Z.ltb_spec n (k + w)); try lia;
      destruct (Z.testbit a n); reflexivity.
  - rewrite Z.testbit_neg_r by lia. rewrite andb_false_r. reflexivity.
Qed.

Lemma testbit_low a w n :
  0 <= w -> 0 <= n ->
  Z.testbit (Z.land a (Z.ones w)) n = Z.testbit a n && (n <? w).
Proof.
  intros Hw Hn. rewrite Z.land_spec, Z.testbit_ones_nonneg by lia. reflexivity.
Qed.

Lemma calculate_index_4KB a l :
  0 <= l <= 3 ->
  Granule.calculate_index a l Granule.GRANULE_4KB_CONFIG
  = Z.land (Z.shiftr a (39 - 9 * l)) (Z.ones 9).
Proof.
  intros H. assert (l = 0 \/ l = 1 \/ l = 2 \/ l = 3) as [-> | [-> | [-> | ->]]] by lia;
    reflexivity.
Qed.

(** X1. Under the 4 KB granule the four table indices and the page offset
    of an address, put back at their bit positions, give the low 48 bits of
    the address. *)
Theorem index_round_trip_4KB (a : Z) :
  let c := Granule.GRANULE_4KB_CONFIG in
  Z.lor (Z.shiftl (Granule.calculate_index a 0 c) 39)
    (Z.lor (Z.shiftl (Granule.calculate_index a 1 c) 30)
       (Z.lor (Z.shiftl (Granule.calculate_index a 2 c) 21)
          (Z.lor (Z.shiftl (Granule.calculate_index a 3 c) 12)
             (Granule.calculate_page_offset a c))))
  = Z.land a (Z.ones 48).
Proof.
  cbv zeta. rewrite !calculate_index_4KB by lia.
  change (Granule.calculate_page_offset a Granule.GRANULE_4KB_CONFIG)
    with (Z.land a (Z.ones 12)).
  change (39 - 9 * 0) with 39. change (39 - 9 * 1) with 30.
  change (39 - 9 * 2) with 21. change (39 - 9 * 3) with 12.
  apply Z.bits_inj'. intros n Hn.
  rewrite !Z.lor_spec, !testbit_field, !testbit_low by lia.
  destruct (Z.testbit a n); cbn [andb orb]; [|reflexivity].
  destruct (Z.leb_spec 39 n), (Z.leb_spec 30 n), (Z.leb_spec 21 n),
    (Z.leb_spec 12 n), (Z.ltb_spec n 48), (Z.ltb_spec n (39 + 9)),
    (Z.ltb_spec n (30 + 9)), (Z.ltb_spec n (21 + 9)), (Z.ltb_spec n (12 + 9)),
    (Z.ltb_spec n 12); try lia; reflexivity.
Qed.

Lemma land_ones_bound a w : 0 <= w -> 0 <= Z.land a (Z.ones w) < 2 ^ w.
Proof.
  intros Hw. rewrite Z.land_ones by assumption. apply Z.mod_pos_bound. lia.
Qed.

Lemma get_index_mask_ones w : Granule.get_index_mask w = Z.ones w.
Proof. unfold Granule.get_index_mask, Z.ones. lia. Qed.

Lemma calculate_index_bound a l c :
  1 <= Granule.index_bits c ->
  0 <= Granule.calculate_index a l c < 2 ^ Granule.index_bits c.
Proof.
  intros Hw. unfold Granule.calculate_index.
  assert (H2 : 2 ^ 1 <= 2 ^ Granule.index_bits c)
    by (apply Z.pow_le_mono_r; lia).
  change (2 ^ 1) with 2 in H2.
  destruct (_ || _); [lia|].
  destruct (_ && _).
  - pose proof (land_ones_bound
                  (Z.shiftr a (nth (Z.to_nat l) (Granule.level_shifts c) 0)) 1
                  ltac:(lia)) as Hb.
    change (Z.ones 1) with 1 in Hb. change (2 ^ 1) with 2 in Hb. lia.
  - rewrite get_index_mask_ones. apply land_ones_bound. lia.
Qed.

(** X2. For each supported granule every index, at any level and of any
    address, lies within the table: it is below the number of entries, and
    the 8-byte descriptor it selects ends within the granule-sized table. *)
Theorem calculate_index_in_table (granule_kb a l : Z) (c : Granule.GranuleConfig) :
  Granule.get_granule_config granule_kb = Some c ->
  0 <= Granule.calculate_index a l c < Granule.entries_per_table c
  /\ 8 * Granule.calculate_index a l c + 8 <= Granule.page_size c
  /\ Granule.page_size c = 1024 * granule_kb.
Proof.
  unfold Granule.get_granule_config. intros H.
  assert (Hc : (c = Granule.GRANULE_4KB_CONFIG /\ granule_kb = 4)
               \/ (c = Granule.GRANULE_16KB_CONFIG /\ granule_kb = 16)
               \/ (c = Granule.GRANULE_64KB_CONFIG /\ granule_kb = 64)).
  { destruct (Z.eqb_spec granule_kb 4); [left; split; congruence|].
    destruct (Z.eqb_spec granule_kb 16); [right; left; split; congruence|].
    destruct (Z.eqb_spec granule_kb 64); [right; right; split; congruence|].
    discriminate. }
  destruct Hc as [[-> ->] | [[-> ->] | [-> ->]]].
  - pose proof (calculate_index_bound a l Granule.GRANULE_4KB_CONFIG ltac:(cbn; lia)) as Hb.
    change (2 ^ Granule.index_bits Granule.GRANULE_4KB_CONFIG) with 512 in Hb.
    cbn [Granule.entries_per_table Granule.page_size Granule.GRANULE_4KB_CONFIG]. lia.
  - pose proof (calculate_index_bound a l Granule.GRANULE_16KB_CONFIG ltac:(cbn; lia)) as Hb.
    change (2 ^ Granule.index_bits Granule.GRANULE_16KB_CONFIG) with 2048 in Hb.
    cbn [Granule.entries_per_table Granule.page_size Granule.GRANULE_16KB_CONFIG]. lia.
  - pose proof (calculate_index_bound a l Granule.GRANULE_64KB_CONFIG ltac:(cbn; lia)) as Hb.
    change (2 ^ Granule.index_bits Granule.GRANULE_64KB_CONFIG) with 8192 in Hb.
    cbn [Granule.entries_per_table Granule.page_size Granule.GRANULE_64KB_CONFIG]. lia.
Qed.

(** The 16 KB granule and the top level, whose index is a single bit. *)
Lemma calculate_index_in_table_witness :
  Granule.get_granule_config 16 = Some Granule.GRANULE_16KB_CONFIG
  /\ 0 <= Granule.calculate_index 0xFFFFFFFFFFFF 0 Granule.GRANULE_16KB_CONFIG < 2048.
Proof.
  split; [reflexivity|].
  exact (proj1 (calculate_index_in_table 16 0xFFFFFFFFFFFF 0
                  Granule.GRANULE_16KB_CONFIG eq_refl)).
Defined.

(** ** Block offsets (models/granule.py) *)

Lemma field_join a k w :
  0 <= k -> 0 <= w ->
  Z.lor (Z.shiftl (Z.land (Z.shiftr a k) (Z.ones w)) k) (Z.land a (Z.ones k))
  = Z.land a (Z.ones (k + w)).
Proof.
  intros Hk Hw. apply Z.bits_inj'. intros n Hn.
  rewrite Z.lor_spec, testbit_field, !testbit_low by lia.
  destruct (Z.testbit a n); cbn [andb orb]; [|reflexivity].
  destruct (Z.leb_spec k n), (Z.ltb_spec n (k + w)), (Z.ltb_spec n k); try lia;
    reflexivity.
Qed.

(** X23. The block offset masks agree with the index positions.  For each
    supported granule and each level that has a block size, the mask covers
    exactly the bits below the index of that level, so the index of the
    level, put back at its position, and the block offset give the low bits
    of the address up to the top of that index. *)
Theorem block_offset_below_index (granule_kb lvl mask a : Z) (c : Granule.GranuleConfig) :
  Granule.get_granule_config granule_kb = Some c ->
  Granule.block_offsets c !! lvl = Some mask ->
  let shift := nth (Z.to_nat lvl) (Granule.level_shifts c) 0 in
  Granule.min_level c <= lvl <= 2
  /\ mask = Z.ones shift
  /\ Granule.calculate_block_offset a lvl c = Z.land a (Z.ones shift)
  /\ Z.lor (Z.shiftl (Granule.calculate_index a lvl c) shift)
       (Granule.calculate_block_offset a lvl c)
     = Z.land a (Z.ones (shift + Granule.index_bits c)).
Proof.
  unfold Granule.get_granule_config. intros H Hm.
  assert (Hc : c = Granule.GRANULE_4KB_CONFIG
               \/ c = Granule.GRANULE_16KB_CONFIG
               \/ c = Granule.GRANULE_64KB_CONFIG).
  { destruct (granule_kb =? 4); [left; congruence|].
    destruct (granule_kb =? 16); [right; left; congruence|].
    destruct (granule_kb =? 64); [right; right; congruence|].
    discriminate. }
  assert (Hcases : (c = Granule.GRANULE_4KB_CONFIG /\ lvl = 1 /\ mask = Z.ones 30)
                   \/ (c = Granule.GRANULE_4KB_CONFIG /\ lvl = 2 /\ mask = Z.ones 21)
                   \/ (c = Granule.GRANULE_16KB_CONFIG /\ lvl = 2 /\ mask = Z.ones 25)
                   \/ (c = Granule.GRANULE_64KB_CONFIG /\ lvl = 2 /\ mask = Z.ones 29)).
  { destruct Hc as [-> | [-> | ->]];
      cbn [Granule.block_offsets Granule.GRANULE_4KB_CONFIG
           Granule.GRANULE_16KB_CONFIG Granule.GRANULE_64KB_CONFIG] in Hm;
      repeat (apply lookup_insert_Some in Hm as [[<- <-] | [_ Hm]]);
      try (rewrite lookup_empty in Hm; discriminate);
      auto 10. }
  clear H Hc.
  destruct Hcases as [(-> & -> & ->) | [(-> & -> & ->) | [(-> & -> & ->) | (-> & -> & ->)]]];
    cbv zeta; (split; [cbn; lia|]); (split; [reflexivity|]).
  - split; [reflexivity|]. exact (field_join a 30 9 ltac:(lia) ltac:(lia)).
  - split; [reflexivity|]. exact (field_join a 21 9 ltac:(lia) ltac:(lia)).
  - split; [reflexivity|]. exact (field_join a 25 11 ltac:(lia) ltac:(lia)).
  - split; [reflexivity|]. exact (field_join a 29 13 ltac:(lia) ltac:(lia)).
Qed.

(** The 2 MB block of the 4 KB granule. *)
Lemma block_offset_below_index_witness :
  Granule.get_granule_config 4 = Some Granule.GRANULE_4KB_CONFIG
  /\ Granule.block_offsets Granule.GRANULE_4KB_CONFIG !! 2 = Some 0x1FFFFF
  /\ Granule.calculate_block_offset 0x40215030 2 Granule.GRANULE_4KB_CONFIG
     = Z.land 0x40215030 (Z.ones 21).
Proof.
  assert (H : Granule.block_offsets Granule.GRANULE_4KB_CONFIG !! 2 = Some 0x1FFFFF)
    by reflexivity.
  split; [reflexivity|]. split; [exact H|].
  exact (proj1 (proj2 (proj2 (block_offset_below_index 4 2 0x1FFFFF 0x40215030
                                Granule.GRANULE_4KB_CONFIG eq_refl H)))).
Defined.

(** ** Building and decoding descriptors (models/descriptor.py) *)

Lemma small_testbit y w n :
  0 <= y < 2 ^ w -> 0 <= w -> w <= n -> Z.testbit y n = false.
Proof.
  intros Hy Hw Hn. rewrite <- (Z.mod_small y (2 ^ w)) by lia.
  apply Z.mod_pow2_bits_high. lia.
Qed.

(** A field of width [w] written at bit [j] does not show in a window that
    does not meet it, and is read back by the window it was written to. *)
Lemma extract_other y j w k m mw :
  m = Z.ones mw -> 0 <= y < 2 ^ w -> 0 <= j -> 0 <= w -> 0 <= k -> 0 <= mw ->
  j + w <= k \/ k + mw <= j ->
  Z.land (Z.shiftr (Z.shiftl y j) k) m = 0.
Proof.
  intros -> Hy Hj Hw Hk Hmw Hd. apply Z.bits_inj'. intros n Hn.
  rewrite Z.land_spec, Z.shiftr_spec, Z.shiftl_spec, Z.testbit_ones_nonneg, Z.bits_0
    by lia.
  destruct (Z.ltb_spec n mw); [|apply andb_false_r].
  rewrite andb_true_r.
  destruct (Z.lt_ge_cases (n + k - j) 0); [apply Z.testbit_neg_r; assumption|].
  apply (small_testbit y w); lia.
Qed.

Lemma extract_same y j m w :
  m = Z.ones w -> 0 <= y < 2 ^ w -> 0 <= j -> 0 <= w ->
  Z.land (Z.shiftr (Z.shiftl y j) j) m = y.
Proof.
  intros -> Hy Hj Hw. rewrite Z.shiftr_shiftl_l by lia.
  replace (j - j) with 0 by lia. rewrite Z.shiftl_0_r, Z.land_ones by lia.
  apply Z.mod_small. assumption.
Qed.

(** The address part of a descriptor is the field of width 36 at bit 12. *)
Lemma address_field a :
  Z.land a 0x0000FFFFFFFFF000
  = Z.shiftl (Z.land (Z.shiftr a 12) (Z.ones 36)) 12.
Proof.
  change 0x0000FFFFFFFFF000 with (Z.shiftl (Z.ones 36) 12).
  apply Z.bits_inj'. intros n Hn.
  rewrite testbit_field, Z.land_spec, Z.shiftl_spec by lia.
  destruct (Z.leb_spec 12 n).
  - rewrite Z.testbit_ones_nonneg by lia.
    destruct (Z.ltb_spec (n - 12) 36), (Z.ltb_spec n (12 + 36)); try lia;
      destruct (Z.testbit a n); reflexivity.
  - rewrite (Z.testbit_neg_r (Z.ones 36)) by lia.
    rewrite !andb_false_r. reflexivity.
Qed.

Lemma bool_field_bound (b : bool) : 0 <= (if b then 1 else 0) < 2 ^ 1.
Proof. destruct b; change (2 ^ 1) with 2; lia. Qed.

Lemma shareability_field_bound sh : 0 <= Descriptor.shareability_value sh < 2 ^ 2.
Proof. destruct sh; change (2 ^ 2) with 4; cbn; lia. Qed.

Lemma land_3_bound a : 0 <= Z.land a 3 < 2 ^ 2.
Proof. apply (land_ones_bound a 2). lia. Qed.

Lemma land_7_bound a : 0 <= Z.land a 7 < 2 ^ 3.
Proof. apply (land_ones_bound a 3). lia. Qed.

Lemma address_bits_bound a : 0 <= Z.land (Z.shiftr a 12) (Z.ones 36) < 2 ^ 36.
Proof. apply land_ones_bound. lia. Qed.

Lemma three_field : 3 = Z.shiftl 3 0.
Proof. reflexivity. Qed.

Lemma three_bound : 0 <= 3 < 2 ^ 2.
Proof. change (2 ^ 2) with 4. lia. Qed.

Ltac field_bound :=
  first [ apply bool_field_bound | apply shareability_field_bound
        | apply land_3_bound | apply land_7_bound | apply address_bits_bound
        | apply three_bound ].

(** Reads one window of a word built as a disjunction of fields. *)
Ltac read_window :=
  rewrite ?Z.shiftr_lor, ?Z.land_lor_distr_l;
  repeat match goal with
         | |- context [Z.land (Z.shiftr (Z.shiftl ?y ?j) ?k) ?m] =>
             first
               [ rewrite (extract_same y j m 1) by (first [reflexivity | field_bound | lia])
               | rewrite (extract_same y j m 2) by (first [reflexivity | field_bound | lia])
               | rewrite (extract_same y j m 3) by (first [reflexivity | field_bound | lia])
               | rewrite (extract_other y j 1 k m 1) by (first [reflexivity | field_bound | lia])
               | rewrite (extract_other y j 1 k m 2) by (first [reflexivity | field_bound | lia])
               | rewrite (extract_other y j 1 k m 3) by (first [reflexivity | field_bound | lia])
               | rewrite (extract_other y j 2 k m 1) by (first [reflexivity | field_bound | lia])
               | rewrite (extract_other y j 2 k m 2) by (first [reflexivity | field_bound | lia])
               | rewrite (extract_other y j 2 k m 3) by (first [reflexivity | field_bound | lia])
               | rewrite (extract_other y j 3 k m 1) by (first [reflexivity | field_bound | lia])
               | rewrite (extract_other y j 3 k m 2) by (first [reflexivity | field_bound | lia])
               | rewrite (extract_other y j 3 k m 3) by (first [reflexivity | field_bound | lia])
               | rewrite (extract_other y j 36 k m 1) by (first [reflexivity | field_bound | lia])
               | rewrite (extract_other y j 36 k m 2) by (first [reflexivity | field_bound | lia])
               | rewrite (extract_other y j 36 k m 3) by (first [reflexivity | field_bound | lia])
               | rewrite (extract_same y j m 36) by (first [reflexivity | field_bound | lia])
               | rewrite (extract_other y j 1 k m 36) by (first [reflexivity | field_bound | lia])
               | rewrite (extract_other y j 2 k m 36) by (first [reflexivity | field_bound | lia])
               | rewrite (extract_other y j 3 k m 36) by (first [reflexivity | field_bound | lia]) ]
         end;
  rewrite ?Z.lor_0_l, ?Z.lor_0_r.

Lemma page_word_fields out ap uxn pxn af sh attr :
  Descriptor.build_page_descriptor out ap uxn pxn af sh attr
  = Z.lor (Z.lor (Z.lor (Z.lor (Z.lor (Z.lor (Z.lor
      (Z.shiftl (Z.land (Z.shiftr out 12) (Z.ones 36)) 12)
      (Z.shiftl (if uxn then 1 else 0) 54))
      (Z.shiftl (if pxn then 1 else 0) 53))
      (Z.shiftl (if af then 1 else 0) 10))
      (Z.shiftl (Descriptor.shareability_value sh) 8))
      (Z.shiftl (Z.land ap 3) 6))
      (Z.shiftl (Z.land attr 7) 2))
      (Z.shiftl 3 0).
Proof.
  unfold Descriptor.build_page_descriptor. cbv zeta. rewrite address_field.
  reflexivity.
Qed.

Lemma table_word_fields a :
  Descriptor.build_table_descriptor a
  = Z.lor (Z.shiftl (Z.land (Z.shiftr a 12) (Z.ones 36)) 12) (Z.shiftl 3 0).
Proof. unfold Descriptor.build_table_descriptor. rewrite address_field. reflexivity. Qed.

Lemma low_bits_3 v : Z.land (Z.shiftr v 0) 3 = 3 -> Z.land v 1 = 1 /\ Z.land v 3 = 3.
Proof.
  rewrite Z.shiftr_0_r. intros H. split; [|exact H].
  rewrite (proj2 (land_3_cases v)), H. reflexivity.
Qed.

(** X3. A word built by [build_page_descriptor] is a PAGE at level 3 and
    decodes to what it was built from: the output address cut to bits
    47..12, AP cut to two bits, UXN, PXN, AF, the shareability and the
    attribute index cut to three bits; nG and NS are clear, and the
    permissions are those of the AP and execute-never bits. *)
Theorem build_page_descriptor_round_trip out ap uxn pxn af sh attr s2 :
  let d := Descriptor.create_descriptor
             (Descriptor.build_page_descriptor out ap uxn pxn af sh attr) 3 s2 in
  Descriptor.descriptor_type d = Descriptor.PAGE
  /\ Descriptor.page_output_address d = Z.land out 0x0000FFFFFFFFF000
  /\ Descriptor.ap d = Z.land ap 3
  /\ Descriptor.uxn d = uxn
  /\ Descriptor.pxn d = pxn
  /\ Descriptor.access_flag d = af
  /\ Descriptor.shareability_bits d = Some sh
  /\ Descriptor.attr_index d = Z.land attr 7
  /\ Descriptor.not_global d = false
  /\ Descriptor.non_secure d = false
  /\ Descriptor.get_permissions d = Descriptor.from_ap_bits (Z.land ap 3) uxn pxn.
Proof.
  cbv zeta.
  assert (Hap : Z.land (Z.shiftr (Descriptor.build_page_descriptor out ap uxn pxn af sh attr) 6) 3
                = Z.land ap 3)
    by (rewrite page_word_fields; read_window; reflexivity).
  assert (Huxn : Descriptor.bit_at (Descriptor.build_page_descriptor out ap uxn pxn af sh attr) 54
                 = uxn)
    by (unfold Descriptor.bit_at; rewrite page_word_fields; read_window;
        destruct uxn; reflexivity).
  assert (Hpxn : Descriptor.bit_at (Descriptor.build_page_descriptor out ap uxn pxn af sh attr) 53
                 = pxn)
    by (unfold Descriptor.bit_at; rewrite page_word_fields; read_window;
        destruct pxn; reflexivity).
  unfold Descriptor.descriptor_type, Descriptor.is_valid, Descriptor.is_table,
    Descriptor.is_block, Descriptor.is_page, Descriptor.page_output_address,
    Descriptor.get_permissions, Descriptor.ap, Descriptor.uxn, Descriptor.pxn,
    Descriptor.access_flag, Descriptor.shareability_bits, Descriptor.attr_index,
    Descriptor.not_global, Descriptor.non_secure, Descriptor.create_descriptor.
  cbn [Descriptor.value Descriptor.level].
  rewrite Hap, Huxn, Hpxn.
  assert (Hlow : Z.land (Z.shiftr (Descriptor.build_page_descriptor out ap uxn pxn af sh attr) 0) 3
                 = 3)
    by (rewrite page_word_fields; read_window; reflexivity).
  apply low_bits_3 in Hlow as [H1 H3]. rewrite H1, H3.
  split; [reflexivity|].
  split. { rewrite (address_field (Descriptor.build_page_descriptor _ _ _ _ _ _ _)),
             page_word_fields.
           read_window. rewrite <- address_field. reflexivity. }
  split; [reflexivity|]. split; [reflexivity|]. split; [reflexivity|].
  split. { unfold Descriptor.bit_at. rewrite page_word_fields. read_window.
           destruct af; reflexivity. }
  split. { rewrite page_word_fields. read_window. destruct sh; reflexivity. }
  split. { rewrite page_word_fields. read_window. reflexivity. }
  split. { unfold Descriptor.bit_at. rewrite page_word_fields. read_window. reflexivity. }
  split. { unfold Descriptor.bit_at. rewrite page_word_fields. read_window. reflexivity. }
  reflexivity.
Qed.

(** X4. A word built by [build_table_descriptor] is valid, is a TABLE at
    levels below 3, points to the address it was built from cut to bits
    47..12, and limits nothing: APTable, UXNTable, PXNTable and NSTable are
    clear. *)
Theorem build_table_descriptor_round_trip a lvl s2 :
  let d := Descriptor.create_descriptor (Descriptor.build_table_descriptor a) lvl s2 in
  Descriptor.is_valid d = true
  /\ Descriptor.descriptor_type d
     = (if lvl <? 3 then Descriptor.TABLE
        else if lvl =? 3 then Descriptor.PAGE else Descriptor.INVALID)
  /\ Descriptor.next_table_address d = Z.land a 0x0000FFFFFFFFF000
  /\ Descriptor.ap_table d = 0
  /\ Descriptor.uxn_table d = false
  /\ Descriptor.pxn_table d = false
  /\ Descriptor.ns_table d = false.
Proof.
  cbv zeta.
  assert (Hlow : Z.land (Z.shiftr (Descriptor.build_table_descriptor a) 0) 3 = 3)
    by (rewrite table_word_fields; read_window; reflexivity).
  apply low_bits_3 in Hlow as [H1 H3].
  unfold Descriptor.descriptor_type, Descriptor.is_valid, Descriptor.is_table,
    Descriptor.is_block, Descriptor.is_page, Descriptor.next_table_address,
    Descriptor.ap_table, Descriptor.uxn_table, Descriptor.pxn_table,
    Descriptor.ns_table, Descriptor.bit_at, Descriptor.create_descriptor.
  cbn [Descriptor.value Descriptor.level]. rewrite H1, H3.
  split; [reflexivity|].
  split. { cbn [Z.eqb Pos.eqb negb andb orb].
           destruct (lvl <? 3); [reflexivity|]. cbn [andb].
           destruct ((lvl =? 1) || (lvl =? 2)), (lvl =? 3); reflexivity. }
  split. { rewrite (address_field (Descriptor.build_table_descriptor _)),
             table_word_fields.
           read_window. rewrite <- address_field. reflexivity. }
  repeat split; rewrite table_word_fields; read_window; reflexivity.
Qed.

(** X5. Reading the attributes of a page or block descriptor fails exactly
    when its SH field is the reserved value 0b01; otherwise the attributes
    carry the SH, AttrIndx, AF, nG and NS fields of the word. *)
Theorem get_attributes_reserved_shareability (d : Descriptor.Descriptor) :
  (Descriptor.get_attributes d = None
   <-> Z.land (Z.shiftr (Descriptor.value d) 8) 3 = 1)
  /\ (forall m, Descriptor.get_attributes d = Some m ->
        Descriptor.shareability_value (Descriptor.shareability m)
          = Z.land (Z.shiftr (Descriptor.value d) 8) 3
        /\ Descriptor.attr_index_of m = Descriptor.attr_index d
        /\ Descriptor.access_flag_of m = Descriptor.access_flag d
        /\ Descriptor.not_global_of m = Descriptor.not_global d
        /\ Descriptor.non_secure_of m = Descriptor.non_secure d).
Proof.
  unfold Descriptor.get_attributes, Descriptor.shareability_bits,
    Descriptor.shareability_of.
  destruct (land_3_cases (Z.shiftr (Descriptor.value d) 8)) as [H _].
  destruct H as [-> | [-> | [-> | ->]]]; cbn; split;
    try (split; intros; (discriminate || lia));
    try (split; intros; reflexivity);
    intros m [= <-]; cbn; auto.
Qed.

(** A word whose SH field is 0b01. *)
Lemma get_attributes_reserved_shareability_witness :
  Z.land (Z.shiftr (Descriptor.value (Descriptor.create_descriptor 0x103 3 false)) 8) 3 = 1
  /\ Descriptor.get_attributes (Descriptor.create_descriptor 0x103 3 false) = None.
Proof.
  split; [reflexivity|].
  apply (proj1 (get_attributes_reserved_shareability
                  (Descriptor.create_descriptor 0x103 3 false))).
  reflexivity.
Defined.

(** ** Permissions (models/descriptor.py, simulator/faults.py) *)

(** X6. For the four values of AP the six booleans of
    [AccessPermissions.from_ap_bits] are the answers of [check_permission]
    for the six combinations of access type and exception level. *)
Theorem from_ap_bits_agrees_with_check_permission (ap : Z) (uxn pxn : bool) :
  0 <= ap <= 3 ->
  let p := Descriptor.from_ap_bits ap uxn pxn in
  Descriptor.read_el0 p = Faults.check_permission Faults.READ ap uxn pxn true
  /\ Descriptor.write_el0 p = Faults.check_permission Faults.WRITE ap uxn pxn true
  /\ Descriptor.execute_el0 p = Faults.check_permission Faults.EXECUTE ap uxn pxn true
  /\ Descriptor.read_el1 p = Faults.check_permission Faults.READ ap uxn pxn false
  /\ Descriptor.write_el1 p = Faults.check_permission Faults.WRITE ap uxn pxn false
  /\ Descriptor.execute_el1 p = Faults.check_permission Faults.EXECUTE ap uxn pxn false.
Proof.
  intros H. assert (ap = 0 \/ ap = 1 \/ ap = 2 \/ ap = 3) as [-> | [-> | [-> | ->]]] by lia;
    cbn; repeat split.
Qed.

Lemma from_ap_bits_agrees_with_check_permission_witness :
  0 <= 2 <= 3
  /\ Descriptor.write_el1 (Descriptor.from_ap_bits 2 false false)
     = Faults.check_permission Faults.WRITE 2 false false false.
Proof.
  split; [lia|].
  apply (from_ap_bits_agrees_with_check_permission 2 false false). lia.
Defined.

(** X7. Outside 0..3 the two disagree: [from_ap_bits] treats every other
    value as AP = 0b11 and grants EL0 reads that [check_permission]
    denies. *)
Theorem from_ap_bits_out_of_range (ap : Z) (uxn pxn : bool) :
  ap < 0 \/ 3 < ap ->
  Descriptor.from_ap_bits ap uxn pxn = Descriptor.from_ap_bits 3 uxn pxn
  /\ Descriptor.read_el0 (Descriptor.from_ap_bits ap uxn pxn) = true
  /\ Faults.check_permission Faults.READ ap uxn pxn true = false.
Proof.
  intros H. unfold Descriptor.from_ap_bits, Faults.check_permission.
  destruct (Z.eqb_spec ap 0), (Z.eqb_spec ap 1), (Z.eqb_spec ap 2), (Z.eqb_spec ap 3);
    try lia. cbn. repeat split.
Qed.

Lemma from_ap_bits_out_of_range_witness :
  (4 < 0 \/ 3 < 4)
  /\ Descriptor.read_el0 (Descriptor.from_ap_bits 4 false false) = true
  /\ Faults.check_permission Faults.READ 4 false false true = false.
Proof.
  assert (H : 4 < 0 \/ 3 < 4) by (right; lia).
  split; [exact H|].
  exact (proj2 (from_ap_bits_out_of_range 4 false false H)).
Defined.

(** X8. Data permissions are ordered: whoever may write may read, and
    whatever EL0 may read or write EL1 may as well. *)
Theorem check_permission_ordered (ap : Z) (uxn pxn is_el0 : bool) :
  (Faults.check_permission Faults.WRITE ap uxn pxn is_el0 = true ->
   Faults.check_permission Faults.READ ap uxn pxn is_el0 = true)
  /\ (Faults.check_permission Faults.READ ap uxn pxn true = true ->
      Faults.check_permission Faults.READ ap uxn pxn false = true)
  /\ (Faults.check_permission Faults.WRITE ap uxn pxn true = true ->
      Faults.check_permission Faults.WRITE ap uxn pxn false = true).
Proof.
  unfold Faults.check_permission. cbn.
  destruct is_el0, (Z.eqb_spec ap 0), (Z.eqb_spec ap 1), (Z.eqb_spec ap 3);
    cbn; repeat split; intros; (discriminate || reflexivity || lia).
Qed.

Lemma check_permission_ordered_witness :
  Faults.check_permission Faults.WRITE 1 false false true = true
  /\ Faults.check_permission Faults.READ 1 false false true = true
  /\ Faults.check_permission Faults.WRITE 1 false false false = true.
Proof.
  assert (H : Faults.check_permission Faults.WRITE 1 false false true = true)
    by reflexivity.
  split; [exact H|]. split.
  - exact (proj1 (check_permission_ordered 1 false false true) H).
  - exact (proj2 (proj2 (check_permission_ordered 1 false false true)) H).
Defined.

(** X9. For the four values of S2AP the booleans of
    [Stage2Permissions.from_s2ap_bits] are the answers of
    [check_stage2_permission]. *)
Theorem from_s2ap_bits_agrees_with_check (s2ap : Z) (xn : bool) :
  0 <= s2ap <= 3 ->
  let p := Descriptor.from_s2ap_bits s2ap xn in
  Descriptor.s2_read p = Faults.check_stage2_permission Faults.READ s2ap xn
  /\ Descriptor.s2_write p = Faults.check_stage2_permission Faults.WRITE s2ap xn
  /\ Descriptor.s2_execute p = Faults.check_stage2_permission Faults.EXECUTE s2ap xn.
Proof.
  intros H.
  assert (s2ap = 0 \/ s2ap = 1 \/ s2ap = 2 \/ s2ap = 3) as [-> | [-> | [-> | ->]]] by lia;
    cbn; repeat split.
Qed.

Lemma from_s2ap_bits_agrees_with_check_witness :
  0 <= 1 <= 3
  /\ Descriptor.s2_write (Descriptor.from_s2ap_bits 1 false)
     = Faults.check_stage2_permission Faults.WRITE 1 false.
Proof.
  split; [lia|].
  apply (from_s2ap_bits_agrees_with_check 1 false). lia.
Defined.

(** ** Registers (models/registers.py) *)

Lemma land_1_cases v : Z.land v 1 = 0 \/ Z.land v 1 = 1.
Proof.
  pose proof (land_ones_bound v 1 ltac:(lia)) as H.
  change (Z.ones 1) with 1 in H. change (2 ^ 1) with 2 in H. lia.
Qed.

(** X10. The fields of a 64-bit translation table base register are
    disjoint slices that make up the register: ASID in bits 63..48, the base
    address in bits 47..1 and CnP in bit 0.  The base address is even and
    below 2^48 whatever the register holds. *)
Theorem ttbr_fields (r : Registers.TTBR) :
  (0 <= Registers.baddr r < 2 ^ 48 /\ Z.land (Registers.baddr r) 1 = 0)
  /\ (0 <= Registers.ttbr_value r < 2 ^ 64 ->
      Z.lor (Z.shiftl (Registers.asid r) 48)
        (Z.lor (Registers.baddr r) (if Registers.cnp r then 1 else 0))
      = Registers.ttbr_value r).
Proof.
  destruct r as [v]. unfold Registers.baddr, Registers.asid, Registers.cnp.
  cbn [Registers.ttbr_value].
  assert (Hb : Z.land v 0x0000FFFFFFFFFFFE
               = Z.shiftl (Z.land (Z.shiftr v 1) (Z.ones 47)) 1).
  { change 0x0000FFFFFFFFFFFE with (Z.shiftl (Z.ones 47) 1).
    apply Z.bits_inj'. intros n Hn.
    rewrite testbit_field, Z.land_spec, Z.shiftl_spec by lia.
    destruct (Z.leb_spec 1 n).
    - rewrite Z.testbit_ones_nonneg by lia.
      destruct (Z.ltb_spec (n - 1) 47), (Z.ltb_spec n (1 + 47)); try lia;
        destruct (Z.testbit v n); reflexivity.
    - rewrite (Z.testbit_neg_r (Z.ones 47)) by lia.
      rewrite !andb_false_r. reflexivity. }
  split.
  - split.
    + change 0x0000FFFFFFFFFFFE with (Z.land (Z.ones 48) 0x0000FFFFFFFFFFFE).
      rewrite Z.land_assoc, (Z.land_comm _ (Z.ones 48)), <- Z.land_assoc.
      rewrite (Z.land_comm (Z.ones 48)). apply land_ones_bound. lia.
    + rewrite <- Z.land_assoc.
      change (Z.land 0x0000FFFFFFFFFFFE 1) with 0. apply Z.land_0_r.
  - intros Hv. rewrite Hb.
    assert (Hc : (if negb (Z.land v 1 =? 0) then 1 else 0) = Z.land v (Z.ones 1)).
    { change (Z.ones 1) with 1. destruct (land_1_cases v) as [-> | ->]; reflexivity. }
    rewrite Hc. change 0xFFFF with (Z.ones 16).
    apply Z.bits_inj'. intros n Hn.
    rewrite !Z.lor_spec, !testbit_field, testbit_low by lia.
    destruct (Z.ltb_spec n 64).
    + destruct (Z.testbit v n); cbn [andb orb]; [|reflexivity].
      destruct (Z.leb_spec 48 n), (Z.leb_spec 1 n), (Z.ltb_spec n (48 + 16)),
        (Z.ltb_spec n (1 + 47)), (Z.ltb_spec n 1); try lia; reflexivity.
    + rewrite (small_testbit v 64 n) by lia. reflexivity.
Qed.

(** The default TTBR0_EL1. *)
Lemma ttbr_fields_witness :
  0 <= Registers.ttbr_value (Registers.ttbr0_el1 Registers.default) < 2 ^ 64
  /\ Z.lor (Z.shiftl (Registers.asid (Registers.ttbr0_el1 Registers.default)) 48)
       (Z.lor (Registers.baddr (Registers.ttbr0_el1 Registers.default))
          (if Registers.cnp (Registers.ttbr0_el1 Registers.default) then 1 else 0))
     = Registers.ttbr_value (Registers.ttbr0_el1 Registers.default).
Proof.
  assert (H : 0 <= Registers.ttbr_value (Registers.ttbr0_el1 Registers.default) < 2 ^ 64)
    by (split; [vm_compute; discriminate | vm_compute; reflexivity]).
  split; [exact H|].
  exact (proj2 (ttbr_fields (Registers.ttbr0_el1 Registers.default)) H).
Defined.

(** X11. The starting level of the stage-1 walk is 0, 1 or 2.  For a
    region of at most 48 address bits the levels from it down to 3, of 9
    bits each, and the 12 offset bits cover every address bit, and unless
    the level is 2 one level fewer would not. *)
Theorem starting_level_covers (t : Registers.TCR) (for_ttbr1 : bool) :
  let va_bits := if for_ttbr1 then Registers.va_bits_t1 t else Registers.va_bits_t0 t in
  let l := Registers.starting_level t for_ttbr1 in
  0 <= l <= 2
  /\ (va_bits <= 48 -> va_bits <= 12 + 9 * (4 - l))
  /\ (l < 2 -> 12 + 9 * (3 - l) < va_bits).
Proof.
  cbv zeta. unfold Registers.starting_level.
  destruct (Z.leb_spec 40 (if for_ttbr1 then Registers.va_bits_t1 t
                           else Registers.va_bits_t0 t));
    [|destruct (Z.leb_spec 31 (if for_ttbr1 then Registers.va_bits_t1 t
                               else Registers.va_bits_t0 t))];
    lia.
Qed.

(** T0SZ = 25: 39 address bits, three levels. *)
Lemma starting_level_covers_witness :
  Registers.va_bits_t0 (Registers.make_TCR 25 16) <= 48
  /\ Registers.starting_level (Registers.make_TCR 25 16) false < 2
  /\ Registers.starting_level (Registers.make_TCR 25 16) false = 1
  /\ Registers.va_bits_t0 (Registers.make_TCR 25 16) <= 12 + 9 * (4 - 1)
  /\ 12 + 9 * (3 - 1) < Registers.va_bits_t0 (Registers.make_TCR 25 16).
Proof.
  assert (H1 : Registers.va_bits_t0 (Registers.make_TCR 25 16) <= 48)
    by (vm_compute; discriminate).
  assert (H2 : Registers.starting_level (Registers.make_TCR 25 16) false < 2)
    by (vm_compute; reflexivity).
  split; [exact H1|]. split; [exact H2|]. split; [reflexivity|].
  destruct (starting_level_covers (Registers.make_TCR 25 16) false) as (_ & Ha & Hb).
  split; [exact (Ha H1) | exact (Hb H2)].
Defined.

(** ** The stage-2 walk (simulator/stage2.py) *)

Ltac stage2_projections :=
  unfold Stage2_link, Stage2_lookup, Stage2_desc in *;
  cbn [fst snd Stage2.events Stage2.events_so_far Stage2.success
       Stage2.output_pa Stage2.fault Stage2.current_table_pa
       Stage2.event_counter Stage2.with_output Stage2.level
       Stage2.descriptor_value Stage2.descriptor_type Stage2.event_id
       Stage2.descriptor_address Stage2.output_address Stage2.index
       Stage2.table_base_pa
       Descriptor.level Descriptor.value Descriptor.create_descriptor] in *.

Section Stage2Chain.
Variable w : Stage2.Stage2Walker.
Variable ipa : Address.Addr.

Lemma Stage2_chain_end_snoc base evs e :
  Stage2_chain_end base (evs ++ [e]) = Stage2.output_address e.
Proof. unfold Stage2_chain_end. rewrite last_snoc. reflexivity. Qed.

Lemma Stage2_chain_end_cons base x y evs :
  Stage2_chain_end base (x :: y :: evs) = Stage2_chain_end (Stage2.output_address x) (y :: evs).
Proof.
  unfold Stage2_chain_end. rewrite last_cons_cons, (last_cons y evs).
  destruct (last evs); reflexivity.
Qed.

Lemma Stage2_chain_snoc evs : forall base e,
  Stage2_chain w ipa base evs ->
  Forall (fun x => Stage2_link x /\ Stage2.level x < Stage2.level e) evs ->
  Stage2_lookup w ipa (Stage2_chain_end base evs) e ->
  Stage2_chain w ipa base (evs ++ [e]).
Proof.
  induction evs as [|x rest IH]; intros base e Hc Hf Hl.
  - cbn. auto.
  - destruct Hc as (Hx & Hnext & Hrest).
    apply Forall_cons_1 in Hf as [[Hlink Hlt] Hf].
    change ((x :: rest) ++ [e]) with (x :: (rest ++ [e])).
    cbn [Stage2_chain]. split; [exact Hx|]. split.
    + destruct rest as [|y rest]; [cbn; auto | exact Hnext].
    + apply IH; [exact Hrest | exact Hf |].
      destruct rest as [|y rest]; [exact Hl|].
      rewrite Stage2_chain_end_cons in Hl. exact Hl.
Qed.

Lemma Stage2_links_weaken lvl lvl' evs :
  lvl <= lvl' ->
  Forall (fun e => Stage2_link e
                   /\ Stage2.starting_level w <= Stage2.level e < lvl) evs ->
  Forall (fun e => Stage2_link e
                   /\ Stage2.starting_level w <= Stage2.level e < lvl') evs.
Proof.
  intros Hle H. eapply Forall_impl; [exact H|]. cbv beta.
  intros e (Hl & Hb). split; [exact Hl | lia].
Qed.

Lemma Stage2_links_below lvl e evs :
  Stage2.level e = lvl ->
  Forall (fun x => Stage2_link x
                   /\ Stage2.starting_level w <= Stage2.level x < lvl) evs ->
  Forall (fun x => Stage2_link x /\ Stage2.level x < Stage2.level e) evs.
Proof.
  intros He H. eapply Forall_impl; [exact H|]. cbv beta.
  intros x (Hl & Hb). split; [exact Hl | lia].
Qed.

Lemma Stage2_links_levels lvl evs :
  lvl <= 4 ->
  Forall (fun e => Stage2_link e
                   /\ Stage2.starting_level w <= Stage2.level e < lvl) evs ->
  Forall (fun e => Stage2.starting_level w <= Stage2.level e <= 3) evs.
Proof.
  intros Hle H. eapply Forall_impl; [exact H|]. cbv beta.
  intros e (Hl & Hb). lia.
Qed.

(** One level extends the chain by the entry it reads. *)
Lemma Stage2_walk_level_chain lvl st :
  Stage2_chain_inv w ipa lvl st ->
  Stage2.starting_level w <= lvl <= 3 ->
  match Stage2.walk_level w ipa lvl st with
  | Stage2.Return r c =>
      Stage2_chain w ipa (Stage2.vttbr_base w) (Stage2.events r)
      /\ Forall (fun e => Stage2.starting_level w <= Stage2.level e <= 3)
           (Stage2.events r)
  | Stage2.Continue st' => Stage2_chain_inv w ipa (lvl + 1) st'
  end.
Proof.
  intros (Hc & Hf & Hcur) Hl.
  assert (Hlevels : Forall (fun e => Stage2.starting_level w <= Stage2.level e <= 3)
                      (Stage2.events_so_far st))
    by (apply (Stage2_links_levels lvl); [lia | exact Hf]).
  unfold Stage2.walk_level, Stage2_chain_inv.
  split_tests; clean_tests;
    cbn [Stage2.events Stage2.events_so_far Stage2.current_table_pa Stage2.with_output].
  all: repeat match goal with
              | |- _ /\ _ => split
              end.
  all: try (apply Stage2_chain_snoc;
            [ exact Hc
            | apply (Stage2_links_below lvl); [reflexivity | exact Hf]
            | rewrite <- Hcur; unfold Stage2_lookup; stage2_projections;
              repeat split; reflexivity ]).
  all: try (apply Forall_app; split;
            [ first [ exact Hlevels
                    | apply (Stage2_links_weaken lvl); [lia | exact Hf] ]
            | constructor; [|constructor]; stage2_projections;
              first [ lia
                    | split; [split; [apply descriptor_type_table; assumption
                                     | reflexivity]
                             | lia] ] ]).
  all: try (rewrite Stage2_chain_end_snoc; reflexivity).
  all: try exact Hc; try exact Hcur.
  all: apply (Stage2_links_weaken lvl); [lia | exact Hf].
Qed.

Lemma Stage2_walk_from_chain n : forall lvl st,
  Z.of_nat n + lvl <= 4 ->
  Stage2.starting_level w <= lvl ->
  Stage2_chain_inv w ipa lvl st ->
  Stage2_chain w ipa (Stage2.vttbr_base w)
    (Stage2.events (Stage2.walk_from w ipa n lvl st).1)
  /\ Forall (fun e => Stage2.starting_level w <= Stage2.level e <= 3)
       (Stage2.events (Stage2.walk_from w ipa n lvl st).1).
Proof.
  induction n as [|n IH]; intros lvl st Hn Hl Hinv.
  - cbn. destruct Hinv as (Hc & Hf & _). split; [exact Hc|].
    apply (Stage2_links_levels lvl); [lia | exact Hf].
  - cbn [Stage2.walk_from].
    pose proof (Stage2_walk_level_chain lvl st Hinv ltac:(lia)) as H.
    destruct (Stage2.walk_level w ipa lvl st) as [st'|r c].
    + apply IH; [lia | lia | exact H].
    + exact H.
Qed.

(** A level that returns a success returns the address that its entry and
    the input give. *)
Lemma Stage2_walk_level_success lvl st :
  match Stage2.walk_level w ipa lvl st with
  | Stage2.Return r c =>
      Stage2.success r = true ->
      exists leaf, Stage2_leaf_result ipa (Stage2.events_so_far st) r leaf
  | Stage2.Continue _ => True
  end.
Proof.
  unfold Stage2.walk_level, Stage2_leaf_result, leaf_address.
  split_tests; clean_tests; stage2_projections;
    try exact I; try (intros; discriminate).
  all: intros _; eexists; cbv zeta; (split; [reflexivity|]);
    stage2_projections;
    repeat match goal with
           | H : Descriptor.is_block _ = _ |- _ => rewrite H
           | H : (_ =? _) = _ |- _ => rewrite H
           end;
    repeat split; try reflexivity; try leaf_type.
Qed.

Lemma Stage2_walk_from_success n : forall lvl st,
  Stage2.success (Stage2.walk_from w ipa n lvl st).1 = true ->
  exists tables leaf,
    Stage2_leaf_result ipa tables (Stage2.walk_from w ipa n lvl st).1 leaf.
Proof.
  induction n as [|n IH]; intros lvl st; cbn [Stage2.walk_from].
  - cbn. discriminate.
  - pose proof (Stage2_walk_level_success lvl st) as H.
    destruct (Stage2.walk_level w ipa lvl st) as [st'|r c].
    + apply IH.
    + cbn [fst]. intros Hok. destruct (H Hok) as [leaf Hleaf]. eauto.
Qed.

End Stage2Chain.

Lemma Stage2_walk_success w c ipa access :
  Stage2.success (Stage2.walk w c ipa access).1 = true ->
  exists tables leaf,
    Stage2_leaf_result ipa tables (Stage2.walk w c ipa access).1 leaf.
Proof. apply Stage2_walk_from_success. Qed.

(** The low twelve bits of a leaf's address are those of the input. *)
Lemma join_low_bits v a hi lo :
  Z.land hi 0xFFF = 0 -> Z.land lo 0xFFF = 0xFFF ->
  Z.land (Z.lor (Z.land v hi) (Z.land a lo)) 0xFFF = Z.land a 0xFFF.
Proof.
  intros Hhi Hlo.
  rewrite Z.land_lor_distr_l, <- !Z.land_assoc, Hhi, Hlo, Z.land_0_r.
  apply Z.lor_0_l.
Qed.

Lemma l1_block_offset_4KB (a : Address.Addr) :
  Address.granule a = Granule.GRANULE_4KB ->
  Address.l1_block_offset a = Z.land (Address.value a) 0x3FFFFFFF.
Proof.
  intros H. unfold Address.l1_block_offset. rewrite H. reflexivity.
Qed.

Lemma page_offset_4KB (a : Address.Addr) :
  Address.granule a = Granule.GRANULE_4KB ->
  Address.page_offset a = Z.land (Address.value a) 0xFFF.
Proof.
  intros H. unfold Address.page_offset. rewrite H. reflexivity.
Qed.

Lemma leaf_address_page_offset a d :
  Address.granule a = Granule.GRANULE_4KB ->
  Z.land (leaf_address a d) 0xFFF = Z.land (Address.value a) 0xFFF.
Proof.
  intros H. unfold leaf_address, Descriptor.block_output_address,
    Descriptor.page_output_address.
  rewrite (l1_block_offset_4KB a H), (l2_block_offset_4KB a H), (page_offset_4KB a H).
  destruct (Descriptor.is_block d), (Descriptor.level d =? 1),
    (Descriptor.level d =? 2); apply join_low_bits; reflexivity.
Qed.

(** X12. The events of a stage-2 walk form a chain from the table that
    VTTBR_EL2 names: each event records the entry that the tables hold at
    base + 8 * index, with the index that the address gives at the event's
    level; every event but the last is a table descriptor, and its
    successor looks into the table it points to, at a deeper level; all
    levels are between the starting level and 3. *)
Theorem stage2_walk_chain (w : Stage2.Stage2Walker) (counter : Z)
    (ipa : Address.Addr) (access : Faults.AccessType) :
  let r := (Stage2.walk w counter ipa access).1 in
  Stage2_chain w ipa (Stage2.vttbr_base w) (Stage2.events r)
  /\ Forall (fun e => Stage2.starting_level w <= Stage2.level e <= 3) (Stage2.events r).
Proof.
  cbv zeta. unfold Stage2.walk.
  destruct (Z.le_gt_cases (Stage2.starting_level w) 4) as [H|H].
  - apply Stage2_walk_from_chain; [lia | lia |].
    unfold Stage2_chain_inv. cbn. repeat split. constructor.
  - replace (Z.to_nat (4 - Stage2.starting_level w)) with 0%nat by lia.
    cbn. split; [exact I | constructor].
Qed.

(** X13. A successful stage-2 walk ends in a block or page descriptor,
    and its output is that descriptor's output address joined with the
    offset of the input at the descriptor's level; under the 4 KB granule
    the low twelve bits of the output are those of the input. *)
Theorem stage2_walk_output (w : Stage2.Stage2Walker) (counter : Z)
    (ipa : Address.Addr) (access : Faults.AccessType) :
  let r := (Stage2.walk w counter ipa access).1 in
  Stage2.success r = true ->
  exists leaf pa,
    last (Stage2.events r) = Some leaf
    /\ (Stage2.descriptor_type leaf = Descriptor.BLOCK
        \/ Stage2.descriptor_type leaf = Descriptor.PAGE)
    /\ Stage2.output_pa r = Some pa
    /\ Address.value pa = leaf_address ipa (Stage2_desc leaf)
    /\ Stage2.fault r = None
    /\ (Address.granule ipa = Granule.GRANULE_4KB ->
        Z.land (Address.value pa) 0xFFF = Z.land (Address.value ipa) 0xFFF).
Proof.
  cbv zeta. intros Hok.
  destruct (Stage2_walk_success w counter ipa access Hok)
    as (tables & leaf & Hev & Hty & _ & Hout).
  pose proof (Stage2_walk_ok w ipa counter access) as Hshape.
  unfold Stage2_result_ok in Hshape. rewrite Hok in Hshape.
  exists leaf, (Address.PhysicalAddress (leaf_address ipa (Stage2_desc leaf))).
  split; [rewrite Hev; apply last_snoc|].
  split; [exact Hty|]. split; [exact Hout|]. split; [reflexivity|].
  split; [apply Hshape|].
  apply leaf_address_page_offset.
Qed.

(** The final stage-2 walk of the identity map. *)
Lemma stage2_walk_output_witness :
  Stage2.success
    (Stage2.walk (Walker.stage2_walker Scenario.happy_walker) 0
       (Address.IntermediatePhysicalAddress 0x50000030) Faults.READ).1 = true
  /\ exists leaf pa,
       last (Stage2.events
               (Stage2.walk (Walker.stage2_walker Scenario.happy_walker) 0
                  (Address.IntermediatePhysicalAddress 0x50000030) Faults.READ).1)
       = Some leaf
       /\ Stage2.output_pa
            (Stage2.walk (Walker.stage2_walker Scenario.happy_walker) 0
               (Address.IntermediatePhysicalAddress 0x50000030) Faults.READ).1
          = Some pa
       /\ Address.value pa = leaf_address (Address.IntermediatePhysicalAddress 0x50000030)
                               (Stage2_desc leaf).
Proof.
  assert (H : Stage2.success
    (Stage2.walk (Walker.stage2_walker Scenario.happy_walker) 0
       (Address.IntermediatePhysicalAddress 0x50000030) Faults.READ).1 = true)
    by (vm_compute; reflexivity).
  split; [exact H|].
  destruct (stage2_walk_output (Walker.stage2_walker Scenario.happy_walker) 0
              (Address.IntermediatePhysicalAddress 0x50000030) Faults.READ H)
    as (leaf & pa & Hl & _ & Hp & Hv & _).
  exists leaf, pa. auto.
Defined.

(** ** The stage-1 walk (simulator/stage1.py) *)

Ltac stage1_event_fields :=
  unfold Stage1_link, Stage1_lookup in *;
  stage1_projections;
  cbn [Stage1.table_base_ipa Stage1.table_base_pa Stage1.index] in *.

(** A successful stage-2 walk returns a physical address. *)
Lemma Stage2_walk_success_pa w c ipa access :
  Stage2.success (Stage2.walk w c ipa access).1 = true ->
  Stage2.output_pa (Stage2.walk w c ipa access).1 =
    Some (Address.PhysicalAddress
            (default 0 (Address.value <$> Stage2.output_pa (Stage2.walk w c ipa access).1))).
Proof.
  intros Hok.
  destruct (Stage2_walk_success w c ipa access Hok) as (tables & leaf & _ & _ & _ & ->).
  reflexivity.
Qed.

Section Stage1Chain.
Variable w : Stage1.Stage1Walker.
Variable va : Address.Addr.
Variable access : Faults.AccessType.
Variable is_el0 : bool.

Lemma Stage1_chain_end_snoc base evs e :
  Stage1_chain_end base (evs ++ [e]) = Stage1.output_address e.
Proof. unfold Stage1_chain_end. rewrite last_snoc. reflexivity. Qed.

Lemma Stage1_chain_end_cons base x y evs :
  Stage1_chain_end base (x :: y :: evs) = Stage1_chain_end (Stage1.output_address x) (y :: evs).
Proof.
  unfold Stage1_chain_end. rewrite last_cons_cons, (last_cons y evs).
  destruct (last evs); reflexivity.
Qed.

Lemma Stage1_chain_snoc evs : forall base e,
  Stage1_chain w va access base evs ->
  Forall (fun x => Stage1_link x /\ Stage1.level x < Stage1.level e) evs ->
  Stage1_lookup w va access (Stage1_chain_end base evs) e ->
  Stage1_chain w va access base (evs ++ [e]).
Proof.
  induction evs as [|x rest IH]; intros base e Hc Hf Hl.
  - cbn. auto.
  - destruct Hc as (Hx & Hnext & Hrest).
    apply Forall_cons_1 in Hf as [[Hlink Hlt] Hf].
    change ((x :: rest) ++ [e]) with (x :: (rest ++ [e])).
    cbn [Stage1_chain]. split; [exact Hx|]. split.
    + destruct rest as [|y rest]; [cbn; auto | exact Hnext].
    + apply IH; [exact Hrest | exact Hf |].
      destruct rest as [|y rest]; [exact Hl|].
      rewrite Stage1_chain_end_cons in Hl. exact Hl.
Qed.

Lemma Stage1_links_weaken lvl lvl' evs :
  lvl <= lvl' ->
  Forall (fun e => Stage1_link e
                   /\ Stage1.starting_level w <= Stage1.level e < lvl) evs ->
  Forall (fun e => Stage1_link e
                   /\ Stage1.starting_level w <= Stage1.level e < lvl') evs.
Proof.
  intros Hle H. eapply Forall_impl; [exact H|]. cbv beta.
  intros e (Hl & Hb). split; [exact Hl | lia].
Qed.

Lemma Stage1_links_below lvl e evs :
  Stage1.level e = lvl ->
  Forall (fun x => Stage1_link x
                   /\ Stage1.starting_level w <= Stage1.level x < lvl) evs ->
  Forall (fun x => Stage1_link x /\ Stage1.level x < Stage1.level e) evs.
Proof.
  intros He H. eapply Forall_impl; [exact H|]. cbv beta.
  intros x (Hl & Hb). split; [exact Hl | lia].
Qed.

Lemma Stage1_links_levels lvl evs :
  lvl <= 4 ->
  Forall (fun e => Stage1_link e
                   /\ Stage1.starting_level w <= Stage1.level e < lvl) evs ->
  Forall (fun e => Stage1.starting_level w <= Stage1.level e <= 3) evs.
Proof.
  intros Hle H. eapply Forall_impl; [exact H|]. cbv beta.
  intros e (Hl & Hb). lia.
Qed.

(** One level extends the chain by the entry it reads, or by the empty
    entry of a nested walk that failed. *)
Lemma Stage1_walk_level_chain lvl st :
  Stage1_chain_inv w va access lvl st ->
  Stage1.starting_level w <= lvl <= 3 ->
  match Stage1.walk_level w va access is_el0 lvl st with
  | Stage1.Return r c c2 =>
      Stage1_chain w va access (Stage1.ttbr_base w) (Stage1.events r)
      /\ Forall (fun e => Stage1.starting_level w <= Stage1.level e <= 3)
           (Stage1.events r)
  | Stage1.Continue st' => Stage1_chain_inv w va access (lvl + 1) st'
  end.
Proof.
  intros (Hc & Hf & Hcur) Hl.
  assert (Hlevels : Forall (fun e => Stage1.starting_level w <= Stage1.level e <= 3)
                      (Stage1.events_so_far st))
    by (apply (Stage1_links_levels lvl); [lia | exact Hf]).
  pose proof (Stage2_walk_success_pa (Stage1.stage2_walker w) (Stage1.s2_event_counter st)
                (Address.IntermediatePhysicalAddress (Stage1.current_table_ipa st))
                access) as Hpa.
  unfold Stage1.walk_level, Stage1_chain_inv.
  destruct (Stage2.walk (Stage1.stage2_walker w) (Stage1.s2_event_counter st)
              (Address.IntermediatePhysicalAddress (Stage1.current_table_ipa st))
              access) as [s2 c2] eqn:E2.
  cbn [fst] in Hpa.
  split_tests; clean_tests;
    cbn [Stage1.events Stage1.events_so_far Stage1.current_table_ipa Stage1.with_output].
  all: repeat match goal with
              | |- _ /\ _ => split
              end.
  all: try (apply Stage1_chain_snoc;
            [ exact Hc
            | apply (Stage1_links_below lvl); [reflexivity | exact Hf]
            | rewrite <- Hcur; unfold Stage1_lookup;
              cbn [Stage1.table_base_ipa Stage1.table_base_pa Stage1.index
                   Stage1.level Stage1.s2_events Stage1.descriptor_address_pa
                   Stage1.descriptor_value Stage1.descriptor_type];
              split; [reflexivity|]; split; [reflexivity|];
              exists (Stage1.s2_event_counter st); cbv zeta;
              rewrite E2; cbn [fst];
              match goal with
              | H : Stage2.success _ = _ |- _ => rewrite H
              end;
              split; [reflexivity|];
              repeat split; try reflexivity; apply Hpa; assumption ]).
  all: try (apply Forall_app; split;
            [ first [ exact Hlevels
                    | apply (Stage1_links_weaken lvl); [lia | exact Hf] ]
            | constructor; [|constructor]; stage1_event_fields;
              first [ lia
                    | split; [split; [apply descriptor_type_table; assumption
                                     | reflexivity]
                             | lia] ] ]).
  all: try (rewrite Stage1_chain_end_snoc; reflexivity).
  all: try exact Hc; try exact Hcur.
  all: apply (Stage1_links_weaken lvl); [lia | exact Hf].
Qed.

Lemma Stage1_walk_from_chain n : forall lvl st,
  Z.of_nat n + lvl <= 4 ->
  Stage1.starting_level w <= lvl ->
  Stage1_chain_inv w va access lvl st ->
  Stage1_chain w va access (Stage1.ttbr_base w)
    (Stage1.events (Stage1.walk_from w va access is_el0 n lvl st).1.1)
  /\ Forall (fun e => Stage1.starting_level w <= Stage1.level e <= 3)
       (Stage1.events (Stage1.walk_from w va access is_el0 n lvl st).1.1).
Proof.
  induction n as [|n IH]; intros lvl st Hn Hl Hinv.
  - cbn. destruct Hinv as (Hc & Hf & _). split; [exact Hc|].
    apply (Stage1_links_levels lvl); [lia | exact Hf].
  - cbn [Stage1.walk_from].
    pose proof (Stage1_walk_level_chain lvl st Hinv ltac:(lia)) as H.
    destruct (Stage1.walk_level w va access is_el0 lvl st) as [st'|r c c2].
    + apply IH; [lia | lia | exact H].
    + exact H.
Qed.

End Stage1Chain.

(** X14. The events of a stage-1 walk form a chain from the table that
    the selected TTBR names.  Each event carries the events of the nested
    stage-2 walk that translates the intermediate address of its table;
    when that walk succeeds the event records the entry that the tables hold
    at its output + 8 * index, and when it fails the event is an empty
    INVALID entry.  Every event but the last is a table descriptor whose
    successor looks into the table it points to, at a deeper level; all
    levels are between the starting level and 3. *)
Theorem stage1_walk_chain (w : Stage1.Stage1Walker) (counter s2_counter : Z)
    (va : Address.Addr) (access : Faults.AccessType) (is_el0 : bool) :
  let r := (Stage1.walk w counter s2_counter va access is_el0).1.1 in
  Stage1_chain w va access (Stage1.ttbr_base w) (Stage1.events r)
  /\ Forall (fun e => Stage1.starting_level w <= Stage1.level e <= 3) (Stage1.events r).
Proof.
  cbv zeta. unfold Stage1.walk.
  destruct (Z.le_gt_cases (Stage1.starting_level w) 4) as [H|H].
  - apply Stage1_walk_from_chain; [lia | lia |].
    unfold Stage1_chain_inv. cbn. repeat split. constructor.
  - replace (Z.to_nat (4 - Stage1.starting_level w)) with 0%nat by lia.
    cbn. split; [exact I | constructor].
Qed.

(** ** The orchestrator (simulator/walker.py) *)

Lemma check_permission_permits access ap uxn pxn is_el0 :
  0 <= ap <= 3 ->
  Faults.check_permission access ap uxn pxn is_el0
  = permits (Descriptor.from_ap_bits ap uxn pxn) access is_el0.
Proof.
  intros H. assert (ap = 0 \/ ap = 1 \/ ap = 2 \/ ap = 3) as [-> | [-> | [-> | ->]]] by lia;
    destruct access, is_el0; reflexivity.
Qed.

Lemma ap_range d : 0 <= Descriptor.ap d <= 3.
Proof.
  unfold Descriptor.ap.
  destruct (land_3_cases (Z.shiftr (Descriptor.value d) 6)) as [H _]. lia.
Qed.

(** X15. A walk with status SUCCESS composes the two stages: the
    intermediate address is the address that the last stage-1 descriptor
    gives for the input, the physical address is the address that the last
    descriptor of the final stage-2 walk gives for the intermediate address,
    and under the 4 KB granule the low twelve bits of the physical address
    are those of the virtual address. *)
Theorem walk_translation (p : Walker.PageTableWalker) (va : Address.Addr)
    (access : Faults.AccessType) (is_el0 : bool) :
  let r := Walker.walk p va access is_el0 in
  Walker.status r = Walker.SUCCESS ->
  exists s1 s2 leaf1 leaf2 ipa pa,
    Walker.s1_result r = Some s1
    /\ Walker.s2_final_result r = Some s2
    /\ last (Stage1.events s1) = Some leaf1
    /\ last (Stage2.events s2) = Some leaf2
    /\ Walker.ipa r = Some ipa
    /\ Address.value ipa = leaf_address va (Stage1_desc leaf1)
    /\ Walker.output_pa r = Some pa
    /\ Address.value pa = leaf_address ipa (Stage2_desc leaf2)
    /\ (Address.granule va = Granule.GRANULE_4KB ->
        Z.land (Address.value pa) 0xFFF = Z.land (Address.value va) 0xFFF).
Proof.
  cbv zeta. intros Hst.
  destruct (Walker_walk_cases p va access is_el0) as [Hs1 H]. cbv zeta in H.
  destruct H as [(_ & Hst' & _)
                | (Hsucc & ipa & Hout & _ & _ & Hipa & _ & Hs2
                   & [(_ & Hst' & _) | (Hsucc2 & _ & _ & Hpa)])];
    try (rewrite Hst' in Hst; discriminate).
  destruct (Stage1_walk_success _ _ _ _ _ _ Hsucc)
    as (tables & leaf1 & _ & Hev1 & _ & _ & Hipa1 & _).
  destruct (Stage2_walk_success _ _ _ _ Hsucc2)
    as (tables2 & leaf2 & Hev2 & _ & _ & Hpa2).
  rewrite Hipa1 in Hout. injection Hout as Hipa_eq.
  eexists _, _, leaf1, leaf2, ipa, _.
  split; [exact Hs1|]. split; [exact Hs2|].
  split; [rewrite Hev1; apply last_snoc|].
  split; [rewrite Hev2; apply last_snoc|].
  split; [exact Hipa|].
  split; [rewrite <- Hipa_eq; reflexivity|].
  split; [rewrite Hpa; exact Hpa2|].
  split; [reflexivity|].
  intros Hg. cbn [Address.value Address.PhysicalAddress].
  rewrite leaf_address_page_offset by (rewrite <- Hipa_eq; reflexivity).
  rewrite <- Hipa_eq. cbn [Address.value Address.IntermediatePhysicalAddress].
  apply leaf_address_page_offset, Hg.
Qed.

(** The happy path. *)
Lemma walk_translation_witness :
  Walker.status (Walker.walk Scenario.happy_walker Scenario.happy_va Faults.READ true)
  = Walker.SUCCESS
  /\ Address.granule Scenario.happy_va = Granule.GRANULE_4KB
  /\ exists pa,
       Walker.output_pa (Walker.walk Scenario.happy_walker Scenario.happy_va Faults.READ true)
       = Some pa
       /\ Z.land (Address.value pa) 0xFFF = Z.land (Address.value Scenario.happy_va) 0xFFF.
Proof.
  assert (H : Walker.status
                (Walker.walk Scenario.happy_walker Scenario.happy_va Faults.READ true)
              = Walker.SUCCESS) by (vm_compute; reflexivity).
  split; [exact H|]. split; [reflexivity|].
  destruct (walk_translation Scenario.happy_walker Scenario.happy_va Faults.READ true H)
    as (s1 & s2 & leaf1 & leaf2 & ipa & pa & _ & _ & _ & _ & _ & _ & Hpa & _ & Hlow).
  exists pa. split; [exact Hpa | apply Hlow; reflexivity].
Defined.

(** X16. The permissions that a walk reports allow the access that was
    asked for: whenever a result carries final permissions, their field for
    the access type and the exception level of the request is set. *)
Theorem final_permissions_allow (p : Walker.PageTableWalker) (va : Address.Addr)
    (access : Faults.AccessType) (is_el0 : bool) (perms : Descriptor.AccessPermissions) :
  Walker.final_permissions (Walker.walk p va access is_el0) = Some perms ->
  permits perms access is_el0 = true.
Proof.
  intros Hp.
  destruct (Walker_walk_cases p va access is_el0) as [_ H]. cbv zeta in H.
  destruct H as [(_ & _ & _ & _ & _ & _ & _ & Hnone)
                | (Hsucc & ipa & _ & _ & _ & _ & Hperm & _)].
  - rewrite Hnone in Hp. discriminate.
  - destruct (Stage1_walk_success _ _ _ _ _ _ Hsucc)
      as (tables & leaf & _ & _ & _ & _ & _ & Hfinal & Hcheck).
    rewrite Hperm, Hfinal in Hp. apply (inj Some) in Hp. rewrite <- Hp.
    rewrite <- check_permission_permits by apply ap_range. exact Hcheck.
Qed.

(** The happy path, read from EL0. *)
Lemma final_permissions_allow_witness :
  exists perms,
    Walker.final_permissions
      (Walker.walk Scenario.happy_walker Scenario.happy_va Faults.READ true) = Some perms
    /\ permits perms Faults.READ true = true.
Proof.
  destruct (Walker.final_permissions
              (Walker.walk Scenario.happy_walker Scenario.happy_va Faults.READ true))
    as [perms|] eqn:E; [|vm_compute in E; discriminate].
  exists perms. split; [reflexivity|].
  exact (final_permissions_allow Scenario.happy_walker Scenario.happy_va
           Faults.READ true perms E).
Defined.

(** X17. The fields of a result agree with its status: the status is
    SUCCESS exactly when there is no fault, and exactly when there is a
    physical address; there is an intermediate address exactly when the
    final stage-2 walk was run, that is for SUCCESS and S2_FINAL_FAULT; and
    the fault of S2_FINAL_FAULT is a translation fault of stage 2. *)
Theorem walk_status_consistent (p : Walker.PageTableWalker) (va : Address.Addr)
    (access : Faults.AccessType) (is_el0 : bool) :
  let r := Walker.walk p va access is_el0 in
  (Walker.status r = Walker.SUCCESS <-> Walker.fault r = None)
  /\ (Walker.status r = Walker.SUCCESS <-> is_Some (Walker.output_pa r))
  /\ (is_Some (Walker.ipa r)
      <-> Walker.status r = Walker.SUCCESS \/ Walker.status r = Walker.S2_FINAL_FAULT)
  /\ (is_Some (Walker.s2_final_result r) <-> is_Some (Walker.ipa r))
  /\ (Walker.status r = Walker.S2_FINAL_FAULT ->
      exists f, Walker.fault r = Some f
                /\ Faults.fault_type f = Faults.TRANSLATION_FAULT
                /\ Faults.stage f = 2).
Proof.
  cbv zeta.
  destruct (Walker_walk_cases p va access is_el0) as [_ H]. cbv zeta in H.
  pose proof (Stage1_walk_ok (Walker.stage1_walker p va) va access is_el0 0 0) as Hok1.
  unfold Stage1_result_ok in Hok1.
  destruct H as [(Hfail & Hst & _ & _ & Hf & Hipa & Hpa & _)
                | (Hsucc & ipa & _ & _ & _ & Hipa & _ & Hs2
                   & [(Hfail2 & Hst & Hf & Hpa) | (Hsucc2 & Hst & Hf & Hpa)])].
  - rewrite Hfail in Hok1. destruct Hok1 as (_ & _ & f & Hf1 & _).
    rewrite Hst, Hf, Hf1, Hipa, Hpa.
    assert (Hnone : forall A, ~ is_Some (@None A)) by (intros A [x Hx]; discriminate).
    assert (Hs2 : Walker.s2_final_result (Walker.walk p va access is_el0) = None).
    { unfold Walker.walk.
      destruct (Stage1.walk (Walker.stage1_walker p va) 0 0 va access is_el0)
        as [[s1 c] c2].
      destruct (fold_left Walker.add_s1_event (Stage1.events s1) ([], 0)) as [evs k].
      cbn [fst] in Hfail. rewrite Hfail. reflexivity. }
    rewrite Hs2.
    repeat split; intros; try discriminate;
      try (exfalso; eapply Hnone; eassumption);
      try (destruct H; discriminate).
  - pose proof (Stage2_walk_ok (Walker.stage2_walker p) ipa
                  (fold_left Walker.add_s1_event
                     (Stage1.events
                        (Stage1.walk (Walker.stage1_walker p va) 0 0 va access is_el0).1.1)
                     ([], 0)).2 access) as Hok2.
    unfold Stage2_result_ok in Hok2. rewrite Hfail2 in Hok2.
    destruct Hok2 as (_ & f & Hf2 & Hty & Hstage).
    assert (Hnone : forall A, ~ is_Some (@None A)) by (intros A [x Hx]; discriminate).
    rewrite Hst, Hf, Hf2, Hipa, Hpa, Hs2.
    repeat split; intros; try discriminate; eauto;
      try (exfalso; eapply Hnone; eassumption).
  - pose proof (Stage2_walk_success_output (Walker.stage2_walker p) ipa
                  (fold_left Walker.add_s1_event
                     (Stage1.events
                        (Stage1.walk (Walker.stage1_walker p va) 0 0 va access is_el0).1.1)
                     ([], 0)).2 access Hsucc2) as Hout.
    rewrite Hst, Hf, Hipa, Hpa, Hs2.
    repeat split; intros; try discriminate; eauto.
Qed.

(** The walk whose final stage-2 walk faults. *)
Lemma walk_status_consistent_witness :
  let r := Walker.walk (Scenario.walker_of Scenario.stage1_happy Scenario.stage2_without_final)
             Scenario.happy_va Faults.READ true in
  Walker.status r = Walker.S2_FINAL_FAULT
  /\ exists f, Walker.fault r = Some f
               /\ Faults.fault_type f = Faults.TRANSLATION_FAULT
               /\ Faults.stage f = 2.
Proof.
  cbv zeta.
  assert (H : Walker.status
                (Walker.walk
                   (Scenario.walker_of Scenario.stage1_happy Scenario.stage2_without_final)
                   Scenario.happy_va Faults.READ true) = Walker.S2_FINAL_FAULT)
    by (vm_compute; reflexivity).
  split; [exact H|].
  exact (proj2 (proj2 (proj2 (proj2
           (walk_status_consistent
              (Scenario.walker_of Scenario.stage1_happy Scenario.stage2_without_final)
              Scenario.happy_va Faults.READ true)))) H).
Defined.

(** The flattening loops append the events of their list in order. *)
Lemma flatten_nested_trace s1_event evs : forall acc,
  map without_id (fold_left (Walker.add_nested_event s1_event) evs acc).1
  = map without_id acc.1 ++ map (nested_trace_event s1_event) evs.
Proof.
  induction evs as [|e evs IH]; intros acc; cbn [fold_left map].
  - rewrite app_nil_r. reflexivity.
  - rewrite IH. unfold Walker.add_nested_event. cbn [fst].
    rewrite map_app, <- app_assoc. reflexivity.
Qed.

Lemma flatten_final_trace ipa_value evs : forall acc,
  map without_id (fold_left (Walker.add_final_event ipa_value) evs acc).1
  = map without_id acc.1 ++ map (final_trace_event ipa_value) evs.
Proof.
  induction evs as [|e evs IH]; intros acc; cbn [fold_left map].
  - rewrite app_nil_r. reflexivity.
  - rewrite IH. unfold Walker.add_final_event. cbn [fst].
    rewrite map_app, <- app_assoc. reflexivity.
Qed.

Lemma flatten_stage1_trace evs : forall acc,
  map without_id (fold_left Walker.add_s1_event evs acc).1
  = map without_id acc.1 ++ stage1_trace evs.
Proof.
  induction evs as [|e evs IH]; intros acc; cbn [fold_left].
  - unfold stage1_trace. cbn. rewrite app_nil_r. reflexivity.
  - rewrite IH. unfold Walker.add_s1_event. cbv zeta. cbn [fst].
    rewrite map_app, flatten_nested_trace.
    unfold stage1_trace. cbn [flat_map map].
    rewrite <- !app_assoc. reflexivity.
Qed.

(** X18. Apart from the identifiers, the trace of a walk is, for each
    stage-1 event in order, its nested stage-2 events followed by the event
    itself, and after them the events of the final stage-2 walk when there
    is one. *)
Theorem walk_trace_order (p : Walker.PageTableWalker) (va : Address.Addr)
    (access : Faults.AccessType) (is_el0 : bool) :
  let s1 := (Stage1.walk (Walker.stage1_walker p va) 0 0 va access is_el0).1.1 in
  let r := Walker.walk p va access is_el0 in
  map without_id (Walker.events r)
  = stage1_trace (Stage1.events s1)
    ++ match Walker.ipa r, Walker.s2_final_result r with
       | Some ipa, Some s2 => map (final_trace_event (Address.value ipa)) (Stage2.events s2)
       | _, _ => []
       end.
Proof.
  cbv zeta.
  destruct (Walker_walk_cases p va access is_el0) as [_ H]. cbv zeta in H.
  destruct H as [(_ & _ & Hev & _ & _ & Hipa & _)
                | (_ & ipa & _ & Hev & _ & Hipa & _ & Hs2 & _)].
  - rewrite Hev, Hipa, flatten_stage1_trace, app_nil_r. reflexivity.
  - rewrite Hev, Hipa, Hs2, flatten_final_trace, flatten_stage1_trace. reflexivity.
Qed.

(** ** Entries that no branch handles *)

(** A word with low bits 0b01 at a level other than 1 and 2 passes the
    validity test and none of the type tests. *)
Lemma reserved_entry_untyped v lvl s2 :
  Z.land v 3 = 1 -> lvl <> 1 -> lvl <> 2 ->
  Descriptor.is_valid (Descriptor.create_descriptor v lvl s2) = true
  /\ Descriptor.is_table (Descriptor.create_descriptor v lvl s2) = false
  /\ Descriptor.is_page (Descriptor.create_descriptor v lvl s2) = false
  /\ Descriptor.is_block (Descriptor.create_descriptor v lvl s2) = false.
Proof.
  intros Hv H1 H2.
  unfold Descriptor.is_valid, Descriptor.is_table, Descriptor.is_page,
    Descriptor.is_block, Descriptor.create_descriptor.
  cbn [Descriptor.value Descriptor.level].
  destruct (land_3_cases v) as [_ Hbit]. rewrite Hbit, Hv.
  destruct (Z.eqb_spec lvl 1), (Z.eqb_spec lvl 2); try contradiction.
  rewrite !andb_false_r. repeat split.
Qed.

(** X19. Stage 2: an entry whose low bits are 0b01 at a level other than
    1 and 2, where the encoding is reserved, is neither reported as a fault
    nor recorded.  The loop goes on to the next level with the same table
    and the same events, and only the counter advances; at the last level
    the walk then ends with a translation fault at level 3 that names no
    fault address. *)
Theorem stage2_reserved_entry_skipped (w : Stage2.Stage2Walker) (ipa : Address.Addr)
    (lvl : Z) (st : Stage2.LoopState) :
  let entry :=
    Stage2._read_descriptor w
      (Address.calculate_descriptor_address
         (Stage2.current_table_pa st) (Address.get_index ipa lvl) 8) in
  let st' :=
    {| Stage2.current_table_pa := Stage2.current_table_pa st;
       Stage2.events_so_far := Stage2.events_so_far st;
       Stage2.event_counter := Stage2.event_counter st + 1 |} in
  Z.land entry 3 = 1 -> lvl <> 1 -> lvl <> 2 ->
  (forall n, Stage2.walk_from w ipa (S n) lvl st = Stage2.walk_from w ipa n (lvl + 1) st')
  /\ (let r := (Stage2.walk_from w ipa 1 lvl st).1 in
      Stage2.success r = false
      /\ Stage2.events r = Stage2.events_so_far st
      /\ exists f, Stage2.fault r = Some f
           /\ Faults.fault_type f = Faults.TRANSLATION_FAULT
           /\ Faults.level f = 3
           /\ Faults.far_el2 f = None).
Proof.
  cbv zeta. intros Hv H1 H2.
  destruct (reserved_entry_untyped _ lvl true Hv H1 H2) as (Hvalid & Ht & Hp & Hb).
  assert (Hstep : forall n,
            Stage2.walk_from w ipa (S n) lvl st
            = Stage2.walk_from w ipa n (lvl + 1)
                {| Stage2.current_table_pa := Stage2.current_table_pa st;
                   Stage2.events_so_far := Stage2.events_so_far st;
                   Stage2.event_counter := Stage2.event_counter st + 1 |}).
  { intros n. cbn [Stage2.walk_from]. unfold Stage2.walk_level. cbv zeta.
    rewrite Hvalid, Ht, Hp, Hb. reflexivity. }
  split; [exact Hstep|].
  rewrite Hstep. cbn. eauto 10.
Qed.

(** A level-3 table whose entry for the address is a block word. *)
Lemma stage2_reserved_entry_skipped_witness :
  let w := {| Stage2.vttbr_base := 0x100000000; Stage2.starting_level := 3;
              Stage2.translation_tables := {[ 0x100000000 := 0x40000441 ]} |} in
  let r := (Stage2.walk_from w (Address.IntermediatePhysicalAddress 0) 1 3
              (Scenario.entering_stage2 0x100000000)).1 in
  Stage2.success r = false
  /\ Stage2.events r = []
  /\ exists f, Stage2.fault r = Some f
       /\ Faults.fault_type f = Faults.TRANSLATION_FAULT
       /\ Faults.level f = 3
       /\ Faults.far_el2 f = None.
Proof.
  cbv zeta.
  refine (proj2 (stage2_reserved_entry_skipped
            {| Stage2.vttbr_base := 0x100000000; Stage2.starting_level := 3;
               Stage2.translation_tables := {[ 0x100000000 := 0x40000441 ]} |}
            (Address.IntermediatePhysicalAddress 0) 3
            (Scenario.entering_stage2 0x100000000) _ _ _)).
  - vm_compute. reflexivity.
  - lia.
  - lia.
Defined.

(** X20. Stage 1: the same.  When the nested stage-2 walk has translated
    the table address and the entry fetched has low bits 0b01 at a level
    other than 1 and 2, the level records nothing, neither the entry nor the
    nested stage-2 events, and leaves the table and the limits as they were;
    at the last level the walk ends with a translation fault at level 3
    that names no fault address. *)
Theorem stage1_reserved_entry_skipped (w : Stage1.Stage1Walker) (va : Address.Addr)
    (access : Faults.AccessType) (is_el0 : bool) (lvl : Z) (st : Stage1.LoopState) :
  match Stage1_fetch w va access lvl st with
  | Some (pa, d) =>
      Z.land (Descriptor.value d) 3 = 1 -> lvl <> 1 -> lvl <> 2 ->
      (exists c2,
         Stage1.walk_level w va access is_el0 lvl st
         = Stage1.Continue
             {| Stage1.current_table_ipa := Stage1.current_table_ipa st;
                Stage1.uxn_limit := Stage1.uxn_limit st;
                Stage1.pxn_limit := Stage1.pxn_limit st;
                Stage1.ap_limit := Stage1.ap_limit st;
                Stage1.events_so_far := Stage1.events_so_far st;
                Stage1.event_counter := Stage1.event_counter st + 1;
                Stage1.s2_event_counter := c2 |})
      /\ (let r := (Stage1.walk_from w va access is_el0 1 lvl st).1.1 in
          Stage1.success r = false
          /\ Stage1.events r = Stage1.events_so_far st
          /\ exists f, Stage1.fault r = Some f
               /\ Faults.fault_type f = Faults.TRANSLATION_FAULT
               /\ Faults.stage f = 1
               /\ Faults.level f = 3
               /\ Faults.far_el1 f = None)
  | None => True
  end.
Proof.
  unfold Stage1_fetch. cbn [Stage1.walk_from].
  stage1_level w access st. cbn [fst].
  destruct (Stage2.success s2); [|exact I]. cbn [negb]. cbv beta iota zeta.
  cbn [Descriptor.value Descriptor.create_descriptor].
  intros Hv H1 H2.
  destruct (reserved_entry_untyped _ lvl false Hv H1 H2) as (Hvalid & Ht & Hp & Hb).
  rewrite Hvalid, Ht, Hp, Hb. cbn [negb orb].
  split; [eexists; reflexivity|].
  cbn. eauto 10.
Qed.

(** The happy path with a block word in place of the level-3 page. *)
Lemma stage1_reserved_entry_skipped_witness :
  let w := Walker.stage1_walker
             (Scenario.walker_of (<[0x4003008 := 0x50000441]> Scenario.stage1_happy)
                Scenario.stage2_identity) Scenario.happy_va in
  let r := (Stage1.walk_from w Scenario.happy_va Faults.READ true 1 3
              (Scenario.entering 0x4003000)).1.1 in
  Stage1.success r = false
  /\ Stage1.events r = []
  /\ exists f, Stage1.fault r = Some f
       /\ Faults.fault_type f = Faults.TRANSLATION_FAULT
       /\ Faults.stage f = 1
       /\ Faults.level f = 3
       /\ Faults.far_el1 f = None.
Proof.
  cbv zeta.
  pose proof (stage1_reserved_entry_skipped
                (Walker.stage1_walker
                   (Scenario.walker_of (<[0x4003008 := 0x50000441]> Scenario.stage1_happy)
                      Scenario.stage2_identity) Scenario.happy_va)
                Scenario.happy_va Faults.READ true 3 (Scenario.entering 0x4003000)) as H.
  assert (Hfetch : Stage1_fetch
                     (Walker.stage1_walker
                        (Scenario.walker_of
                           (<[0x4003008 := 0x50000441]> Scenario.stage1_happy)
                           Scenario.stage2_identity) Scenario.happy_va)
                     Scenario.happy_va Faults.READ 3 (Scenario.entering 0x4003000)
                   = Some (0x4003008, Descriptor.create_descriptor 0x50000441 3 false))
    by (vm_compute; reflexivity).
  rewrite Hfetch in H.
  exact (proj2 (H ltac:(reflexivity) ltac:(lia) ltac:(lia))).
Defined.

(** ** A stage-2 starting level past the last level *)

Lemma Stage2_walk_no_levels w c ipa access :
  4 <= Stage2.starting_level w ->
  Stage2.walk w c ipa access
  = (Stage2.walk_exhausted ipa
       {| Stage2.current_table_pa := Stage2.vttbr_base w;
          Stage2.events_so_far := [];
          Stage2.event_counter := c |}, c).
Proof.
  intros H. unfold Stage2.walk.
  replace (Z.to_nat (4 - Stage2.starting_level w)) with 0%nat by lia.
  reflexivity.
Qed.

Lemma Stage1_walk_no_stage2_levels w c c2 va access is_el0 :
  4 <= Stage2.starting_level (Stage1.stage2_walker w) ->
  Stage1.starting_level w <= 3 ->
  exists e,
    Stage1.walk w c c2 va access is_el0
    = ({| Stage1.success := false; Stage1.input_va := va; Stage1.output_ipa := None;
          Stage1.events := [e];
          Stage1.fault :=
            Stage2.fault
              (Stage2.walk_exhausted (Address.IntermediatePhysicalAddress (Stage1.ttbr_base w))
                 {| Stage2.current_table_pa := Stage2.vttbr_base (Stage1.stage2_walker w);
                    Stage2.events_so_far := [];
                    Stage2.event_counter := c2 |});
          Stage1.final_permissions := None |}, c + 1, c2)
    /\ Stage1.s2_events e = []
    /\ Stage1.level e = Stage1.starting_level w
    /\ Stage1.descriptor_type e = Descriptor.INVALID
    /\ Stage1.descriptor_address_pa e = 0
    /\ Stage1.descriptor_value e = 0
    /\ Stage1.output_address e = 0.
Proof.
  intros H2 H1. unfold Stage1.walk.
  replace (Z.to_nat (4 - Stage1.starting_level w))
    with (S (Z.to_nat (3 - Stage1.starting_level w))) by lia.
  cbn [Stage1.walk_from]. unfold Stage1.walk_level.
  cbn [Stage1.initial_state Stage1.s2_event_counter Stage1.current_table_ipa
       Stage1.event_counter Stage1.events_so_far].
  rewrite Stage2_walk_no_levels by exact H2.
  cbn [Stage2.success Stage2.walk_exhausted negb Stage2.events Stage2.events_so_far app].
  eexists. split; [reflexivity|]. repeat split.
Qed.

(** X21. When VTCR_EL2.SL0 is 4 or more the stage-2 loop has no level to
    run.  Every walk then fails on the first nested stage-2 walk without
    reading a descriptor: the status is S1_FAULT, the fault is a stage-2
    translation fault at level 3 for the address of the stage-1 root table
    that names no fault address, and the trace consists of one empty
    stage-1 event, which is counted as one memory access. *)
Theorem walk_without_stage2_levels (p : Walker.PageTableWalker) (va : Address.Addr)
    (access : Faults.AccessType) (is_el0 : bool) :
  4 <= Registers.sl0 (Registers.vtcr_el2 (Walker.register_state p)) ->
  let r := Walker.walk p va access is_el0 in
  Walker.status r = Walker.S1_FAULT
  /\ Walker.total_memory_accesses r = 1
  /\ (exists e, Walker.events r = [e]
        /\ Walker.event_id e = 1
        /\ Walker.stage e = 1
        /\ Walker.result e = Descriptor.INVALID
        /\ Walker.address e = 0
        /\ Walker.descriptor_value e = 0)
  /\ Walker.fault r =
       Some {| Faults.fault_type := Faults.TRANSLATION_FAULT;
               Faults.stage := 2;
               Faults.level := 3;
               Faults.address :=
                 Registers.get_stage1_table_base (Walker.register_state p)
                   (Address.uses_ttbr1 va);
               Faults.access_type := None;
               Faults.message := Faults.MsgNoPageDescriptor 2;
               Faults.far_el1 := None;
               Faults.far_el2 := None |}.
Proof.
  intros Hsl0. cbv zeta.
  pose proof (starting_level_range
                (Registers.tcr_el1 (Walker.register_state p)) (Address.uses_ttbr1 va))
    as Hs1.
  destruct (Stage1_walk_no_stage2_levels (Walker.stage1_walker p va) 0 0 va access is_el0)
    as (e & Hwalk & Hnested & Hlvl & Hty & Haddr & Hval & Hout).
  { exact Hsl0. }
  { change (Stage1.starting_level (Walker.stage1_walker p va))
      with (Registers.starting_level (Registers.tcr_el1 (Walker.register_state p))
              (Address.uses_ttbr1 va)).
    lia. }
  destruct (Walker_walk_cases p va access is_el0) as [_ H]. cbv zeta in H.
  rewrite Hwalk in H. cbn [fst Stage1.success Stage1.events Stage1.fault] in H.
  destruct H as [(_ & Hst & Hev & Hcount & Hf & _) | (Habs & _)]; [|discriminate].
  cbn [fold_left] in Hev, Hcount. unfold Walker.add_s1_event in Hev, Hcount.
  rewrite Hnested in Hev, Hcount. cbn in Hev, Hcount.
  split; [exact Hst|]. split; [exact Hcount|]. split.
  - eexists. split; [exact Hev|]. cbn. rewrite Hty, Haddr, Hval. repeat split.
  - rewrite Hf. reflexivity.
Qed.

(** The happy path with SL0 = 4. *)
Lemma walk_without_stage2_levels_witness :
  let p := {| Walker.register_state :=
                {| Registers.ttbr0_el1 := Registers.ttbr0_el1 Registers.default;
                   Registers.ttbr1_el1 := Registers.ttbr1_el1 Registers.default;
                   Registers.vttbr_el2 := Registers.vttbr_el2 Registers.default;
                   Registers.tcr_el1 := Registers.tcr_el1 Registers.default;
                   Registers.vtcr_el2 := Registers.make_VTCR 16 4 |};
              Walker.s1_tables := Scenario.stage1_happy;
              Walker.s2_tables := Scenario.stage2_identity |} in
  4 <= Registers.sl0 (Registers.vtcr_el2 (Walker.register_state p))
  /\ Walker.status (Walker.walk p Scenario.happy_va Faults.READ true) = Walker.S1_FAULT
  /\ Walker.total_memory_accesses (Walker.walk p Scenario.happy_va Faults.READ true) = 1.
Proof.
  intros p.
  assert (H : 4 <= Registers.sl0 (Registers.vtcr_el2 (Walker.register_state p)))
    by (vm_compute; discriminate).
  split; [exact H|].
  destruct (walk_without_stage2_levels p Scenario.happy_va Faults.READ true H)
    as (Hst & Hcount & _).
  split; [exact Hst | exact Hcount].
Defined.

(** ** Serialised faults (simulator/faults.py) *)

Lemma truthy_address_none a :
  Faults.truthy_address a = None <-> a = None \/ a = Some 0.
Proof.
  unfold Faults.truthy_address. destruct a as [v|].
  - destruct (Z.eqb_spec v 0) as [-> | Hv].
    + split; [intros _; right; reflexivity | reflexivity].
    + split; [discriminate|].
      intros [H | H]; [discriminate|]. apply (inj Some) in H. contradiction.
  - split; [intros _; left; reflexivity | reflexivity].
Qed.

Lemma fmap_hex_none (a : option Z) : Faults.Hex16 <$> a = None <-> a = None.
Proof. destruct a; split; intros H; (discriminate || reflexivity). Qed.

(** X22. The dictionary of a fault record drops a fault address that is
    zero: FAR_EL1 and FAR_EL2 are None not only when the record has no
    such address but also when the address is 0, while the [address] entry
    is always written.  So the dictionary of the stage-1 translation fault
    for the virtual address 0 has no FAR_EL1, although the record has. *)
Theorem to_dict_drops_zero_far :
  (forall f, Faults.dict_FAR_EL1 (Faults.to_dict f) = None
             <-> Faults.far_el1 f = None \/ Faults.far_el1 f = Some 0)
  /\ (forall f, Faults.dict_FAR_EL2 (Faults.to_dict f) = None
                <-> Faults.far_el2 f = None \/ Faults.far_el2 f = Some 0)
  /\ (forall f v, v <> 0 -> Faults.far_el1 f = Some v ->
        Faults.dict_FAR_EL1 (Faults.to_dict f) = Some (Faults.Hex16 v))
  /\ (forall f, Faults.dict_address (Faults.to_dict f) = Faults.Hex16 (Faults.address f))
  /\ (forall va lvl,
        Faults.far_el1 (Stage1_translation_fault va lvl) = Some (Address.value va)
        /\ (Faults.dict_FAR_EL1 (Faults.to_dict (Stage1_translation_fault va lvl)) = None
            <-> Address.value va = 0)).
Proof.
  split; [|split; [|split; [|split]]].
  - intros f. cbn [Faults.to_dict Faults.dict_FAR_EL1].
    rewrite fmap_hex_none. apply truthy_address_none.
  - intros f. cbn [Faults.to_dict Faults.dict_FAR_EL2].
    rewrite fmap_hex_none. apply truthy_address_none.
  - intros f v Hv Hf. cbn [Faults.to_dict Faults.dict_FAR_EL1]. rewrite Hf.
    unfold Faults.truthy_address. destruct (Z.eqb_spec v 0); [contradiction|].
    reflexivity.
  - reflexivity.
  - intros va lvl. split; [reflexivity|].
    cbn [Faults.to_dict Faults.dict_FAR_EL1 Stage1_translation_fault Faults.far_el1].
    rewrite fmap_hex_none, truthy_address_none. split.
    + intros [H | H]; [discriminate|]. apply (inj Some) in H. exact H.
    + intros ->. right. reflexivity.
Qed.

(** A record whose FAR_EL1 is 0x1000. *)
Lemma to_dict_drops_zero_far_witness :
  0x1000 <> 0
  /\ Faults.dict_FAR_EL1 (Faults.to_dict (Stage1_translation_fault (Scenario.va_of 0x1000) 0))
     = Some (Faults.Hex16 0x1000).
Proof.
  assert (H : 0x1000 <> 0) by lia.
  split; [exact H|].
  exact (proj1 (proj2 (proj2 to_dict_drops_zero_far))
           (Stage1_translation_fault (Scenario.va_of 0x1000) 0) 0x1000 H eq_refl).
Defined.
